(** * The block-sealing worker of go-quai (core/worker.go)

    A shallow embedding of the sealing worker: the sealing environment, the
    transaction-inclusion loop, uncle admission, gas-limit adjustment, the
    manifest and etx-rollup hashes of a pending block, the pending-body
    cache with its persistence, the snapshot exposed to readers, the two
    arms of the main loop, and the preparation of the sealing work up to
    the generation of the pending header.

    Pointers to mutable objects are modelled by explicit state passing: a
    function that mutates [env] or the worker returns the new value.  A nil
    pointer the code tests for or dereferences is an [option].  Collaborators
    that live outside core/worker.go are interfaces (type classes). *)

From Stdlib Require Import Floats.SpecFloat.
From stdpp Require Import base numbers option list strings gmap sets.

Local Open Scope Z_scope.

(** ** Machine integers *)

(** uint64 arithmetic wraps around modulo 2^64. *)
Definition wrap64 (z : Z) : Z := z mod 2 ^ 64.

(** int32 arithmetic wraps around into [-2^31, 2^31). *)
Definition wrap32 (z : Z) : Z := (z + 2 ^ 31) mod 2 ^ 32 - 2 ^ 31.

(** [int] arithmetic (64 bits) wraps around into [-2^63, 2^63). *)
Definition wrap_int (z : Z) : Z := (z + 2 ^ 63) mod 2 ^ 64 - 2 ^ 63.

(** Conversion [uint64(i)] of a 64-bit [int]. *)
Definition uint64_of_int (i : Z) : Z := i mod 2 ^ 64.

(** ** Outcome of a Go call: normal return, run-time panic, or no return

    A call does not return when it blocks for ever, or when the model runs
    out of fuel. *)

Inductive go (A : Type) : Type :=
| Done (a : A)
| Panic (reason : string)
| Diverge.
Arguments Done {A} a.
Arguments Panic {A} reason.
Arguments Diverge {A}.

Definition go_bind {A B} (m : go A) (k : A → go B) : go B :=
  match m with
  | Done a => k a
  | Panic r => Panic r
  | Diverge => Diverge
  end.

Notation "x ←! m ; k" := (go_bind m (λ x, k))
  (at level 100, m at next level, right associativity, only parsing).

Definition nil_deref : string := "invalid memory address or nil pointer dereference".
Definition divide_by_zero : string := "integer divide by zero".
Definition index_out_of_range : string := "index out of range".

(** Dereference of a possibly nil pointer. *)
Definition deref {A} (p : option A) : go A :=
  match p with
  | Some a => Done a
  | None => Panic nil_deref
  end.

(** ** common *)

(** [common.Hash] and [common.Address] are byte arrays, read as numbers. *)
Abbreviation Hash := N.
Abbreviation Address := N.

(** [common.NodeLocation.Context()]. *)
Inductive NodeCtx := PRIME_CTX | REGION_CTX | ZONE_CTX.

#[global] Instance NodeCtx_eq_dec : EqDecision NodeCtx.
Proof. solve_decision. Defined.

(** The contexts as the integers they are: PRIME is 0, REGION 1, ZONE 2. *)
Definition NodeCtx_int (nodeCtx : NodeCtx) : Z :=
  match nodeCtx with
  | PRIME_CTX => 0
  | REGION_CTX => 1
  | ZONE_CTX => 2
  end.

(** [common.ZeroAddr]. *)
Definition ZeroAddr : N := 0%N.

(** ** Constants of core/worker.go and params *)

Definition staleThreshold : Z := 7.
Definition pendingBlockBodyLimit : nat := 1024.
Definition resubmitAdjustChanSize : nat := 10.
Definition minRecommitInterval : Z := 1000000000.
Definition TxGas : Z := 21000.

Definition commitInterruptNone : Z := 0.
Definition commitInterruptNewHead : Z := 1.
Definition commitInterruptResubmit : Z := 2.

Definition ReceiptStatusSuccessful : Z := 1.

(** ** Errors *)

(** The sentinel errors of package core that the inclusion loop looks for,
    fresh errors made by [errors.New], and wrapping by [fmt.Errorf] with %w. *)
Inductive error :=
| ErrGasLimitReached
| ErrNonceTooLow
| ErrNonceTooHigh
| ErrTxTypeNotSupported
| errors_New (msg : string)
| fmt_Errorf (msg : string) (inner : error).

#[global] Instance error_eq_dec : EqDecision error.
Proof. solve_decision. Defined.

(** The walk of [errors.Is] along the Unwrap chain. *)
Fixpoint errors_is_chain (err target : error) : bool :=
  if decide (err = target) then true
  else match err with
       | fmt_Errorf _ inner => errors_is_chain inner target
       | _ => false
       end.

(** [errors.Is(err, target)]; a nil on either side compares by equality. *)
Definition errors_Is (err target : option error) : bool :=
  match err, target with
  | None, None => true
  | Some e, Some t => errors_is_chain e t
  | _, _ => false
  end.

(** The innermost error of a chain of wrappings. *)
Fixpoint error_root (e : error) : error :=
  match e with
  | fmt_Errorf _ inner => error_root inner
  | e => e
  end.

Definition sentinel (e : error) : Prop :=
  match e with
  | fmt_Errorf _ _ => False
  | _ => True
  end.

(** ** core/types: the fields and accessors the worker touches *)

Record Transaction := mkTransaction {
  tx_hash : Hash;
  tx_nonce : Z;
  tx_type : Z;
}.

Record Log := mkLog {
  log_address : Address;
  log_data : N;
}.

Record Receipt := mkReceipt {
  Status : Z;
  receipt_GasUsed : Z;
  Logs : list Log;
  Etxs : list Transaction;
}.

Record Header := mkHeader {
  ParentHash : Hash;
  Number : Z;
  Time : Z;
  GasLimit : Z;
  GasUsed : Z;
  BaseFee : Z;
  UncleHash : Hash;
  TxHash : Hash;
  EtxHash : Hash;
  ManifestHash : Hash;
  EtxRollupHash : Hash;
}.

Definition SetParentHash (h : Header) (v : Hash) : Header :=
  mkHeader v (Number h) (Time h) (GasLimit h) (GasUsed h) (BaseFee h)
           (UncleHash h) (TxHash h) (EtxHash h) (ManifestHash h) (EtxRollupHash h).
Definition SetNumber (h : Header) (v : Z) : Header :=
  mkHeader (ParentHash h) v (Time h) (GasLimit h) (GasUsed h) (BaseFee h)
           (UncleHash h) (TxHash h) (EtxHash h) (ManifestHash h) (EtxRollupHash h).
Definition SetTime (h : Header) (v : Z) : Header :=
  mkHeader (ParentHash h) (Number h) v (GasLimit h) (GasUsed h) (BaseFee h)
           (UncleHash h) (TxHash h) (EtxHash h) (ManifestHash h) (EtxRollupHash h).
Definition SetGasLimit (h : Header) (v : Z) : Header :=
  mkHeader (ParentHash h) (Number h) (Time h) v (GasUsed h) (BaseFee h)
           (UncleHash h) (TxHash h) (EtxHash h) (ManifestHash h) (EtxRollupHash h).
Definition SetGasUsed (h : Header) (v : Z) : Header :=
  mkHeader (ParentHash h) (Number h) (Time h) (GasLimit h) v (BaseFee h)
           (UncleHash h) (TxHash h) (EtxHash h) (ManifestHash h) (EtxRollupHash h).
Definition SetManifestHash (h : Header) (v : Hash) : Header :=
  mkHeader (ParentHash h) (Number h) (Time h) (GasLimit h) (GasUsed h)
           (BaseFee h) (UncleHash h) (TxHash h) (EtxHash h) v (EtxRollupHash h).
Definition SetEtxRollupHash (h : Header) (v : Hash) : Header :=
  mkHeader (ParentHash h) (Number h) (Time h) (GasLimit h) (GasUsed h)
           (BaseFee h) (UncleHash h) (TxHash h) (EtxHash h) (ManifestHash h) v.

Definition SetBaseFee (h : Header) (v : Z) : Header :=
  mkHeader (ParentHash h) (Number h) (Time h) (GasLimit h) (GasUsed h) v
           (UncleHash h) (TxHash h) (EtxHash h) (ManifestHash h) (EtxRollupHash h).

(** [types.EmptyHeader()], as far as the fields above go. *)
Definition EmptyHeader : Header := mkHeader 0%N 0 0 0 0 0 0%N 0%N 0%N 0%N 0%N.

(** [types.Body]: the lists a block carries beside its header. *)
Record Body := mkBody {
  body_Transactions : list Transaction;
  body_Uncles : list Header;
  body_ExtTransactions : list Transaction;
  body_SubManifest : list Hash;
}.

(** [&types.Body{}]. *)
Definition emptyBody : Body := mkBody [] [] [] [].

Record Block := mkBlock {
  block_header : Header;
  block_body : Body;
}.

(** [block.Header()] hands out the block's own header, so a setter called on
    it changes the block. *)
Definition block_set_header (b : Block) (h : Header) : Block :=
  mkBlock h (block_body b).

Definition NumberU64 (b : Block) : Z := Number (block_header b).
Definition ExtTransactions (b : Block) : list Transaction :=
  body_ExtTransactions (block_body b).

(** The two kinds of list [types.DeriveSha] is applied to. *)
Inductive DerivableList :=
| BlockManifest (hashes : list Hash)
| Transactions (txs : list Transaction).

(** ** The LRU cache (hashicorp/golang-lru), most recently used entry first *)

Section LRU.
Context {V : Type}.

Record lru := mkLru {
  lru_size : nat;
  lru_items : list (Hash * V);
}.

(** [lru.New(size)]. *)
Definition lru_New (size : nat) : lru := mkLru size [].

Fixpoint lru_assoc (key : Hash) (items : list (Hash * V)) : option V :=
  match items with
  | [] => None
  | (k, v) :: rest => if decide (k = key) then Some v else lru_assoc key rest
  end.

Fixpoint lru_remove (key : Hash) (items : list (Hash * V)) : list (Hash * V) :=
  match items with
  | [] => []
  | (k, v) :: rest =>
      if decide (k = key) then lru_remove key rest else (k, v) :: lru_remove key rest
  end.

(** [Peek]: the value of a key, its recency left alone. *)
Definition lru_Peek (c : lru) (key : Hash) : option V :=
  lru_assoc key (lru_items c).

Definition lru_Contains (c : lru) (key : Hash) : bool :=
  bool_decide (is_Some (lru_Peek c key)).

(** [Add]: a present key is updated and moved to the front; a new key is put
    at the front and the oldest entry evicted when the size is exceeded. *)
Definition lru_Add (c : lru) (key : Hash) (value : V) : lru * bool :=
  match lru_Peek c key with
  | Some _ => (mkLru (lru_size c) ((key, value) :: lru_remove key (lru_items c)), false)
  | None =>
      let items := (key, value) :: lru_items c in
      if decide (lru_size c < length items)%nat
      then (mkLru (lru_size c) (removelast items), true)
      else (mkLru (lru_size c) items, false)
  end.

(** [Get]: the value of a key, which becomes the most recently used. *)
Definition lru_Get (c : lru) (key : Hash) : lru * option V :=
  match lru_Peek c key with
  | Some v => (mkLru (lru_size c) ((key, v) :: lru_remove key (lru_items c)), Some v)
  | None => (c, None)
  end.

(** [ContainsOrAdd]: adds only when the key is absent. *)
Definition lru_ContainsOrAdd (c : lru) (key : Hash) (value : V) : lru * (bool * bool) :=
  if lru_Contains c key then (c, (true, false))
  else let '(c', evicted) := lru_Add c key value in (c', (false, evicted)).

(** [Keys]: oldest to newest. *)
Definition lru_Keys (c : lru) : list Hash := reverse (lru_items c).*1.

Definition lru_Len (c : lru) : nat := length (lru_items c).

(** What [lru.New] and the operations above keep: distinct keys, and no
    more entries than the size. *)
Definition lru_wf (c : lru) : Prop :=
  NoDup (lru_items c).*1 ∧ (length (lru_items c) ≤ lru_size c)%nat.
End LRU.
Arguments lru V : clear implicits.

(** ** The worker's key-value store, seen through rawdb *)

(** Modelled from the spec: the pending-block-body table of the KV store and
    rawdb's accessors to it (core/rawdb is not part of core/worker.go).  The
    table has two logical records: a keys index and one body blob per
    fingerprint.  A blob reads back as the body it was written from, an
    absent blob or index reads back as nil. *)
Record Database := mkDatabase {
  db_pbBodyKeys : option (list Hash);
  db_pbCacheBody : gmap N (option Body);
}.

Definition emptyDatabase : Database := mkDatabase None ∅.

Definition ReadPbBodyKeys (db : Database) : list Hash :=
  default [] (db_pbBodyKeys db).
Definition WritePbBodyKeys (db : Database) (hashes : list Hash) : Database :=
  mkDatabase (Some hashes) (db_pbCacheBody db).
Definition ReadPbCacheBody (db : Database) (hash : Hash) : option Body :=
  default None (db_pbCacheBody db !! hash).
Definition WritePbCacheBody (db : Database) (hash : Hash) (body : option Body) : Database :=
  mkDatabase (db_pbBodyKeys db) (<[hash := body]> (db_pbCacheBody db)).
Definition DeletePbCacheBody (db : Database) (hash : Hash) : Database :=
  mkDatabase (db_pbBodyKeys db) (delete hash (db_pbCacheBody db)).

(** ** Collaborators of the worker *)

(** core/state: the state database. *)
Class StateOps := {
  StateDB : Type;
  StateDB_Copy : StateDB → StateDB;
  StateDB_Snapshot : StateDB → Z * StateDB;
  StateDB_RevertToSnapshot : StateDB → Z → StateDB;
  StateDB_Prepare : StateDB → Hash → Z → StateDB;
}.

(** core/types: signers, hashing and block assembly. *)
Class TypesOps := {
  Signer : Type;
  Sender : Signer → Transaction → Address;
  HeaderHash : Header → Hash;
  DeriveSha : DerivableList → Hash;
  RlpHash : list Hash → Hash;
  EmptyBodyHash : Hash;
  NewBlock : Header → list Transaction → list Header → list Transaction →
             list Hash → list Receipt → Block;
}.

(** core/types: the price-and-nonce ordered iterator.  [txset_len] counts the
    transactions still held; both ways of advancing past the head drop one. *)
Class TxSetOps `{TypesOps} := {
  TransactionsByPriceAndNonce : Type;
  NewTransactionsByPriceAndNonce :
    option Signer → gmap N (list Transaction) → Z → bool → TransactionsByPriceAndNonce;
  Peek : TransactionsByPriceAndNonce → option Transaction;
  Shift : TransactionsByPriceAndNonce → Address → bool → TransactionsByPriceAndNonce;
  Pop : TransactionsByPriceAndNonce → TransactionsByPriceAndNonce;
  txset_len : TransactionsByPriceAndNonce → nat;
  Shift_len : ∀ t acc sort, is_Some (Peek t) → (txset_len (Shift t acc sort) < txset_len t)%nat;
  Pop_len : ∀ t, is_Some (Peek t) → (txset_len (Pop t) < txset_len t)%nat;
}.

(** What [ApplyTransaction] leaves behind: the contents of the gas pool, the
    state and the gas-used counter it was handed by reference, and its
    result. *)
Record ApplyResult `{StateOps} := mkApplyResult {
  ar_gasPool : Z;
  ar_state : StateDB;
  ar_gasUsed : Z;
  ar_result : Receipt + error;
}.
Arguments mkApplyResult {_} _ _ _ _.

(** The header chain and the state processor. *)
Class ChainOps `{StateOps} := {
  ApplyTransaction : Address → option Z → StateDB → Header → Transaction → Z → ApplyResult;
  CalcGasLimit : Z → Z → Z;
  CollectBlockManifest : Header → list Hash + error;
  CollectEtxRollup : Block → list Transaction + error;
}.

(** The transaction pool and the stored etx set of a block. *)
Class PoolOps := {
  EtxSet : Type;
  ReadEtxSet : Hash → Z → option EtxSet;
  TxPoolPending : bool → EtxSet → gmap N (list Transaction) + error;
  Locals : list Address;
}.

(** consensus.Engine. *)
Class Engine `{StateOps} := {
  IsDomCoincident : Header → bool;
  FinalizeAndAssemble : Header → option StateDB → list Transaction → list Header →
                        list Transaction → list Hash → list Receipt → Block + error;
}.

(** ** float64

    IEEE 754 binary64, rounding to nearest even, as the resubmit ratio needs
    it: the conversion [float64(x)] of a uint64, the division, the
    comparisons and the constant 0.1 (the double nearest to it). *)
Definition float64 : Type := spec_float.
Definition float64_of_uint64 (z : Z) : float64 := binary_normalize 53 1024 z 0 false.
Definition float64_div (x y : float64) : float64 := SFdiv 53 1024 x y.
Definition float64_lt (x y : float64) : bool := SFltb x y.
Definition float64_le (x y : float64) : bool := SFleb x y.
Definition float64_0_1 : float64 := S754_finite false 7205759403792794 (-56).
Definition float64_NaN : float64 := S754_nan.

(** What [prepareWork], [makeEnv] and [totalFees] reach for outside
    core/worker.go: the state processor, the ancestors of a block, the
    entropy of a header, the header fields this development does not spell
    out, and the engine's preparation of a header (which returns the header
    it was handed by reference). *)
Class SealOps `{StateOps} `{TypesOps} := {
  GenesisHash : Hash;
  Root : Block → Hash;
  StateAt : Hash → StateDB + error;
  StateAtBlock : Block → Z → StateDB + error;
  StateDB_StartPrefetcher : StateDB → StateDB;
  MakeSigner : Z → Signer;
  GetBlocksFromHash : Hash → Z → list Block;
  CalcOrder : Header → Z + error;
  CalcDeltaS : Header → Z;
  CalcS : Header → Z;
  SetParentDeltaS : Header → Z → NodeCtx → Header;
  SetParentEntropy : Header → Z → Header;
  SetExtra : Header → list Z → Header;
  SetCoinbase : Header → Address → Header;
  CalcBaseFee : Header → Z;
  EnginePrepare : Header → Header → Header + error;
  EffectiveGasTip : Transaction → Z → Z;
}.

(** ** The worker *)

Section Worker.
Context {SO : StateOps} {TO : TypesOps} {TS : TxSetOps} {CO : ChainOps}
        {PO : PoolOps} {EN : Engine}.

(** *** environment *)

Record environment := mkEnvironment {
  signer : option Signer;
  state : option StateDB;
  ancestors : gset N;
  family : gset N;
  tcount : Z;
  gasPool : option Z;
  coinbase : Address;
  header : Header;
  txs : list Transaction;
  etxs : list Transaction;
  subManifest : list Hash;
  receipts : list Receipt;
  uncles : gmap N Header;
  externalGasUsed : Z;
  externalBlockLength : Z;
}.

Definition set_state (e : environment) (v : option StateDB) : environment :=
  mkEnvironment (signer e) v (ancestors e) (family e) (tcount e) (gasPool e)
    (coinbase e) (header e) (txs e) (etxs e) (subManifest e) (receipts e)
    (uncles e) (externalGasUsed e) (externalBlockLength e).
Definition set_tcount (e : environment) (v : Z) : environment :=
  mkEnvironment (signer e) (state e) (ancestors e) (family e) v (gasPool e)
    (coinbase e) (header e) (txs e) (etxs e) (subManifest e) (receipts e)
    (uncles e) (externalGasUsed e) (externalBlockLength e).
Definition set_gasPool (e : environment) (v : option Z) : environment :=
  mkEnvironment (signer e) (state e) (ancestors e) (family e) (tcount e) v
    (coinbase e) (header e) (txs e) (etxs e) (subManifest e) (receipts e)
    (uncles e) (externalGasUsed e) (externalBlockLength e).
Definition set_header (e : environment) (v : Header) : environment :=
  mkEnvironment (signer e) (state e) (ancestors e) (family e) (tcount e) (gasPool e)
    (coinbase e) v (txs e) (etxs e) (subManifest e) (receipts e)
    (uncles e) (externalGasUsed e) (externalBlockLength e).
Definition set_txs (e : environment) (v : list Transaction) : environment :=
  mkEnvironment (signer e) (state e) (ancestors e) (family e) (tcount e) (gasPool e)
    (coinbase e) (header e) v (etxs e) (subManifest e) (receipts e)
    (uncles e) (externalGasUsed e) (externalBlockLength e).
Definition set_etxs (e : environment) (v : list Transaction) : environment :=
  mkEnvironment (signer e) (state e) (ancestors e) (family e) (tcount e) (gasPool e)
    (coinbase e) (header e) (txs e) v (subManifest e) (receipts e)
    (uncles e) (externalGasUsed e) (externalBlockLength e).
Definition set_receipts (e : environment) (v : list Receipt) : environment :=
  mkEnvironment (signer e) (state e) (ancestors e) (family e) (tcount e) (gasPool e)
    (coinbase e) (header e) (txs e) (etxs e) (subManifest e) v
    (uncles e) (externalGasUsed e) (externalBlockLength e).
Definition set_uncles (e : environment) (v : gmap N Header) : environment :=
  mkEnvironment (signer e) (state e) (ancestors e) (family e) (tcount e) (gasPool e)
    (coinbase e) (header e) (txs e) (etxs e) (subManifest e) (receipts e)
    v (externalGasUsed e) (externalBlockLength e).

(** The header-only environment [&environment{header: header}] of the
    contexts that hold no state.  Its nil sets and nil map read as empty. *)
Definition headerOnlyEnvironment (h : Header) : environment :=
  mkEnvironment None None ∅ ∅ 0 None 0%N h [] [] [] [] ∅ 0 0.

(** [copyReceipts]: a copy of every receipt. *)
Definition copyReceipts (receipts : list Receipt) : list Receipt :=
  (λ l, mkReceipt (Status l) (receipt_GasUsed l) (Logs l) (Etxs l)) <$> receipts.

(** [env.copy()]. *)
Definition environment_copy (nodeCtx : NodeCtx) (env : environment)
    : go environment :=
  if decide (nodeCtx = ZONE_CTX) then
    st ←! deref (state env);
    Done (mkEnvironment (signer env) (Some (StateDB_Copy st)) (ancestors env)
            (family env) (tcount env) (gasPool env) (coinbase env) (header env)
            (txs env) (etxs env) [] (copyReceipts (receipts env))
            (uncles env) 0 0)
  else Done (headerOnlyEnvironment (header env)).

(** [env.unclelist()].  Go ranges over the map in no fixed order. *)
Definition unclelist (env : environment) : list Header :=
  (map_to_list (uncles env)).*2.

(** *** worker *)

Record intervalAdjust := mkIntervalAdjust {
  ratio : float64;
  inc : bool;
}.

(** The worker.  A feed is the sequence of values sent on it; the
    resubmit-adjust channel is its buffer, oldest message first. *)
Record worker := mkWorker {
  config_GasCeil : Z;
  config_Recommit : Z;
  current : option environment;
  localUncles : gmap N Block;
  remoteUncles : gmap N Block;
  worker_coinbase : Address;
  extra : list Z;
  workerDb : Database;
  pendingBlockBody : lru (option Body);
  snapshotBlock : option Block;
  snapshotReceipts : list Receipt;
  snapshotState : option StateDB;
  running : Z;
  newTxs : Z;
  noempty : Z;
  resubmitAdjustCh : list intervalAdjust;
  pendingLogsFeed : list (list Log);
}.

Definition set_config_GasCeil (w : worker) (v : Z) : worker :=
  mkWorker v (config_Recommit w) (current w) (localUncles w) (remoteUncles w)
    (worker_coinbase w) (extra w) (workerDb w) (pendingBlockBody w) (snapshotBlock w)
    (snapshotReceipts w) (snapshotState w) (running w) (newTxs w) (noempty w)
    (resubmitAdjustCh w) (pendingLogsFeed w).
Definition set_current (w : worker) (v : option environment) : worker :=
  mkWorker (config_GasCeil w) (config_Recommit w) v (localUncles w) (remoteUncles w)
    (worker_coinbase w) (extra w) (workerDb w) (pendingBlockBody w) (snapshotBlock w)
    (snapshotReceipts w) (snapshotState w) (running w) (newTxs w) (noempty w)
    (resubmitAdjustCh w) (pendingLogsFeed w).
Definition set_localUncles (w : worker) (v : gmap N Block) : worker :=
  mkWorker (config_GasCeil w) (config_Recommit w) (current w) v (remoteUncles w)
    (worker_coinbase w) (extra w) (workerDb w) (pendingBlockBody w) (snapshotBlock w)
    (snapshotReceipts w) (snapshotState w) (running w) (newTxs w) (noempty w)
    (resubmitAdjustCh w) (pendingLogsFeed w).
Definition set_remoteUncles (w : worker) (v : gmap N Block) : worker :=
  mkWorker (config_GasCeil w) (config_Recommit w) (current w) (localUncles w) v
    (worker_coinbase w) (extra w) (workerDb w) (pendingBlockBody w) (snapshotBlock w)
    (snapshotReceipts w) (snapshotState w) (running w) (newTxs w) (noempty w)
    (resubmitAdjustCh w) (pendingLogsFeed w).
Definition set_worker_coinbase (w : worker) (v : Address) : worker :=
  mkWorker (config_GasCeil w) (config_Recommit w) (current w) (localUncles w)
    (remoteUncles w) v (extra w) (workerDb w) (pendingBlockBody w) (snapshotBlock w)
    (snapshotReceipts w) (snapshotState w) (running w) (newTxs w) (noempty w)
    (resubmitAdjustCh w) (pendingLogsFeed w).
Definition set_extra (w : worker) (v : list Z) : worker :=
  mkWorker (config_GasCeil w) (config_Recommit w) (current w) (localUncles w)
    (remoteUncles w) (worker_coinbase w) v (workerDb w) (pendingBlockBody w)
    (snapshotBlock w) (snapshotReceipts w) (snapshotState w) (running w) (newTxs w)
    (noempty w) (resubmitAdjustCh w) (pendingLogsFeed w).
Definition set_workerDb (w : worker) (v : Database) : worker :=
  mkWorker (config_GasCeil w) (config_Recommit w) (current w) (localUncles w)
    (remoteUncles w) (worker_coinbase w) (extra w) v (pendingBlockBody w)
    (snapshotBlock w) (snapshotReceipts w) (snapshotState w) (running w) (newTxs w)
    (noempty w) (resubmitAdjustCh w) (pendingLogsFeed w).
Definition set_pendingBlockBody (w : worker) (v : lru (option Body)) : worker :=
  mkWorker (config_GasCeil w) (config_Recommit w) (current w) (localUncles w)
    (remoteUncles w) (worker_coinbase w) (extra w) (workerDb w) v
    (snapshotBlock w) (snapshotReceipts w) (snapshotState w) (running w) (newTxs w)
    (noempty w) (resubmitAdjustCh w) (pendingLogsFeed w).
Definition set_snapshotBlock (w : worker) (v : option Block) : worker :=
  mkWorker (config_GasCeil w) (config_Recommit w) (current w) (localUncles w)
    (remoteUncles w) (worker_coinbase w) (extra w) (workerDb w) (pendingBlockBody w)
    v (snapshotReceipts w) (snapshotState w) (running w) (newTxs w)
    (noempty w) (resubmitAdjustCh w) (pendingLogsFeed w).
Definition set_snapshotReceipts (w : worker) (v : list Receipt) : worker :=
  mkWorker (config_GasCeil w) (config_Recommit w) (current w) (localUncles w)
    (remoteUncles w) (worker_coinbase w) (extra w) (workerDb w) (pendingBlockBody w)
    (snapshotBlock w) v (snapshotState w) (running w) (newTxs w)
    (noempty w) (resubmitAdjustCh w) (pendingLogsFeed w).
Definition set_snapshotState (w : worker) (v : option StateDB) : worker :=
  mkWorker (config_GasCeil w) (config_Recommit w) (current w) (localUncles w)
    (remoteUncles w) (worker_coinbase w) (extra w) (workerDb w) (pendingBlockBody w)
    (snapshotBlock w) (snapshotReceipts w) v (running w) (newTxs w)
    (noempty w) (resubmitAdjustCh w) (pendingLogsFeed w).
Definition set_running (w : worker) (v : Z) : worker :=
  mkWorker (config_GasCeil w) (config_Recommit w) (current w) (localUncles w)
    (remoteUncles w) (worker_coinbase w) (extra w) (workerDb w) (pendingBlockBody w)
    (snapshotBlock w) (snapshotReceipts w) (snapshotState w) v (newTxs w)
    (noempty w) (resubmitAdjustCh w) (pendingLogsFeed w).
Definition set_newTxs (w : worker) (v : Z) : worker :=
  mkWorker (config_GasCeil w) (config_Recommit w) (current w) (localUncles w)
    (remoteUncles w) (worker_coinbase w) (extra w) (workerDb w) (pendingBlockBody w)
    (snapshotBlock w) (snapshotReceipts w) (snapshotState w) (running w) v
    (noempty w) (resubmitAdjustCh w) (pendingLogsFeed w).
Definition set_noempty (w : worker) (v : Z) : worker :=
  mkWorker (config_GasCeil w) (config_Recommit w) (current w) (localUncles w)
    (remoteUncles w) (worker_coinbase w) (extra w) (workerDb w) (pendingBlockBody w)
    (snapshotBlock w) (snapshotReceipts w) (snapshotState w) (running w) (newTxs w)
    v (resubmitAdjustCh w) (pendingLogsFeed w).
Definition set_resubmitAdjustCh (w : worker) (v : list intervalAdjust) : worker :=
  mkWorker (config_GasCeil w) (config_Recommit w) (current w) (localUncles w)
    (remoteUncles w) (worker_coinbase w) (extra w) (workerDb w) (pendingBlockBody w)
    (snapshotBlock w) (snapshotReceipts w) (snapshotState w) (running w) (newTxs w)
    (noempty w) v (pendingLogsFeed w).
Definition set_pendingLogsFeed (w : worker) (v : list (list Log)) : worker :=
  mkWorker (config_GasCeil w) (config_Recommit w) (current w) (localUncles w)
    (remoteUncles w) (worker_coinbase w) (extra w) (workerDb w) (pendingBlockBody w)
    (snapshotBlock w) (snapshotReceipts w) (snapshotState w) (running w) (newTxs w)
    (noempty w) (resubmitAdjustCh w) v.

(** [newWorker]: the fields the constructor fills in; the rest are zero. *)
Definition newWorker (config_Etherbase : Address) (gasCeil recommit : Z)
    (db : Database) : worker :=
  mkWorker gasCeil recommit None ∅ ∅ config_Etherbase [] db
    (lru_New pendingBlockBodyLimit) None [] None 0 0 0 [] [].

(** *** Setters and status flags *)

Definition setEtherbase (w : worker) (addr : Address) : worker :=
  set_worker_coinbase w addr.
Definition setGasCeil (w : worker) (ceil : Z) : worker :=
  set_config_GasCeil w ceil.
Definition setExtra (w : worker) (extra : list Z) : worker :=
  set_extra w extra.
Definition disablePreseal (w : worker) : worker := set_noempty w 1.
Definition enablePreseal (w : worker) : worker := set_noempty w 0.
Definition start (w : worker) : worker := set_running w 1.
Definition stop (w : worker) : worker := set_running w 0.
Definition isRunning (w : worker) : bool := bool_decide (running w = 1).

(** *** The snapshot and its readers *)

Definition pending (w : worker) : option Block * option StateDB :=
  match snapshotState w with
  | None => (None, None)
  | Some st => (snapshotBlock w, Some (StateDB_Copy st))
  end.

Definition pendingBlock (w : worker) : option Block := snapshotBlock w.

Definition pendingBlockAndReceipts (w : worker) : option Block * list Receipt :=
  (snapshotBlock w, snapshotReceipts w).

Definition updateSnapshot (nodeCtx : NodeCtx) (w : worker) (env : environment)
    : go worker :=
  let w := set_snapshotBlock w
             (Some (NewBlock (header env) (txs env) (unclelist env) (etxs env)
                      (subManifest env) (receipts env))) in
  if decide (nodeCtx = ZONE_CTX) then
    let w := set_snapshotReceipts w (copyReceipts (receipts env)) in
    st ←! deref (state env);
    Done (set_snapshotState w (Some (StateDB_Copy st)))
  else Done w.

(** *** The pending-body cache *)

Definition getPendingBlockBodyKey (header : Header) : Hash :=
  RlpHash [UncleHash header; TxHash header; EtxHash header].

Definition AddPendingBlockBody (w : worker) (header : Header) (body : option Body)
    : worker :=
  set_pendingBlockBody w
    (lru_ContainsOrAdd (pendingBlockBody w) (getPendingBlockBodyKey header) body).1.

Definition GetPendingBlockBody (w : worker) (header : Header)
    : worker * option Body :=
  let key := getPendingBlockBodyKey header in
  let '(cache, found) := lru_Get (pendingBlockBody w) key in
  (set_pendingBlockBody w cache,
   match found with
   | Some body => body
   | None => None
   end).

(** One round of the loop of [StorePendingBlockBody]. *)
Definition StorePendingBlockBody_step (cache : lru (option Body))
    (acc : Database * list Hash) (key : Hash) : Database * list Hash :=
  match lru_Peek cache key with
  | Some value =>
      (if decide (key ≠ EmptyBodyHash) then WritePbCacheBody acc.1 key value else acc.1,
       acc.2 ++ [key])
  | None => acc
  end.

Definition StorePendingBlockBody (w : worker) : worker :=
  let pendingBlockBody := pendingBlockBody w in
  let '(db, pendingBlockBodyKeys) :=
    foldl (StorePendingBlockBody_step pendingBlockBody) (workerDb w, [])
          (lru_Keys pendingBlockBody) in
  set_workerDb w (WritePbBodyKeys db pendingBlockBodyKeys).

(** One round of the loop of [LoadPendingBlockBody]. *)
Definition LoadPendingBlockBody_step (acc : lru (option Body) * Database)
    (key : Hash) : lru (option Body) * Database :=
  let value :=
    if decide (key = EmptyBodyHash) then Some emptyBody
    else ReadPbCacheBody acc.2 key in
  ((lru_Add acc.1 key value).1, DeletePbCacheBody acc.2 key).

Definition LoadPendingBlockBody (w : worker) : worker :=
  let pendingBlockBodykeys := ReadPbBodyKeys (workerDb w) in
  let '(cache, db) :=
    foldl LoadPendingBlockBody_step (pendingBlockBody w, workerDb w)
          pendingBlockBodykeys in
  set_workerDb (set_pendingBlockBody w cache) db.

(** *** Uncles *)

Definition commitUncle (env : environment) (uncle : Header)
    : environment * option error :=
  let hash := HeaderHash uncle in
  if decide (is_Some (uncles env !! hash)) then
    (env, Some (errors_New "uncle not unique"))
  else if decide (ParentHash (header env) = ParentHash uncle) then
    (env, Some (errors_New "uncle is sibling"))
  else if decide (ParentHash uncle ∉ ancestors env) then
    (env, Some (errors_New "uncle's parent unknown"))
  else if decide (hash ∈ family env) then
    (env, Some (errors_New "uncle already included"))
  else (set_uncles env (<[hash := uncle]> (uncles env)), None).

(** The closure [commitUncles] of [prepareWork], over the candidate blocks in
    the order the range visits them. *)
Fixpoint commitUncles (env : environment) (blocks : list (Hash * Block))
    : environment :=
  match blocks with
  | [] => env
  | (hash, uncle) :: rest =>
      if decide (size (uncles env) = 2%nat) then env
      else commitUncles (commitUncle env (block_header uncle)).1 rest
  end.

(** *** Gas limit *)

Definition adjustGasLimit (env : environment) (parent : Block) : go environment :=
  let divisor := uint64_of_int (wrap_int (externalBlockLength env + 1)) in
  if decide (divisor = 0) then Panic divide_by_zero
  else
    let gasUsed :=
      wrap64 (GasUsed (block_header parent) + externalGasUsed env) `div` divisor in
    Done (set_header env
            (SetGasLimit (header env)
               (CalcGasLimit (GasLimit (block_header parent)) gasUsed))).

(** *** Transactions *)

Definition commitTransaction (env : environment) (tx : option Transaction)
    : go (environment * (list Log * option error)) :=
  match tx with
  | Some tx =>
      st ←! deref (state env);
      let '(snap, st) := StateDB_Snapshot st in
      let gasUsed := GasUsed (header env) in
      let applied :=
        ApplyTransaction (coinbase env) (gasPool env) st (header env) tx gasUsed in
      let env := set_gasPool env ((λ _, ar_gasPool applied) <$> gasPool env) in
      match ar_result applied with
      | inr err =>
          Done (set_state env (Some (StateDB_RevertToSnapshot (ar_state applied) snap)),
                ([], Some err))
      | inl receipt =>
          let env := set_state env (Some (ar_state applied)) in
          let env := set_header env (SetGasUsed (header env) (ar_gasUsed applied)) in
          let env := set_txs env (txs env ++ [tx]) in
          let env := set_receipts env (receipts env ++ [receipt]) in
          let env :=
            if decide (Status receipt = ReceiptStatusSuccessful)
            then set_etxs env (etxs env ++ Etxs receipt)
            else env in
          Done (env, (Logs receipt, None))
      end
  | None => Done (env, ([], Some (errors_New "error finding transaction")))
  end.

(** What the inclusion loop carries from one round to the next; [ls_iter]
    is the index of the next load of the interrupt word. *)
Record loop_state := mkLoopState {
  ls_worker : worker;
  ls_env : environment;
  ls_txs : TransactionsByPriceAndNonce;
  ls_coalescedLogs : list Log;
  ls_iter : nat;
}.

Inductive iteration :=
| Return (s : loop_state) (result : bool)
| Break (s : loop_state)
| Continue (s : loop_state).

(** The message sent when the loop is interrupted for a resubmit. *)
Definition resubmitAdjust (gasLimit gas : Z) : intervalAdjust :=
  let ratio :=
    float64_div (float64_of_uint64 (wrap64 (gasLimit - gas)))
                (float64_of_uint64 gasLimit) in
  let ratio := if float64_lt ratio float64_0_1 then float64_0_1 else ratio in
  mkIntervalAdjust ratio true.

(** A send on the resubmit-adjust channel, which [newWorker] makes with a
    buffer of [resubmitAdjustChanSize] messages.  The send is a bare
    [ch <- v]: it blocks while the buffer is full, and nothing in
    core/worker.go receives from the channel, so a blocked send does not
    return. *)
Definition resubmitAdjustCh_send (w : worker) (msg : intervalAdjust) : go worker :=
  if decide (length (resubmitAdjustCh w) < resubmitAdjustChanSize)%nat
  then Done (set_resubmitAdjustCh w (resubmitAdjustCh w ++ [msg]))
  else Diverge.

(** The test of the interrupt word at the top of a round.  [interrupt] is
    nil, or the values that the three loads of the word return, in their
    order: the load that is compared with [commitInterruptNone], the load
    that is compared with [commitInterruptResubmit] and the load whose
    comparison with [commitInterruptNewHead] is returned.  The word is
    shared, so the three need not agree.  The second and the third load
    take place only when the first did not read clear. *)
Definition commitTransactions_interrupt (interrupt : option (Z * Z * Z))
    (s : loop_state) : go iteration :=
  let w := ls_worker s in
  let env := ls_env s in
  match interrupt with
  | Some (first, second, third) =>
      if decide (first ≠ commitInterruptNone) then
        w ←! (if decide (second = commitInterruptResubmit) then
                gp ←! deref (gasPool env);
                resubmitAdjustCh_send w (resubmitAdjust (GasLimit (header env)) gp)
              else Done w);
        Done (Return (mkLoopState w env (ls_txs s) (ls_coalescedLogs s)
                        (S (S (ls_iter s))))
                     (bool_decide (third = commitInterruptNewHead)))
      else Done (Continue s)
  | None => Done (Continue s)
  end.

(** The rest of a round, once the interrupt word has been found clear. *)
Definition commitTransactions_attempt (s : loop_state) : go iteration :=
  let w := ls_worker s in
  let env := ls_env s in
  let txset := ls_txs s in
  let coalescedLogs := ls_coalescedLogs s in
  let next env txset logs := mkLoopState w env txset logs (ls_iter s) in
  gp ←! deref (gasPool env);
  if decide (gp < TxGas) then Done (Break s)
  else
    match Peek txset with
    | None => Done (Break s)
    | Some tx =>
        sg ←! deref (signer env);
        let from := Sender sg tx in
        st ←! deref (state env);
        let env := set_state env (Some (StateDB_Prepare st (tx_hash tx) (tcount env))) in
        r ←! commitTransaction env (Some tx);
        let '(env, (logs, err)) := r in
        if errors_Is err (Some ErrGasLimitReached) then
          Done (Continue (next env (Pop txset) coalescedLogs))
        else if errors_Is err (Some ErrNonceTooLow) then
          Done (Continue (next env (Shift txset from false) coalescedLogs))
        else if errors_Is err (Some ErrNonceTooHigh) then
          Done (Continue (next env (Pop txset) coalescedLogs))
        else if errors_Is err None then
          Done (Continue (next (set_tcount env (wrap_int (tcount env + 1)))
                               (Shift txset from false) (coalescedLogs ++ logs)))
        else if errors_Is err (Some ErrTxTypeNotSupported) then
          Done (Continue (next env (Pop txset) coalescedLogs))
        else
          Done (Continue (next env (Shift txset from false) coalescedLogs))
    end.

(** One round of the loop of [commitTransactions]: the test of the interrupt
    word, then the attempt at the next transaction.  The interrupt word is
    the sequence of values that its loads return, and [ls_iter] is the index
    of the next load: a round that goes on takes one load, a round that
    returns takes three. *)
Definition commitTransactions_iteration (interrupt : option (nat → Z))
    (s : loop_state) : go iteration :=
  let loads :=
    (λ f, (f (ls_iter s), f (S (ls_iter s)), f (S (S (ls_iter s))))) <$> interrupt in
  let s := mkLoopState (ls_worker s) (ls_env s) (ls_txs s) (ls_coalescedLogs s)
                       (S (ls_iter s)) in
  r ←! commitTransactions_interrupt loads s;
  match r with
  | Continue s => commitTransactions_attempt s
  | r => Done r
  end.

Fixpoint commitTransactions_loop (fuel : nat) (interrupt : option (nat → Z))
    (s : loop_state) : go (loop_state * option bool) :=
  match fuel with
  | O => Diverge
  | S fuel =>
      r ←! commitTransactions_iteration interrupt s;
      match r with
      | Return s result => Done (s, Some result)
      | Break s => Done (s, None)
      | Continue s => commitTransactions_loop fuel interrupt s
      end
  end.

(** The copy of the logs that is sent to the pending-logs feed. *)
Definition copyLogs (logs : list Log) : list Log :=
  (λ l, mkLog (log_address l) (log_data l)) <$> logs.

(** [commitTransactions], started at round [iter] of the interrupt word.  The
    loop state at the exit is returned with the result. *)
Definition commitTransactions_from (iter : nat) (w : worker) (env : environment)
    (txset : TransactionsByPriceAndNonce) (interrupt : option (nat → Z))
    : go (loop_state * bool) :=
  let env :=
    match gasPool env with
    | None => set_gasPool env (Some (GasLimit (header env)))
    | Some _ => env
    end in
  r ←! commitTransactions_loop (S (txset_len txset)) interrupt
         (mkLoopState w env txset [] iter);
  match r with
  | (s, Some result) => Done (s, result)
  | (s, None) =>
      let w := ls_worker s in
      let w :=
        if negb (isRunning w) && bool_decide (0 < length (ls_coalescedLogs s))%nat
        then set_pendingLogsFeed w (pendingLogsFeed w ++ [copyLogs (ls_coalescedLogs s)])
        else w in
      Done (mkLoopState w (ls_env s) (ls_txs s) (ls_coalescedLogs s) (ls_iter s), false)
  end.

Definition commitTransactions (w : worker) (env : environment)
    (txset : TransactionsByPriceAndNonce) (interrupt : option (nat → Z))
    : go (loop_state * bool) :=
  commitTransactions_from 0 w env txset interrupt.

(** [fillTransactions]. *)
Definition fillTransactions_split (locals : list Address)
    (pending : gmap N (list Transaction))
    : gmap N (list Transaction) * gmap N (list Transaction) :=
  foldl (λ '(localTxs, remoteTxs) account,
           match remoteTxs !! account with
           | Some txs =>
               if decide (0 < length txs)%nat
               then (<[account := txs]> localTxs, delete account remoteTxs)
               else (localTxs, remoteTxs)
           | None => (localTxs, remoteTxs)
           end)
        (∅, pending) locals.

Definition fillTransactions (w : worker) (interrupt : option (nat → Z))
    (env : environment) (block : Block) : go (worker * environment) :=
  match ReadEtxSet (HeaderHash (block_header block)) (NumberU64 block) with
  | None => Done (w, env)
  | Some etxSet =>
      match TxPoolPending true etxSet with
      | inr _ => Done (w, env)
      | inl pending =>
          let '(localTxs, remoteTxs) := fillTransactions_split Locals pending in
          r ←! (if decide (0 < size localTxs)%nat then
                  let txset :=
                    NewTransactionsByPriceAndNonce (signer env) localTxs
                      (BaseFee (header env)) false in
                  r ←! commitTransactions_from 0 w env txset interrupt;
                  Done (ls_worker r.1, ls_env r.1, ls_iter r.1, r.2)
                else Done (w, env, O, false));
          let '(w, env, iter, interrupted) := r in
          if interrupted then Done (w, env)
          else if decide (0 < size remoteTxs)%nat then
            let txset :=
              NewTransactionsByPriceAndNonce (signer env) remoteTxs
                (BaseFee (header env)) false in
            r ←! commitTransactions_from iter w env txset interrupt;
            Done (ls_worker r.1, ls_env r.1)
          else Done (w, env)
      end
  end.

(** *** Finalize, assemble, broadcast *)

Definition FinalizeAssembleAndBroadcast (nodeCtx : NodeCtx) (w : worker)
    (header : Header) (parent : Block) (state : option StateDB)
    (txs : list Transaction) (uncles : list Header) (etxs : list Transaction)
    (subManifest : list Hash) (receipts : list Receipt)
    : worker * (Block + error) :=
  match FinalizeAndAssemble header state txs uncles etxs subManifest receipts with
  | inr err => (w, inr err)
  | inl block =>
      let manifest : list Hash + error :=
        if decide (nodeCtx = PRIME_CTX) then inl []
        else if IsDomCoincident (block_header parent) then
          inl [HeaderHash (block_header parent)]
        else
          match CollectBlockManifest (block_header parent) with
          | inr err => inr err
          | inl manifest => inl (manifest ++ [ParentHash header])
          end in
      match manifest with
      | inr err => (w, inr err)
      | inl manifest =>
          let manifestHash := DeriveSha (BlockManifest manifest) in
          let block :=
            block_set_header block (SetManifestHash (block_header block) manifestHash) in
          let rolled : Block + error :=
            if decide (nodeCtx = ZONE_CTX) then
              let etxRollup : list Transaction + error :=
                if IsDomCoincident (block_header parent) then
                  inl (ExtTransactions parent)
                else
                  match CollectEtxRollup parent with
                  | inr err => inr err
                  | inl etxRollup => inl (etxRollup ++ ExtTransactions parent)
                  end in
              match etxRollup with
              | inr err => inr err
              | inl etxRollup =>
                  let etxRollupHash := DeriveSha (Transactions etxRollup) in
                  inl (block_set_header block
                         (SetEtxRollupHash (block_header block) etxRollupHash))
              end
            else inl block in
          match rolled with
          | inr err => (w, inr err)
          | inl block =>
              (AddPendingBlockBody w (block_header block) (Some (block_body block)),
               inl block)
          end
      end
  end.

(** *** The two arms of the main loop *)

(** The sweep of one uncle pool on a tick of the clean ticker. *)
Definition sweepUncles (chainHead : Block) (pool : gmap N Block) : gmap N Block :=
  map_fold (λ hash uncle acc,
              if decide (wrap64 (NumberU64 uncle + staleThreshold) ≤ NumberU64 chainHead)
              then delete hash acc else acc)
           pool pool.

Definition mainLoop_cleanTicker (w : worker) (chainHead : Block) : worker :=
  let w := set_localUncles w (sweepUncles chainHead (localUncles w)) in
  set_remoteUncles w (sweepUncles chainHead (remoteUncles w)).

Fixpoint bucketBySender (sg : option Signer) (evTxs : list Transaction)
    (txs : gmap N (list Transaction)) : go (gmap N (list Transaction)) :=
  match evTxs with
  | [] => Done txs
  | tx :: rest =>
      s ←! deref sg;
      let acc := Sender s tx in
      bucketBySender sg rest (<[acc := default [] (txs !! acc) ++ [tx]]> txs)
  end.

Definition addNewTxs (w : worker) (evTxs : list Transaction) : worker :=
  set_newTxs w (wrap32 (newTxs w + wrap32 (Z.of_nat (length evTxs)))).

Definition mainLoop_txsCh (nodeCtx : NodeCtx) (w : worker)
    (evTxs : list Transaction) : go worker :=
  match (if negb (isRunning w) then current w else None) with
  | Some cur =>
      if (match gasPool cur with
          | Some gp => bool_decide (gp < TxGas)
          | None => false
          end)
      then Done w
      else
        txs ←! bucketBySender (signer cur) evTxs ∅;
        let txset :=
          NewTransactionsByPriceAndNonce (signer cur) txs (BaseFee (header cur)) false in
        let tcount0 := tcount cur in
        r ←! commitTransactions w cur txset None;
        let cur := ls_env r.1 in
        let w := set_current (ls_worker r.1) (Some cur) in
        w ←! (if decide (tcount0 ≠ tcount cur) then updateSnapshot nodeCtx w cur
              else Done w);
        Done (addNewTxs w evTxs)
  | None => Done (addNewTxs w evTxs)
  end.

(** *** Preparing the sealing work *)

Context {SL : SealOps}.

Definition set_ancestors (e : environment) (v : gset N) : environment :=
  mkEnvironment (signer e) (state e) v (family e) (tcount e) (gasPool e)
    (coinbase e) (header e) (txs e) (etxs e) (subManifest e) (receipts e)
    (uncles e) (externalGasUsed e) (externalBlockLength e).
Definition set_family (e : environment) (v : gset N) : environment :=
  mkEnvironment (signer e) (state e) (ancestors e) v (tcount e) (gasPool e)
    (coinbase e) (header e) (txs e) (etxs e) (subManifest e) (receipts e)
    (uncles e) (externalGasUsed e) (externalBlockLength e).

(** The body of the loop of [makeEnv] over the ancestors. *)
Definition makeEnv_ancestor (env : environment) (ancestor : Block) : environment :=
  let env :=
    foldl (λ env uncle, set_family env ({[HeaderHash uncle]} ∪ family env))
          env (body_Uncles (block_body ancestor)) in
  let env := set_family env ({[HeaderHash (block_header ancestor)]} ∪ family env) in
  set_ancestors env ({[HeaderHash (block_header ancestor)]} ∪ ancestors env).

(** [makeEnv].  The state is the parent's, or the one recovered by
    re-execution when the parent's is not at hand. *)
Definition makeEnv (parent : Block) (header : Header) (coinbase : Address)
    : environment + error :=
  let found : StateDB + error :=
    match StateAt (Root parent) with
    | inl st => inl st
    | inr _ => StateAtBlock parent 1024
    end in
  match found with
  | inr err => inr err
  | inl st =>
      let st := StateDB_StartPrefetcher st in
      let env :=
        mkEnvironment (Some (MakeSigner (Number header))) (Some st) ∅ ∅ 0 None
          coinbase header [] [] [] [] ∅ 0 0 in
      let env :=
        foldl makeEnv_ancestor env
              (GetBlocksFromHash (HeaderHash (block_header parent)) 7) in
      inl (set_tcount env 0)
  end.

Record generateParams := mkGenerateParams {
  gp_timestamp : Z;
  gp_forceTime : bool;
  gp_coinbase : Address;
}.

(** [prepareWork].  The two pools of possible uncles are ranged over in the
    order of [map_to_list]; Go fixes no order.  The numbers that
    [fmt.Errorf] prints into the timestamp error are left out of it. *)
Definition prepareWork (nodeCtx : NodeCtx) (w : worker) (genParams : generateParams)
    (block : Block) : environment + error :=
  let parent := block in
  let timestamp := gp_timestamp genParams in
  let stamped : Z + error :=
    if decide (timestamp ≤ Time (block_header parent)) then
      if gp_forceTime genParams then inr (errors_New "invalid timestamp")
      else inl (wrap64 (Time (block_header parent) + 1))
    else inl timestamp in
  match stamped with
  | inr err => inr err
  | inl timestamp =>
      let num := NumberU64 parent in
      let header := EmptyHeader in
      let header := SetParentHash header (HeaderHash (block_header block)) in
      let header := SetNumber header (wrap_int (wrap_int num + 1)) in
      let header := SetTime header timestamp in
      let withEntropy : Header + error :=
        if decide (HeaderHash (block_header parent) ≠ GenesisHash) then
          match CalcOrder (block_header parent) with
          | inr err => inr err
          | inl order =>
              let header :=
                if decide (nodeCtx ≠ PRIME_CTX) then
                  if decide (order < NodeCtx_int nodeCtx)
                  then SetParentDeltaS header 0 nodeCtx
                  else SetParentDeltaS header (CalcDeltaS (block_header parent)) nodeCtx
                else header in
              inl (SetParentEntropy header (CalcS (block_header parent)))
          end
        else inl header in
      match withEntropy with
      | inr err => inr err
      | inl header =>
          if decide (nodeCtx = ZONE_CTX) then
            let header := SetExtra header (extra w) in
            let header := SetBaseFee header (CalcBaseFee (block_header parent)) in
            let withCoinbase : Header + error :=
              if isRunning w then
                if decide (worker_coinbase w = ZeroAddr)
                then inr (errors_New "refusing to mine without etherbase")
                else inl (SetCoinbase header (worker_coinbase w))
              else inl header in
            match withCoinbase with
            | inr err => inr err
            | inl header =>
                match EnginePrepare header (block_header block) with
                | inr err => inr err
                | inl header =>
                    match makeEnv parent header (worker_coinbase w) with
                    | inr err => inr err
                    | inl env =>
                        let env := commitUncles env (map_to_list (localUncles w)) in
                        let env := commitUncles env (map_to_list (remoteUncles w)) in
                        inl env
                    end
                end
            end
          else inl (headerOnlyEnvironment header)
      end
  end.

(** [totalFees], in wei: the gas used of the i-th receipt times the miner
    tip of the i-th transaction of the block, summed.  The conversion of the
    sum to ether, a [big.Float] that is only logged, is left out. *)
Fixpoint totalFees_wei (txs : list Transaction) (receipts : list Receipt)
    (baseFee : Z) : go Z :=
  match txs with
  | [] => Done 0
  | tx :: txs =>
      match receipts with
      | [] => Panic index_out_of_range
      | receipt :: receipts =>
          let minerFee := EffectiveGasTip tx baseFee in
          feesWei ←! totalFees_wei txs receipts baseFee;
          Done (receipt_GasUsed receipt * minerFee + feesWei)
      end
  end.

Definition totalFees (block : Block) (receipts : list Receipt) : go Z :=
  totalFees_wei (body_Transactions (block_body block)) receipts
                (BaseFee (block_header block)).

(** [GeneratePendingHeader], with the reading [now] of the clock.  The
    interrupt word is a fresh one that nobody else holds, so it reads clear
    at every poll.  The timer and the log lines do nothing that shows, but
    for the fees that the log line computes.  [discard] stops the prefetcher
    of the state of the environment that is dropped. *)
Definition GeneratePendingHeader (nodeCtx : NodeCtx) (w : worker) (now : Z)
    (block : Block) (fill : bool) : go (worker * (Header + error)) :=
  let interrupt : option (nat → Z) := Some (λ _, commitInterruptNone) in
  let timestamp := now in
  let w := set_newTxs w 0 in
  if decide (worker_coinbase w = ZeroAddr) then
    Done (w, inr (errors_New "etherbase not found"))
  else
    let coinbase := worker_coinbase w in
    match prepareWork nodeCtx w (mkGenerateParams (wrap64 timestamp) false coinbase)
                      block with
    | inr err => Done (w, inr err)
    | inl work =>
        r ←! (if decide (nodeCtx = ZONE_CTX) then
                work ←! adjustGasLimit work block;
                if fill then fillTransactions w interrupt work block
                else Done (w, work)
              else Done (w, work));
        let '(w, work) := r in
        env ←! environment_copy nodeCtx work;
        let w := set_current w (Some work) in
        let '(w, assembled) :=
          FinalizeAssembleAndBroadcast nodeCtx w (header env) block (state env)
            (txs env) (unclelist env) (etxs env) (subManifest env) (receipts env) in
        match assembled with
        | inr err => Done (w, inr err)
        | inl block =>
            let env := set_header env (block_header block) in
            _ ←! totalFees block (receipts env);
            w ←! updateSnapshot nodeCtx w env;
            snapshot ←! deref (snapshotBlock w);
            Done (w, inl (block_header snapshot))
        end
    end.

(** *** Vocabulary of the statements below *)

(** What the inclusion loop leaves alone in an environment: everything but
    the state, the gas pool, the transaction, etx and receipt lists, [tcount]
    and the header's gas used. *)
Definition env_frame (env env' : environment) : Prop :=
  signer env' = signer env ∧ ancestors env' = ancestors env ∧
  family env' = family env ∧ coinbase env' = coinbase env ∧
  subManifest env' = subManifest env ∧ uncles env' = uncles env ∧
  externalGasUsed env' = externalGasUsed env ∧
  externalBlockLength env' = externalBlockLength env ∧
  SetGasUsed (header env') 0 = SetGasUsed (header env) 0.

(** The uncle map obeys the admission rules: every uncle is filed under its
    hash, forks off an ancestor, is no sibling of the block being built and
    is not in the family. *)
Definition uncles_valid (env : environment) : Prop :=
  ∀ hash uncle, uncles env !! hash = Some uncle →
    hash = HeaderHash uncle ∧ ParentHash uncle ∈ ancestors env ∧
    ParentHash uncle ≠ ParentHash (header env) ∧ hash ∉ family env.

(** The pending transactions of an account that count for the split in local
    and remote: none when the account has no list or an empty one. *)
Definition pending_of (pending : gmap N (list Transaction)) (account : Address)
    : option (list Transaction) :=
  match pending !! account with
  | Some txs => if decide (0 < length txs)%nat then Some txs else None
  | None => None
  end.

(** The body a key is loaded with: the empty body under the empty-body
    fingerprint, the stored one under any other key. *)
Definition rehydrate (key : Hash) (body : option Body) : option Body :=
  if decide (key = EmptyBodyHash) then Some emptyBody else body.

(** What the inclusion loop leaves alone in the worker: everything but the
    resubmit channel and the pending-logs feed. *)
Definition worker_frame (w w' : worker) : Prop :=
  w' = set_pendingLogsFeed (set_resubmitAdjustCh w (resubmitAdjustCh w'))
         (pendingLogsFeed w').

(** What a round needs to run without a nil dereference, and keeps. *)
Definition loop_ready (s : loop_state) : Prop :=
  is_Some (state (ls_env s)) ∧ is_Some (signer (ls_env s)) ∧
  is_Some (gasPool (ls_env s)).

(** The value of the interrupt word at a load; a nil pointer reads as clear. *)
Definition interrupt_word (interrupt : option (nat → Z)) (poll : nat) : Z :=
  match interrupt with
  | Some f => f poll
  | None => commitInterruptNone
  end.

(** No load of the interrupt word reads Resubmit. *)
Definition never_resubmit (interrupt : option (nat → Z)) : Prop :=
  ∀ load, interrupt_word interrupt load ≠ commitInterruptResubmit.

(** A run of the inclusion loop is not held up by the resubmit-adjust
    channel: the channel has room for a message, or no load of the interrupt
    word reads Resubmit, so that nothing is sent. *)
Definition send_returns (interrupt : option (nat → Z)) (w : worker) : Prop :=
  (length (resubmitAdjustCh w) < resubmitAdjustChanSize)%nat ∨
  never_resubmit interrupt.

(** The event is dropped when the worker is idle, has a current environment
    and that environment's gas pool is below [TxGas]. *)
Definition txsCh_dropped (w : worker) : bool :=
  negb (isRunning w) &&
  match current w with
  | Some cur =>
      match gasPool cur with
      | Some gp => bool_decide (gp < TxGas)
      | None => false
      end
  | None => false
  end.
End Worker.

(** ** A sample instance of the collaborators

    A small executable instance of every interface above, on which the
    model can be run on concrete inputs. *)

Module Sample.

(** A state with a journal of saved contents. *)
Record journal := mkState {
  st_data : Z;
  st_journal : list Z;
}.

#[export] Instance stateOps : StateOps := {|
  StateDB := journal;
  StateDB_Copy st := st;
  StateDB_Snapshot st :=
    (Z.of_nat (length (st_journal st)), mkState (st_data st) (st_journal st ++ [st_data st]));
  StateDB_RevertToSnapshot st id :=
    mkState (default (st_data st) (st_journal st !! Z.to_nat id))
            (take (Z.to_nat id) (st_journal st));
  StateDB_Prepare st _ _ := st;
|}.

#[export] Instance typesOps : TypesOps := {|
  Signer := unit;
  Sender _ tx := Z.to_N (tx_nonce tx `div` 100);
  HeaderHash h := Z.to_N (Number h * 1000 + Time h);
  DeriveSha l :=
    match l with
    | BlockManifest hashes => (1 + 2 * foldr N.add 0 hashes)%N
    | Transactions txs => (2 * foldr N.add 0 (tx_hash <$> txs))%N
    end;
  RlpHash l := foldr N.add 0%N l;
  EmptyBodyHash := 0%N;
  NewBlock header txs uncles etxs subManifest _ :=
    mkBlock header (mkBody txs uncles etxs subManifest);
|}.

(** The iterator as a list of per-sender queues, the best sender first. *)
Definition txset := list (list Transaction).

Definition txset_peek (t : txset) : option Transaction :=
  match t with
  | (tx :: _) :: _ => Some tx
  | _ => None
  end.

Definition txset_pop (t : txset) : txset := tail t.

Definition txset_shift (t : txset) : txset :=
  match t with
  | (_ :: next :: queue) :: more => (next :: queue) :: more
  | _ => tail t
  end.

Definition txset_size (t : txset) : nat :=
  foldr (λ queue n, S (length queue + n)) O t.

Lemma txset_shift_size t :
  is_Some (txset_peek t) → (txset_size (txset_shift t) < txset_size t)%nat.
Proof.
  destruct t as [|[|tx [|next queue]] more]; simpl; intros [? ?];
    try discriminate; lia.
Defined.

Lemma txset_pop_size t :
  is_Some (txset_peek t) → (txset_size (txset_pop t) < txset_size t)%nat.
Proof.
  destruct t as [|[|tx queue] more]; simpl; intros [? ?]; try discriminate; lia.
Defined.

#[export] Instance txSetOps : TxSetOps := {|
  TransactionsByPriceAndNonce := txset;
  NewTransactionsByPriceAndNonce _ txs _ _ := (map_to_list txs).*2;
  Peek := txset_peek;
  Shift t _ _ := txset_shift t;
  Pop := txset_pop;
  txset_len := txset_size;
  Shift_len t _ _ := txset_shift_size t;
  Pop_len := txset_pop_size;
|}.

(** A transaction of type 0 costs [TxGas] and succeeds when the pool has
    that much; types 1, 2 and 3 fail with a wrapped nonce-too-low,
    nonce-too-high and unsupported-type error; any other type fails with an
    error of its own. *)
Definition applyTransaction (coinbase : Address) (gp : option Z) (st : journal)
    (header : Header) (tx : Transaction) (gasUsed : Z) : ApplyResult :=
  let pool := default 0 gp in
  if decide (tx_type tx = 0) then
    if decide (pool < TxGas) then
      mkApplyResult pool st gasUsed (inr ErrGasLimitReached)
    else
      mkApplyResult (pool - TxGas) (mkState (st_data st + 1) (st_journal st))
        (gasUsed + TxGas)
        (inl (mkReceipt (tx_nonce tx `mod` 2) TxGas [mkLog 0%N (tx_hash tx)] [tx]))
  else
    mkApplyResult pool (mkState (st_data st + 1) (st_journal st)) gasUsed
      (inr (if decide (tx_type tx = 1) then fmt_Errorf "nonce" ErrNonceTooLow
            else if decide (tx_type tx = 2) then fmt_Errorf "nonce" ErrNonceTooHigh
            else if decide (tx_type tx = 3) then ErrTxTypeNotSupported
            else errors_New "execution reverted")).

#[export] Instance chainOps : ChainOps := {|
  ApplyTransaction := applyTransaction;
  CalcGasLimit parentGasLimit gasUsed := (parentGasLimit + gasUsed) `div` 2;
  CollectBlockManifest h :=
    if decide (Number h = 0) then inr (errors_New "manifest not found")
    else inl [ParentHash h];
  CollectEtxRollup b :=
    if decide (NumberU64 b = 0) then inr (errors_New "rollup not found")
    else inl (body_Transactions (block_body b));
|}.

#[export] Instance poolOps : PoolOps := {|
  EtxSet := unit;
  ReadEtxSet _ number := if decide (number = 0) then None else Some ();
  TxPoolPending _ _ := inl {[ 0%N := [mkTransaction 1%N 1 0]; 1%N := [mkTransaction 100%N 100 3] ]};
  Locals := [0%N];
|}.

#[export] Instance engine : Engine := {|
  IsDomCoincident h := Z.even (Number h);
  FinalizeAndAssemble header _ txs uncles etxs subManifest receipts :=
    if decide (GasLimit header < GasUsed header)
    then inr (errors_New "gas used above limit")
    else inl (NewBlock header txs uncles etxs subManifest receipts);
|}.

(** A chain whose block of number n has the hash 1000 n, with the state at
    hand for every block but the genesis block, an engine that hands the
    parent's gas limit on, and nothing in the header fields left out. *)
#[export] Instance sealOps : SealOps := {|
  GenesisHash := 0%N;
  Root b := HeaderHash (block_header b);
  StateAt root :=
    if decide (root = 0%N) then inr (errors_New "missing trie node")
    else inl (mkState 0 []);
  StateAtBlock b _ :=
    if decide (NumberU64 b = 0) then inr (errors_New "state not available")
    else inl (mkState 0 []);
  StateDB_StartPrefetcher st := st;
  MakeSigner _ := ();
  GetBlocksFromHash hash n :=
    let num := Z.of_N hash `div` 1000 in
    (λ i, mkBlock (mkHeader (Z.to_N ((num - i - 1) * 1000)) (num - i) 0 0 0 0
                            0%N 0%N 0%N 0%N 0%N) emptyBody)
      <$> seqZ 0 (Z.min n num);
  CalcOrder _ := inl 2;
  CalcDeltaS _ := 0;
  CalcS _ := 0;
  SetParentDeltaS h _ _ := h;
  SetParentEntropy h _ := h;
  SetExtra h _ := h;
  SetCoinbase h _ := h;
  CalcBaseFee h := BaseFee h;
  EnginePrepare h parent := inl (SetGasLimit h (GasLimit parent));
  EffectiveGasTip _ _ := 1;
|}.


Definition tx (nonce type : Z) : Transaction :=
  mkTransaction (Z.to_N nonce) nonce type.

Definition hdr (parent : Hash) (number : Z) : Header :=
  mkHeader parent number 0 0 0 0 0%N 0%N 0%N 0%N 0%N.

Definition blk (parent : Hash) (number : Z) : Block :=
  mkBlock (hdr parent number) emptyBody.

(** A ZONE environment on a header of number 10 and gas limit 100000, whose
    parent has hash 9000. *)
Definition env0 : environment :=
  mkEnvironment (Some ()) (Some (mkState 0 [])) ∅ ∅ 0 None 1%N
    (mkHeader 9000%N 10 0 100000 0 0 0%N 0%N 0%N 0%N 0%N)
    [] [] [] [] ∅ 0 0.

(** The same environment with the blocks 7, 8 and 9 as ancestors and, beside
    them, one of their uncles in the family. *)
Definition envAncestors : environment :=
  mkEnvironment (Some ()) (Some (mkState 0 [])) {[7000%N; 8000%N; 9000%N]}
    {[7000%N; 8000%N; 9000%N; 8500%N]} 0 None 1%N
    (mkHeader 9000%N 10 0 100000 0 0 0%N 0%N 0%N 0%N 0%N)
    [] [] [] [] ∅ 0 0.

Definition worker0 : worker := newWorker 1%N 0 0 emptyDatabase.

(** The same environment with a gas pool of 50000. *)
Definition env1 : environment := set_gasPool env0 (Some 50000).

(** The same environment with a gas pool too small for any transaction. *)
Definition envFull : environment := set_gasPool env0 (Some 20999).

(** Two uncles forking off block 8 and a third forking off block 7. *)
Definition uncle1 : Header := mkHeader 8000%N 9 1 0 0 0 0%N 0%N 0%N 0%N 0%N.
Definition uncle2 : Header := mkHeader 8000%N 9 2 0 0 0 0%N 0%N 0%N 0%N 0%N.
Definition uncle3 : Header := mkHeader 7000%N 8 3 0 0 0 0%N 0%N 0%N 0%N 0%N.

Definition envTwoUncles : environment :=
  set_uncles envAncestors
    {[ HeaderHash uncle1 := uncle1; HeaderHash uncle2 := uncle2 ]}.

(** An iterator over two senders: sender 0 with nonces 1 and 2, sender 1 with
    a transaction of unsupported type. *)
Definition txset0 : TransactionsByPriceAndNonce := [[tx 1 0; tx 2 0]; [tx 100 3]].

Definition txsetEmpty : TransactionsByPriceAndNonce := [].

Definition loop0 : loop_state := mkLoopState worker0 env1 txset0 [] 0.

(** A worker whose pools hold a side block of number 3 each. *)
Definition workerUncles : worker :=
  set_remoteUncles (set_localUncles worker0 {[ 3000%N := blk 2000%N 3 ]})
                   {[ 3001%N := blk 2000%N 3 ]}.

(** A worker that is idle on [env1], and one that is idle on [envFull]. *)
Definition workerIdle : worker := set_current worker0 (Some env1).
Definition workerIdleFull : worker := set_current worker0 (Some envFull).

(** A worker whose cache holds an empty body under the empty-body fingerprint
    and a body with one transaction under the key 5. *)
Definition body5 : Body := mkBody [tx 1 0] [] [] [].

Definition workerCached : worker :=
  set_pendingBlockBody worker0
    (mkLru pendingBlockBodyLimit [(5%N, Some body5); (0%N, Some emptyBody)]).

(** A worker started on a store that holds a keys index and no blob. *)
Definition workerStale : worker :=
  set_workerDb worker0 (mkDatabase (Some [5%N; 0%N]) ∅).

(** Three candidate uncles, as the range over a pool may visit them. *)
Definition candidates : list (Hash * Block) :=
  [(HeaderHash uncle1, mkBlock uncle1 emptyBody);
   (HeaderHash uncle2, mkBlock uncle2 emptyBody);
   (HeaderHash uncle3, mkBlock uncle3 emptyBody)].

(** What a restart leaves of a worker: its store, and an empty cache. *)
Definition restart (w : worker) : worker :=
  set_pendingBlockBody w (lru_New (lru_size (pendingBlockBody w))).

(** An environment on a header with a gas limit of zero and an empty gas
    pool, a worker whose resubmit channel is full, and an interrupt word
    that holds Resubmit until its third load reads NewHead. *)
Definition envZeroGas : environment :=
  set_gasPool (set_header env0 (SetGasLimit (header env0) 0)) (Some 0).

Definition workerFullChannel : worker :=
  set_resubmitAdjustCh worker0 (replicate 10 (mkIntervalAdjust float64_0_1 true)).

Definition resubmitThenNewHead (load : nat) : Z :=
  if decide (load = 2%nat) then commitInterruptNewHead else commitInterruptResubmit.

(** The block of number 9, with a gas limit of 100000, as the parent of the
    block to seal, and a worker whose local pool holds a side block of
    number 9 that forks off block 8. *)
Definition parent9 : Block :=
  mkBlock (mkHeader 8000%N 9 0 100000 0 0 0%N 0%N 0%N 0%N 0%N) emptyBody.

Definition workerSealing : worker :=
  set_localUncles worker0 {[ 9001%N := mkBlock uncle1 emptyBody ]}.
End Sample.

(** * Properties *)

(** ** Machine integers and errors *)

Lemma wrap_int_small z : - 2 ^ 63 ≤ z < 2 ^ 63 → wrap_int z = z.
Proof. intros Hz. unfold wrap_int. rewrite Z.mod_small; lia. Qed.

Lemma wrap64_small z : 0 ≤ z < 2 ^ 64 → wrap64 z = z.
Proof. intros Hz. unfold wrap64. apply Z.mod_small; lia. Qed.

Lemma wrap32_small z : - 2 ^ 31 ≤ z < 2 ^ 31 → wrap32 z = z.
Proof. intros Hz. unfold wrap32. rewrite Z.mod_small; lia. Qed.

Lemma errors_is_chain_root e t :
  sentinel t → errors_is_chain e t = bool_decide (error_root e = t).
Proof.
  intros Ht. induction e as [| | | | msg | msg inner IH]; simpl.
  6: { destruct (decide (fmt_Errorf msg inner = t)) as [<-|_]; [done | exact IH]. }
  all: case_decide; case_bool_decide; congruence.
Qed.

(** An error matches at most one sentinel. *)
Lemma errors_Is_sentinel_unique err t1 t2 :
  sentinel t1 → sentinel t2 →
  errors_Is err (Some t1) = true → errors_Is err (Some t2) = true → t1 = t2.
Proof.
  intros H1 H2. destruct err as [e|]; simpl; [|done].
  rewrite !errors_is_chain_root by done.
  intros ?%bool_decide_eq_true ?%bool_decide_eq_true. congruence.
Qed.

Lemma errors_Is_nil err : errors_Is err None = true ↔ err = None.
Proof. destruct err; simpl; split; congruence. Qed.

Lemma errors_Is_nil_sentinel t : errors_Is None (Some t) = false.
Proof. done. Qed.

(** Two different sentinels matched by one error. *)
Ltac sentinel_clash :=
  match goal with
  | H1 : errors_Is ?e (Some ?a) = true, H2 : errors_Is ?e (Some ?b) = true |- _ =>
      by pose proof (errors_Is_sentinel_unique e a b I I H1 H2)
  end.

(** Reduction of the control structure of the model, definitions left folded. *)
Ltac go_simpl :=
  cbn [go_bind deref fst snd fmap option_fmap option_map
       ls_worker ls_env ls_txs ls_coalescedLogs ls_iter].

Section Properties.
Context {SO : StateOps} {TO : TypesOps} {TS : TxSetOps} {CO : ChainOps}
        {PO : PoolOps} {EN : Engine}.

(** ** commitTransaction *)

(** C3.  [commitTransaction] is atomic per transaction.  When
    [ApplyTransaction] fails, the error is returned, the state is the one
    reverted to the snapshot taken at entry, and the transactions, receipts,
    etxs and header (so its gas used) are as before.  When it succeeds,
    the transaction and its receipt are appended (equal lengths stay equal),
    the gas used that [ApplyTransaction] left is the gas used that the
    header reads afterwards, every other field of the header reads as
    before, the receipt's logs are returned, and the receipt's etxs are
    appended exactly when its status is successful. *)
Theorem commitTransaction_atomic (env : environment) (tx : Transaction) (st : StateDB) :
  state env = Some st →
  let snap := (StateDB_Snapshot st).1 in
  let applied :=
    ApplyTransaction (coinbase env) (gasPool env) (StateDB_Snapshot st).2
      (header env) tx (GasUsed (header env)) in
  ∃ env' logs err,
    commitTransaction env (Some tx) = Done (env', (logs, err)) ∧
    match ar_result applied with
    | inr e =>
        err = Some e ∧ logs = [] ∧
        state env' = Some (StateDB_RevertToSnapshot (ar_state applied) snap) ∧
        txs env' = txs env ∧ receipts env' = receipts env ∧
        etxs env' = etxs env ∧ header env' = header env
    | inl receipt =>
        err = None ∧ logs = Logs receipt ∧
        state env' = Some (ar_state applied) ∧
        txs env' = txs env ++ [tx] ∧
        receipts env' = receipts env ++ [receipt] ∧
        (length (txs env) = length (receipts env) →
         length (txs env') = length (receipts env')) ∧
        GasUsed (header env') = ar_gasUsed applied ∧
        (ParentHash (header env') = ParentHash (header env) ∧
         Number (header env') = Number (header env) ∧
         Time (header env') = Time (header env) ∧
         GasLimit (header env') = GasLimit (header env) ∧
         BaseFee (header env') = BaseFee (header env) ∧
         UncleHash (header env') = UncleHash (header env) ∧
         TxHash (header env') = TxHash (header env) ∧
         EtxHash (header env') = EtxHash (header env) ∧
         ManifestHash (header env') = ManifestHash (header env) ∧
         EtxRollupHash (header env') = EtxRollupHash (header env)) ∧
        (Status receipt = ReceiptStatusSuccessful →
         etxs env' = etxs env ++ Etxs receipt) ∧
        (Status receipt ≠ ReceiptStatusSuccessful → etxs env' = etxs env)
    end.
Proof.
  intros Hst snap applied. unfold commitTransaction. rewrite Hst. simpl.
  subst snap applied. destruct (StateDB_Snapshot st) as [snap st1]. simpl.
  destruct (ar_result _) as [receipt|e] eqn:Hres.
  - eexists _, _, _. split; [reflexivity|].
    destruct (decide (Status receipt = ReceiptStatusSuccessful)) as [Hs|Hs];
      simpl; repeat split; try done; rewrite !length_app; simpl; lia.
  - eexists _, _, _. split; [reflexivity|]. repeat split; done.
Qed.

(** Without a transaction nothing is touched. *)
Lemma commitTransaction_nil (env : environment) :
  commitTransaction env None
  = Done (env, ([], Some (errors_New "error finding transaction"))).
Proof. done. Qed.

Lemma commitTransaction_tcount (env env' : environment) tx logs err :
  commitTransaction env tx = Done (env', (logs, err)) → tcount env' = tcount env.
Proof.
  unfold commitTransaction. destruct tx as [tx|]; [|by intros [= <- _ _]].
  destruct (state env) as [st|]; [simpl|done].
  destruct (StateDB_Snapshot st) as [snap st1].
  destruct (ar_result _) as [receipt|e]; intros [= <- _ _]; [|done].
  by destruct (decide (Status receipt = _)).
Qed.

(** ** The inclusion loop: one round *)

(** C1.  In a round of [commitTransactions] that attempts a transaction (the
    interrupt word is clear, the pool holds at least [TxGas], the iterator
    has a head), the round always ends in [Continue], and the iterator and
    counters move as the outcome of [commitTransaction] says: gas limit
    reached, nonce too high and unsupported type pop the sender; nonce too
    low and any other error shift to the sender's next transaction; success
    appends the logs, increments [tcount] and shifts. *)
Theorem commitTransactions_dispatch (interrupt : option (nat → Z)) (s : loop_state)
    (gp : Z) (tx : Transaction) (sg : Signer) (st : StateDB)
    (env' : environment) (logs : list Log) (err : option error) :
  (∀ f, interrupt = Some f → f (ls_iter s) = commitInterruptNone) →
  gasPool (ls_env s) = Some gp → TxGas ≤ gp →
  Peek (ls_txs s) = Some tx →
  signer (ls_env s) = Some sg →
  state (ls_env s) = Some st →
  commitTransaction
    (set_state (ls_env s)
       (Some (StateDB_Prepare st (tx_hash tx) (tcount (ls_env s)))))
    (Some tx) = Done (env', (logs, err)) →
  let from := Sender sg tx in
  let popped env logs :=
    mkLoopState (ls_worker s) env (Pop (ls_txs s)) logs (S (ls_iter s)) in
  let shifted env logs :=
    mkLoopState (ls_worker s) env (Shift (ls_txs s) from false) logs (S (ls_iter s)) in
  ∃ s', commitTransactions_iteration interrupt s = Done (Continue s') ∧
    (errors_Is err (Some ErrGasLimitReached) = true →
     s' = popped env' (ls_coalescedLogs s)) ∧
    (errors_Is err (Some ErrNonceTooLow) = true →
     s' = shifted env' (ls_coalescedLogs s)) ∧
    (errors_Is err (Some ErrNonceTooHigh) = true →
     s' = popped env' (ls_coalescedLogs s)) ∧
    (err = None →
     s' = shifted (set_tcount env' (wrap_int (tcount (ls_env s) + 1)))
                  (ls_coalescedLogs s ++ logs)) ∧
    (errors_Is err (Some ErrTxTypeNotSupported) = true →
     s' = popped env' (ls_coalescedLogs s)) ∧
    (err ≠ None →
     errors_Is err (Some ErrGasLimitReached) = false →
     errors_Is err (Some ErrNonceTooLow) = false →
     errors_Is err (Some ErrNonceTooHigh) = false →
     errors_Is err (Some ErrTxTypeNotSupported) = false →
     s' = shifted env' (ls_coalescedLogs s)).
Proof.
  intros Hclear Hgp Hgas Hpeek Hsg Hst Hcommit from popped shifted.
  assert (commitTransactions_iteration interrupt s
          = commitTransactions_attempt
              (mkLoopState (ls_worker s) (ls_env s) (ls_txs s)
                 (ls_coalescedLogs s) (S (ls_iter s)))) as ->.
  { unfold commitTransactions_iteration, commitTransactions_interrupt.
    destruct interrupt as [f|]; simpl; [|done].
    rewrite (Hclear f eq_refl). by rewrite decide_False by (intros ?; done). }
  unfold commitTransactions_attempt. go_simpl.
  rewrite Hgp. go_simpl. rewrite decide_False by lia.
  rewrite Hpeek, Hsg. go_simpl. rewrite Hst. go_simpl. rewrite Hcommit. go_simpl.
  pose proof (commitTransaction_tcount _ _ _ _ _ Hcommit) as Htc. simpl in Htc.
  destruct (errors_Is err (Some ErrGasLimitReached)) eqn:E1;
    [|destruct (errors_Is err (Some ErrNonceTooLow)) eqn:E2;
      [|destruct (errors_Is err (Some ErrNonceTooHigh)) eqn:E3;
        [|destruct (errors_Is err None) eqn:E4;
          [apply errors_Is_nil in E4 as ->
          |destruct (errors_Is err (Some ErrTxTypeNotSupported)) eqn:E5]]]].
  all: eexists; split; [reflexivity|].
  all: repeat split; intros; subst; rewrite ?Htc;
    first [done | sentinel_clash | by rewrite errors_Is_nil in * | congruence].
Qed.

(** ** The inclusion loop: the whole run *)

Lemma commitTransaction_keeps (env env' : environment) tx logs err :
  commitTransaction env tx = Done (env', (logs, err)) →
  (is_Some (state env) → is_Some (state env')) ∧
  signer env' = signer env ∧
  (is_Some (gasPool env) → is_Some (gasPool env')) ∧
  GasLimit (header env') = GasLimit (header env).
Proof.
  unfold commitTransaction. destruct tx as [tx|]; [|by intros [= <- _ _]].
  destruct (state env) as [st|]; [go_simpl|done].
  destruct (StateDB_Snapshot st) as [snap st1].
  destruct (ar_result _) as [receipt|e]; intros [= <- _ _].
  all: try destruct (decide (Status receipt = _)); simpl.
  all: repeat split; try done; try (intros _; by eauto);
    intros [? ->]; simpl; by eauto.
Qed.

Lemma commitTransaction_returns (env : environment) tx :
  is_Some (state env) → ∃ r, commitTransaction env tx = Done r.
Proof.
  intros [st Hst]. unfold commitTransaction. destruct tx as [tx|]; [|by eexists].
  rewrite Hst. go_simpl. destruct (StateDB_Snapshot st) as [snap st1].
  destruct (ar_result _); by eexists.
Qed.

Lemma commitTransactions_attempt_spec (s : loop_state) :
  loop_ready s →
  commitTransactions_attempt s = Done (Break s) ∨
  ∃ s', commitTransactions_attempt s = Done (Continue s') ∧
        loop_ready s' ∧ ls_worker s' = ls_worker s ∧ ls_iter s' = ls_iter s ∧
        GasLimit (header (ls_env s')) = GasLimit (header (ls_env s)) ∧
        (txset_len (ls_txs s') < txset_len (ls_txs s))%nat.
Proof.
  intros ([st Hst] & [sg Hsg] & [gp Hgp]).
  unfold commitTransactions_attempt. rewrite Hgp. go_simpl.
  destruct (decide (gp < TxGas)); [by left|].
  destruct (Peek (ls_txs s)) as [tx|] eqn:Hpeek; [|by left].
  right. rewrite Hsg, Hst. go_simpl.
  match goal with
  | |- context [commitTransaction ?e (Some tx)] =>
      destruct (commitTransaction_returns e (Some tx)) as ([env' [logs err]] & Hcommit);
        [simpl; eauto | rewrite Hcommit]
  end.
  apply commitTransaction_keeps in Hcommit as (Hstate & Hsigner & Hpool & Hlimit).
  simpl in Hstate, Hsigner, Hpool, Hlimit.
  pose proof (Pop_len (ls_txs s) (mk_is_Some _ _ Hpeek)) as Hpop.
  pose proof (Shift_len (ls_txs s) (Sender sg tx) false (mk_is_Some _ _ Hpeek)) as Hshift.
  go_simpl.
  destruct (errors_Is err (Some ErrGasLimitReached));
    [|destruct (errors_Is err (Some ErrNonceTooLow));
      [|destruct (errors_Is err (Some ErrNonceTooHigh));
        [|destruct (errors_Is err None);
          [|destruct (errors_Is err (Some ErrTxTypeNotSupported))]]]].
  all: eexists; split; [reflexivity|]; unfold loop_ready; simpl;
    rewrite ?Hsigner, ?Hsg; repeat split; eauto.
Qed.

Lemma float64_not_below (x : float64) :
  float64_lt x float64_0_1 = false →
  x = float64_NaN ∨ float64_le float64_0_1 x = true.
Proof.
  unfold float64_lt, float64_le, float64_0_1, float64_NaN, SFltb, SFleb.
  destruct x as [sign|sign| |sign m e]; cbn [SFcompare].
  - by destruct sign.
  - destruct sign; [done|by right].
  - by left.
  - destruct sign; [done|]. intros Hlt. right.
    rewrite (Z.compare_antisym e (-56)).
    destruct (e ?= -56) eqn:He; cbn [CompOpp] in *; try done.
    change (PosDef.Pos.compare_cont Eq 7205759403792794 m)
      with (Pos.compare_cont (CompOpp Eq) 7205759403792794 m).
    rewrite <- Pos.compare_cont_antisym.
    by destruct (Pos.compare_cont Eq m 7205759403792794).
Qed.

Lemma commitTransactions_loop_spec (fuel : nat) (interrupt : option (nat → Z))
    (s : loop_state) :
  loop_ready s → (txset_len (ls_txs s) < fuel)%nat →
  let run := commitTransactions_loop fuel interrupt s in
  let channel := resubmitAdjustCh (ls_worker s) in
  (∃ s', run = Done (s', None) ∧
     loop_ready s' ∧ GasLimit (header (ls_env s')) = GasLimit (header (ls_env s)) ∧
     ls_worker s' = ls_worker s ∧ (ls_iter s < ls_iter s')%nat ∧
     ∀ load, (ls_iter s ≤ load < ls_iter s')%nat →
             interrupt_word interrupt load = commitInterruptNone) ∨
  (∃ f k, interrupt = Some f ∧ (ls_iter s ≤ k)%nat ∧
     (∀ load, (ls_iter s ≤ load < k)%nat → f load = commitInterruptNone) ∧
     f k ≠ commitInterruptNone ∧
     ((∃ s' gp,
         run = Done (s', Some (bool_decide (f (S (S k)) = commitInterruptNewHead))) ∧
         loop_ready s' ∧
         GasLimit (header (ls_env s')) = GasLimit (header (ls_env s)) ∧
         ls_iter s' = (k + 3)%nat ∧ gasPool (ls_env s') = Some gp ∧
         (f (S k) = commitInterruptResubmit →
          (length channel < resubmitAdjustChanSize)%nat ∧
          ls_worker s'
          = set_resubmitAdjustCh (ls_worker s)
              (channel ++ [resubmitAdjust (GasLimit (header (ls_env s'))) gp])) ∧
         (f (S k) ≠ commitInterruptResubmit → ls_worker s' = ls_worker s)) ∨
      (run = Diverge ∧ f (S k) = commitInterruptResubmit ∧
       (resubmitAdjustChanSize ≤ length channel)%nat))).
Proof.
  revert s. induction fuel as [|fuel IH]; intros s Hready Hlen; [lia|].
  cbn zeta. cbn [commitTransactions_loop]. unfold commitTransactions_iteration.
  set (s1 := mkLoopState (ls_worker s) (ls_env s) (ls_txs s)
               (ls_coalescedLogs s) (S (ls_iter s))).
  assert (loop_ready s1) as Hready1 by exact Hready.
  destruct (decide (interrupt_word interrupt (ls_iter s) = commitInterruptNone))
    as [Hclear|Hset].
  - assert (commitTransactions_interrupt
              ((λ f : nat → Z, (f (ls_iter s), f (S (ls_iter s)), f (S (S (ls_iter s)))))
                 <$> interrupt) s1 = Done (Continue s1)) as ->.
    { unfold commitTransactions_interrupt.
      destruct interrupt as [f|]; simpl in *; [|done].
      rewrite Hclear. by rewrite decide_False by (intros ?; done). }
    go_simpl.
    destruct (commitTransactions_attempt_spec s1 Hready1)
      as [-> | (s2 & -> & Hready2 & Hw & Hiter & Hlimit & Hdec)]; go_simpl.
    { left. eexists. split; [reflexivity|]. simpl.
      split; [done|]. split; [done|]. split; [done|]. split; [lia|].
      intros load Hload. by replace load with (ls_iter s) by lia. }
    simpl in Hw, Hiter, Hlimit, Hdec.
    destruct (IH s2 Hready2) as [(s' & -> & Hready' & Hlimit' & Hw' & Hiter' & Hloads)
                                | (f & k & -> & Hk & Hloads & Hfk & Hout)]; [lia|..].
    + left. exists s'. split; [reflexivity|]. split; [done|].
      split; [by rewrite Hlimit'|]. split; [by rewrite Hw'|]. split; [lia|].
      intros load Hload. destruct (decide (load = ls_iter s)) as [->|]; [done|].
      apply Hloads. lia.
    + right. exists f, k. split; [done|]. split; [lia|]. split.
      { intros load Hload. destruct (decide (load = ls_iter s)) as [->|]; [done|].
        apply Hloads. lia. }
      split; [done|]. rewrite Hw, Hlimit in Hout. exact Hout.
  - destruct interrupt as [f|]; simpl in Hset; [|done].
    destruct Hready as (Hst & Hsg & [gp Hgp]).
    right. exists f, (ls_iter s). split; [done|]. split; [lia|].
    split; [intros load Hload; lia|]. split; [done|].
    unfold commitTransactions_interrupt. cbn [fmap option_fmap option_map].
    rewrite decide_True by done.
    destruct (decide (f (S (ls_iter s)) = commitInterruptResubmit)) as [Hre|Hre].
    + subst s1. go_simpl. rewrite Hgp. go_simpl. unfold resubmitAdjustCh_send.
      destruct (decide (length (resubmitAdjustCh (ls_worker s))
                        < resubmitAdjustChanSize)%nat) as [Hroom|Hfull]; go_simpl.
      * left. eexists _, gp. split; [reflexivity|]. simpl.
        split; [by repeat split; eauto|]. split; [done|]. split; [lia|].
        split; [done|]. split; [done|]. done.
      * right. split; [done|]. split; [done|]. lia.
    + go_simpl. left. eexists _, gp. split; [reflexivity|]. simpl.
      split; [by repeat split; eauto|]. split; [done|]. split; [lia|].
      split; [done|]. split; [done|]. done.
Qed.

Lemma commitTransactions_loop_nil (fuel : nat) (s : loop_state) :
  loop_ready s → (txset_len (ls_txs s) < fuel)%nat →
  ∃ s', commitTransactions_loop fuel None s = Done (s', None) ∧
    loop_ready s' ∧ ls_worker s' = ls_worker s.
Proof.
  intros Hready Hlen.
  destruct (commitTransactions_loop_spec fuel None s Hready Hlen)
    as [(s' & Hrun & Hready' & _ & Hw & _) | (f & k & Hf & _)]; [|discriminate Hf].
  by exists s'.
Qed.

(** C2, as the code has it.  A run of [commitTransactions] ends in one of
    three ways.  It leaves the loop at the gas or the iterator test: every
    load of the interrupt word read clear, nothing is sent and the result is
    [false].  Or it returns at the test of the interrupt word, on the first
    load that does not read clear: the result is [true] exactly when the
    third load of that test reads NewHead; when the second load reads
    Resubmit, one message is appended to the channel, with [inc] set and the
    ratio (gasLimit - gas) / gasLimit in float64, replaced by 0.1 when it
    compares below 0.1, so that the ratio sent is never below 0.1, and is at
    least 0.1 unless it is NaN; when the second load reads anything else,
    nothing is sent.  Or the second load reads Resubmit while the channel
    holds [resubmitAdjustChanSize] messages: then the send blocks and the
    run does not return. *)
Theorem commitTransactions_result (iter : nat) (w : worker) (env : environment)
    (txset : TransactionsByPriceAndNonce) (interrupt : option (nat → Z)) :
  is_Some (state env) → is_Some (signer env) →
  let run := commitTransactions_from iter w env txset interrupt in
  let gasLimit := GasLimit (header env) in
  let quotient gp :=
    float64_div (float64_of_uint64 (wrap64 (gasLimit - gp)))
                (float64_of_uint64 gasLimit) in
  let clamped gp :=
    if float64_lt (quotient gp) float64_0_1 then float64_0_1 else quotient gp in
  (∃ s', run = Done (s', false) ∧
     resubmitAdjustCh (ls_worker s') = resubmitAdjustCh w ∧
     ∀ load, (iter ≤ load < ls_iter s')%nat →
             interrupt_word interrupt load = commitInterruptNone) ∨
  (∃ f k, interrupt = Some f ∧ (iter ≤ k)%nat ∧
     (∀ load, (iter ≤ load < k)%nat → f load = commitInterruptNone) ∧
     f k ≠ commitInterruptNone ∧
     ((∃ s' result gp,
         run = Done (s', result) ∧ ls_iter s' = (k + 3)%nat ∧
         (result = true ↔ f (S (S k)) = commitInterruptNewHead) ∧
         gasPool (ls_env s') = Some gp ∧
         (f (S k) = commitInterruptResubmit →
          (length (resubmitAdjustCh w) < resubmitAdjustChanSize)%nat ∧
          resubmitAdjustCh (ls_worker s')
          = resubmitAdjustCh w ++ [mkIntervalAdjust (clamped gp) true] ∧
          float64_lt (clamped gp) float64_0_1 = false ∧
          (clamped gp = float64_NaN ∨ float64_le float64_0_1 (clamped gp) = true)) ∧
         (f (S k) ≠ commitInterruptResubmit →
          resubmitAdjustCh (ls_worker s') = resubmitAdjustCh w)) ∨
      (run = Diverge ∧ f (S k) = commitInterruptResubmit ∧
       (resubmitAdjustChanSize ≤ length (resubmitAdjustCh w))%nat))).
Proof.
  intros Hst Hsg run gasLimit quotient clamped. subst run.
  unfold commitTransactions_from.
  set (env1 := match gasPool env with
               | None => set_gasPool env (Some (GasLimit (header env)))
               | Some _ => env
               end).
  assert (loop_ready (mkLoopState w env1 txset [] iter)) as Hready.
  { unfold loop_ready, env1. simpl. destruct (gasPool env) eqn:Hgp; simpl;
      rewrite ?Hgp; eauto. }
  assert (GasLimit (header env1) = GasLimit (header env)) as Hlim.
  { unfold env1. by destruct (gasPool env). }
  assert (∀ gp, float64_lt (clamped gp) float64_0_1 = false) as Hclamp.
  { intros gp. unfold clamped.
    destruct (float64_lt (quotient gp) float64_0_1) eqn:Hlt; [reflexivity|exact Hlt]. }
  destruct (commitTransactions_loop_spec (S (txset_len txset)) interrupt _ Hready)
    as [(s' & -> & _ & _ & Hw & Hiter & Hloads)
       | (f & k & -> & Hk & Hloads & Hfk & [(s' & gp & -> & _ & Hlimit & Hiter & Hgp & Hre & Hnre)
                                           | (-> & Hre & Hfull)])]; [simpl; lia|..].
  - simpl in Hw, Hiter, Hloads. go_simpl. left. eexists. split; [reflexivity|]. simpl.
    split; [|exact Hloads]. rewrite Hw. by destruct (negb _ && _).
  - simpl in Hk, Hloads, Hlimit, Hre, Hnre. rewrite Hlim in Hlimit. go_simpl.
    right. exists f, k. split; [done|]. split; [done|]. split; [done|]. split; [done|].
    left. eexists s', _, gp. split; [reflexivity|]. split; [done|].
    split; [by rewrite bool_decide_eq_true|]. split; [done|]. split.
    + intros Hsecond. destruct (Hre Hsecond) as (Hroom & ->). split; [done|].
      simpl. rewrite Hlimit. split; [reflexivity|]. split; [apply Hclamp|].
      apply float64_not_below, Hclamp.
    + intros Hsecond. by rewrite (Hnre Hsecond).
  - simpl in Hk, Hloads, Hfull. go_simpl.
    right. exists f, k. split; [done|]. split; [done|]. split; [done|]. split; [done|].
    right. done.
Qed.

(** ** Uncle admission *)

Lemma commitUncles_size (env : environment) (blocks : list (Hash * Block)) :
  (size (uncles env) ≤ 2)%nat → (size (uncles (commitUncles env blocks)) ≤ 2)%nat.
Proof.
  revert env. induction blocks as [|[hash uncle] rest IH]; intros env Hsize; [done|].
  simpl. destruct (decide (size (uncles env) = 2%nat)); [done|].
  apply IH. unfold commitUncle.
  repeat (case_decide; [done|]). simpl.
  rewrite map_size_insert_None; [lia|].
  by apply eq_None_not_Some.
Qed.

(** C4, as the code has it.  [commitUncle] rejects a candidate, leaving the
    environment as it was, with "uncle not unique" when its hash is in the
    uncle map, else "uncle is sibling" when its parent is the header's
    parent, else "uncle's parent unknown" when its parent is no ancestor,
    else "uncle already included" when its hash is in the family; otherwise
    it inserts the candidate, and the map grows by one.  [commitUncle] does
    not look at the size of the map: the bound of two uncles is kept by the
    loop of [prepareWork], which stops adding once the map holds two. *)
Theorem commitUncle_admission (env : environment) (uncle : Header) :
  let hash := HeaderHash uncle in
  let r := commitUncle env uncle in
  (is_Some (uncles env !! hash) →
   r = (env, Some (errors_New "uncle not unique"))) ∧
  (uncles env !! hash = None → ParentHash (header env) = ParentHash uncle →
   r = (env, Some (errors_New "uncle is sibling"))) ∧
  (uncles env !! hash = None → ParentHash (header env) ≠ ParentHash uncle →
   ParentHash uncle ∉ ancestors env →
   r = (env, Some (errors_New "uncle's parent unknown"))) ∧
  (uncles env !! hash = None → ParentHash (header env) ≠ ParentHash uncle →
   ParentHash uncle ∈ ancestors env → hash ∈ family env →
   r = (env, Some (errors_New "uncle already included"))) ∧
  (uncles env !! hash = None → ParentHash (header env) ≠ ParentHash uncle →
   ParentHash uncle ∈ ancestors env → hash ∉ family env →
   r = (set_uncles env (<[hash := uncle]> (uncles env)), None) ∧
   size (uncles r.1) = S (size (uncles env))) ∧
  (∀ blocks, (size (uncles env) ≤ 2)%nat →
             (size (uncles (commitUncles env blocks)) ≤ 2)%nat).
Proof.
  intros hash r. subst r. unfold commitUncle. fold hash.
  repeat split.
  - intros Hin. by rewrite decide_True.
  - intros Hnew Hsib. rewrite decide_False by (by apply eq_None_not_Some).
    by rewrite decide_True.
  - intros Hnew Hsib Hanc. rewrite decide_False by (by apply eq_None_not_Some).
    rewrite decide_False by done. by rewrite decide_True.
  - intros Hnew Hsib Hanc Hfam. rewrite decide_False by (by apply eq_None_not_Some).
    rewrite decide_False by done. rewrite decide_False by (intros ?; done).
    by rewrite decide_True.
  - rewrite decide_False by (by apply eq_None_not_Some).
    rewrite decide_False by done. rewrite decide_False by (intros ?; done).
    by rewrite decide_False.
  - rewrite decide_False by (by apply eq_None_not_Some).
    rewrite decide_False by done. rewrite decide_False by (intros ?; done).
    rewrite decide_False by done. simpl. by apply map_size_insert_None.
  - apply commitUncles_size.
Qed.

(** ** Gas limit *)

Lemma uint64_of_wrap_int_zero z : uint64_of_int (wrap_int z) = 0 ↔ wrap_int z = 0.
Proof.
  unfold uint64_of_int, wrap_int. split; [|by intros ->].
  intros H. pose proof (Z.mod_pos_bound (z + 2 ^ 63) (2 ^ 64) ltac:(lia)) as Hb.
  apply Z.mod_divide in H; [|lia]. destruct H as [k Hk]. lia.
Qed.

(** C9.  When [externalBlockLength + 1] is not zero, [adjustGasLimit] sets
    the header's gas limit to [CalcGasLimit] of the parent's gas limit and
    of the uint64 quotient of [parent.gasUsed + externalGasUsed] by
    [externalBlockLength + 1], and changes nothing else of the header or of
    the environment.  Without wrap-around the quotient is the one of the
    integers. *)
Theorem adjustGasLimit_sets_limit (env : environment) (parent : Block) :
  wrap_int (externalBlockLength env + 1) ≠ 0 →
  let divisor := uint64_of_int (wrap_int (externalBlockLength env + 1)) in
  let gasUsed :=
    wrap64 (GasUsed (block_header parent) + externalGasUsed env) `div` divisor in
  let limit := CalcGasLimit (GasLimit (block_header parent)) gasUsed in
  ∃ env', adjustGasLimit env parent = Done env' ∧
    env' = set_header env (SetGasLimit (header env) limit) ∧
    GasLimit (header env') = limit ∧
    ParentHash (header env') = ParentHash (header env) ∧
    Number (header env') = Number (header env) ∧
    Time (header env') = Time (header env) ∧
    GasUsed (header env') = GasUsed (header env) ∧
    BaseFee (header env') = BaseFee (header env) ∧
    UncleHash (header env') = UncleHash (header env) ∧
    TxHash (header env') = TxHash (header env) ∧
    EtxHash (header env') = EtxHash (header env) ∧
    ManifestHash (header env') = ManifestHash (header env) ∧
    EtxRollupHash (header env') = EtxRollupHash (header env) ∧
    (0 ≤ externalBlockLength env < 2 ^ 63 - 1 →
     0 ≤ GasUsed (block_header parent) + externalGasUsed env < 2 ^ 64 →
     gasUsed = (GasUsed (block_header parent) + externalGasUsed env)
                 `div` (externalBlockLength env + 1)).
Proof.
  intros Hnz divisor gasUsed limit. unfold adjustGasLimit. fold divisor.
  rewrite decide_False by (by subst divisor; rewrite uint64_of_wrap_int_zero).
  eexists. split; [reflexivity|]. repeat split.
  intros Hlen Hsum. subst gasUsed divisor.
  rewrite wrap64_small by done. rewrite wrap_int_small by lia.
  unfold uint64_of_int. rewrite Z.mod_small by lia. done.
Qed.

(** The division panics exactly when [externalBlockLength] is -1. *)
Lemma adjustGasLimit_divide_by_zero (env : environment) (parent : Block) :
  wrap_int (externalBlockLength env + 1) = 0 →
  adjustGasLimit env parent = Panic divide_by_zero.
Proof.
  intros Hz. unfold adjustGasLimit.
  by rewrite decide_True by (by rewrite uint64_of_wrap_int_zero).
Qed.

(** ** The snapshot *)

Lemma copyReceipts_id (receipts : list Receipt) : copyReceipts receipts = receipts.
Proof.
  unfold copyReceipts. induction receipts as [|[] rest IH]; [done|].
  simpl. by f_equal.
Qed.

(** C10, as the code has it.  While no snapshot state is set, [pending]
    returns (nil, nil), and [pendingBlock] and [pendingBlockAndReceipts]
    return the snapshot block and receipts as they are.  In ZONE context
    [updateSnapshot] on an environment with a state stores a copy of that
    state, after which [pending] returns the new snapshot block with a copy
    of the snapshot state.  In PRIME and REGION context [updateSnapshot], on
    any environment, with or without a state, sets the snapshot block only
    and leaves the snapshot state and receipts as they were, so that
    [pending] still returns (nil, nil) if no state was set before. *)
Theorem pending_after_updateSnapshot (w : worker) (env : environment) :
  let block :=
    NewBlock (header env) (txs env) (unclelist env) (etxs env) (subManifest env)
             (receipts env) in
  (snapshotState w = None →
   pending w = (None, None) ∧ pendingBlock w = snapshotBlock w ∧
   pendingBlockAndReceipts w = (snapshotBlock w, snapshotReceipts w)) ∧
  (∀ st, state env = Some st →
     ∃ w', updateSnapshot ZONE_CTX w env = Done w' ∧
           snapshotState w' = Some (StateDB_Copy st) ∧
           pending w' = (Some block, Some (StateDB_Copy (StateDB_Copy st))) ∧
           pendingBlockAndReceipts w' = (Some block, receipts env)) ∧
  (∀ nodeCtx, nodeCtx ≠ ZONE_CTX →
     ∃ w', updateSnapshot nodeCtx w env = Done w' ∧
           snapshotState w' = snapshotState w ∧
           snapshotReceipts w' = snapshotReceipts w ∧
           pendingBlock w' = Some block ∧
           (snapshotState w = None → pending w' = (None, None))).
Proof.
  intros block. split; [|split].
  - unfold pending. by intros ->.
  - intros st Hst. unfold updateSnapshot. rewrite decide_True by done.
    rewrite Hst. go_simpl.
    eexists. split; [reflexivity|]. unfold pending, pendingBlockAndReceipts. simpl.
    by rewrite copyReceipts_id.
  - intros nodeCtx Hctx. unfold updateSnapshot. rewrite decide_False by done.
    eexists. split; [reflexivity|]. unfold pending. simpl.
    repeat split. by intros ->.
Qed.

(** ** The sweep of stale uncles *)

Lemma sweepUncles_fold (chainHead : Block) (acc pool : gmap N Block) (hash : N) :
  map_fold (λ hash uncle acc,
              if decide (wrap64 (NumberU64 uncle + staleThreshold) ≤ NumberU64 chainHead)
              then delete hash acc else acc) acc pool !! hash
  = match pool !! hash with
    | Some uncle =>
        if decide (wrap64 (NumberU64 uncle + staleThreshold) ≤ NumberU64 chainHead)
        then None else acc !! hash
    | None => acc !! hash
    end.
Proof.
  revert hash.
  apply (map_fold_weak_ind (λ (r m : gmap N Block), ∀ hash,
    r !! hash = match m !! hash with
                | Some uncle =>
                    if decide (wrap64 (NumberU64 uncle + staleThreshold)
                               ≤ NumberU64 chainHead)
                    then None else acc !! hash
                | None => acc !! hash
                end)).
  - intros hash. by rewrite lookup_empty.
  - intros i x m r Hi IH hash. destruct (decide (i = hash)) as [->|Hne].
    + rewrite lookup_insert_eq. specialize (IH hash). rewrite Hi in IH.
      case_decide; [by rewrite lookup_delete_eq | done].
    + rewrite lookup_insert_ne by done. rewrite <- IH.
      case_decide; [by rewrite lookup_delete_ne | done].
Qed.

Lemma sweepUncles_lookup (chainHead : Block) (pool : gmap N Block) (hash : N) :
  sweepUncles chainHead pool !! hash
  = match pool !! hash with
    | Some uncle =>
        if decide (wrap64 (NumberU64 uncle + staleThreshold) ≤ NumberU64 chainHead)
        then None else Some uncle
    | None => None
    end.
Proof.
  unfold sweepUncles. rewrite sweepUncles_fold.
  destruct (pool !! hash) eqn:E; [|done]. by case_decide.
Qed.

(** C7, as the code has it.  On a tick, an uncle of either pool whose number
    plus 7 does not pass 2^64 is removed exactly when it is 7 or more blocks
    behind the chain head, an uncle exactly 7 behind included; an uncle
    fewer than 7 blocks behind is kept as it is. *)
Theorem cleanTicker_sweeps (w : worker) (chainHead : Block) (hash : N) (uncle : Block) :
  0 ≤ NumberU64 uncle → NumberU64 uncle + staleThreshold < 2 ^ 64 →
  let w' := mainLoop_cleanTicker w chainHead in
  (localUncles w !! hash = Some uncle →
   (localUncles w' !! hash = None ↔ 7 ≤ NumberU64 chainHead - NumberU64 uncle) ∧
   (localUncles w' !! hash = Some uncle ↔ NumberU64 chainHead - NumberU64 uncle < 7)) ∧
  (remoteUncles w !! hash = Some uncle →
   (remoteUncles w' !! hash = None ↔ 7 ≤ NumberU64 chainHead - NumberU64 uncle) ∧
   (remoteUncles w' !! hash = Some uncle ↔ NumberU64 chainHead - NumberU64 uncle < 7)).
Proof.
  intros Hpos Hmax w'. subst w'. unfold mainLoop_cleanTicker. simpl.
  rewrite !sweepUncles_lookup.
  split; intros ->; rewrite wrap64_small by (unfold staleThreshold in *; lia);
    unfold staleThreshold; case_decide; split; split; intros ?; try done; lia.
Qed.

(** ** Finalize, assemble, broadcast *)

(** C5.  When the engine assembles a block and the header chain delivers
    what is asked of it, [FinalizeAssembleAndBroadcast] returns the block
    with its manifest hash set to [DeriveSha] of the empty manifest in PRIME,
    of the parent's hash alone when the parent is dom-coincident, and
    otherwise of the collected manifest followed by the header's parent
    hash.  In ZONE the etx rollup hash is [DeriveSha] of the parent's
    external transactions when the parent is dom-coincident and otherwise
    of the collected rollup followed by them; outside ZONE the etx rollup
    hash is the one the engine left. *)
Theorem FinalizeAssembleAndBroadcast_hashes (nodeCtx : NodeCtx) (w : worker)
    (header : Header) (parent : Block) (state : option StateDB)
    (txs : list Transaction) (uncles : list Header) (etxs : list Transaction)
    (subManifest : list Hash) (receipts : list Receipt) (assembled : Block) :
  FinalizeAndAssemble header state txs uncles etxs subManifest receipts
    = inl assembled →
  let dom := IsDomCoincident (block_header parent) in
  (nodeCtx ≠ PRIME_CTX → dom = false →
   ∃ m, CollectBlockManifest (block_header parent) = inl m) →
  (nodeCtx = ZONE_CTX → dom = false → ∃ r, CollectEtxRollup parent = inl r) →
  ∃ w' block,
    FinalizeAssembleAndBroadcast nodeCtx w header parent state txs uncles etxs
      subManifest receipts = (w', inl block) ∧
    (nodeCtx = PRIME_CTX →
     ManifestHash (block_header block) = DeriveSha (BlockManifest [])) ∧
    (nodeCtx ≠ PRIME_CTX → dom = true →
     ManifestHash (block_header block)
     = DeriveSha (BlockManifest [HeaderHash (block_header parent)])) ∧
    (nodeCtx ≠ PRIME_CTX → dom = false →
     ∃ m, CollectBlockManifest (block_header parent) = inl m ∧
          ManifestHash (block_header block)
          = DeriveSha (BlockManifest (m ++ [ParentHash header]))) ∧
    (nodeCtx = ZONE_CTX → dom = true →
     EtxRollupHash (block_header block)
     = DeriveSha (Transactions (ExtTransactions parent))) ∧
    (nodeCtx = ZONE_CTX → dom = false →
     ∃ r, CollectEtxRollup parent = inl r ∧
          EtxRollupHash (block_header block)
          = DeriveSha (Transactions (r ++ ExtTransactions parent))) ∧
    (nodeCtx ≠ ZONE_CTX →
     EtxRollupHash (block_header block) = EtxRollupHash (block_header assembled)).
Proof.
  intros Hasm dom Hmanifest Hrollup. unfold FinalizeAssembleAndBroadcast.
  rewrite Hasm. fold dom.
  destruct nodeCtx; destruct dom eqn:Hdom.
  1,2,3: rewrite ?decide_True by done; rewrite ?decide_False by done; simpl;
         eexists _, _; (split; [reflexivity|]); simpl;
         repeat split; intros; try done.
  - destruct (Hmanifest ltac:(done) eq_refl) as [m Hm]. rewrite Hm.
    rewrite ?decide_True by done; rewrite ?decide_False by done; simpl.
    eexists _, _; (split; [reflexivity|]); simpl.
    repeat split; intros; try done. by exists m.
  - rewrite ?decide_True by done; rewrite ?decide_False by done; simpl.
    eexists _, _; (split; [reflexivity|]); simpl.
    repeat split; intros; try done.
  - destruct (Hmanifest ltac:(done) eq_refl) as [m Hm]. rewrite Hm.
    destruct (Hrollup eq_refl eq_refl) as [r Hr]. rewrite Hr.
    rewrite ?decide_True by done; rewrite ?decide_False by done; simpl.
    eexists _, _; (split; [reflexivity|]); simpl.
    repeat split; intros; try done; [by exists m | by exists r].
Qed.

(** ** The new-transactions arm of the main loop *)

(** Without an interrupt word the loop runs to a break and touches nothing
    of the worker but the pending-logs feed. *)
Lemma commitTransactions_no_interrupt (iter : nat) (w : worker) (env : environment)
    (txset : TransactionsByPriceAndNonce) :
  is_Some (state env) → is_Some (signer env) →
  ∃ s', commitTransactions_from iter w env txset None = Done (s', false) ∧
    is_Some (state (ls_env s')) ∧
    (ls_worker s' = w ∨
     ∃ logs, ls_worker s' = set_pendingLogsFeed w (pendingLogsFeed w ++ [logs])).
Proof.
  intros Hst Hsg. unfold commitTransactions_from.
  set (env1 := match gasPool env with
               | None => set_gasPool env (Some (GasLimit (header env)))
               | Some _ => env
               end).
  assert (loop_ready (mkLoopState w env1 txset [] iter)) as Hready.
  { unfold loop_ready, env1. simpl. destruct (gasPool env) eqn:Hgp; simpl;
      rewrite ?Hgp; eauto. }
  destruct (commitTransactions_loop_nil (S (txset_len txset)) _ Hready)
    as (s' & -> & Hready' & Hw); [simpl; lia|].
  go_simpl. simpl in Hw.
  eexists. split; [reflexivity|]. simpl. split; [apply Hready'|].
  rewrite Hw. destruct (negb _ && _); eauto.
Qed.

Lemma bucketBySender_returns (sg : Signer) (evTxs : list Transaction)
    (txs : gmap N (list Transaction)) :
  ∃ txs', bucketBySender (Some sg) evTxs txs = Done txs'.
Proof.
  revert txs. induction evTxs as [|tx rest IH]; intros txs; simpl; [by eexists|].
  apply IH.
Qed.

(** C8, as the code has it.  A new-transactions event adds the number of its
    transactions to [newTxs] (in int32 arithmetic), whether or not the
    worker is sealing and whether or not it has a current environment,
    except when the worker is idle and the gas pool of its current
    environment is below [TxGas]: then the event is dropped and the worker,
    its counter included, stays as it was. *)
Theorem txsCh_counts_newTxs (nodeCtx : NodeCtx) (w : worker)
    (evTxs : list Transaction) :
  (∀ cur, current w = Some cur → is_Some (state cur) ∧ is_Some (signer cur)) →
  ∃ w', mainLoop_txsCh nodeCtx w evTxs = Done w' ∧
    (txsCh_dropped w = true → w' = w) ∧
    (txsCh_dropped w = false →
     newTxs w' = wrap32 (newTxs w + wrap32 (Z.of_nat (length evTxs)))).
Proof.
  intros Hcur. unfold mainLoop_txsCh, txsCh_dropped.
  destruct (isRunning w) eqn:Hrun; simpl.
  { eexists. split; [reflexivity|]. split; [done|]. by intros _. }
  destruct (current w) as [cur|] eqn:Hc.
  2:{ eexists. split; [reflexivity|]. split; [done|]. by intros _. }
  destruct (Hcur cur eq_refl) as [Hst [sg Hsg]].
  destruct (gasPool cur) as [gp|] eqn:Hgp.
  - case_bool_decide.
    { eexists. split; [reflexivity|]. split; [done|]. by intros ?. }
    rewrite Hsg. destruct (bucketBySender_returns sg evTxs ∅) as [txs ->]. go_simpl.
    destruct (commitTransactions_no_interrupt 0 w cur
                (NewTransactionsByPriceAndNonce (Some sg) txs (BaseFee (header cur)) false)
                Hst (mk_is_Some _ _ Hsg)) as (s' & Hrun' & [st' Hst'] & Hw).
    unfold commitTransactions. rewrite Hrun'. go_simpl.
    destruct (decide (tcount cur ≠ tcount (ls_env s'))).
    + unfold updateSnapshot. destruct (decide (nodeCtx = ZONE_CTX)).
      * simpl. rewrite Hst'. go_simpl. eexists. split; [reflexivity|].
        split; [done|]. intros _. simpl. by destruct Hw as [-> | [logs ->]].
      * go_simpl. eexists. split; [reflexivity|].
        split; [done|]. intros _. simpl. by destruct Hw as [-> | [logs ->]].
    + go_simpl. eexists. split; [reflexivity|].
      split; [done|]. intros _. simpl. by destruct Hw as [-> | [logs ->]].
  - rewrite Hsg. destruct (bucketBySender_returns sg evTxs ∅) as [txs ->]. go_simpl.
    destruct (commitTransactions_no_interrupt 0 w cur
                (NewTransactionsByPriceAndNonce (Some sg) txs (BaseFee (header cur)) false)
                Hst (mk_is_Some _ _ Hsg)) as (s' & Hrun' & [st' Hst'] & Hw).
    unfold commitTransactions. rewrite Hrun'. go_simpl.
    destruct (decide (tcount cur ≠ tcount (ls_env s'))).
    + unfold updateSnapshot. destruct (decide (nodeCtx = ZONE_CTX)).
      * simpl. rewrite Hst'. go_simpl. eexists. split; [reflexivity|].
        split; [done|]. intros _. simpl. by destruct Hw as [-> | [logs ->]].
      * go_simpl. eexists. split; [reflexivity|].
        split; [done|]. intros _. simpl. by destruct Hw as [-> | [logs ->]].
    + go_simpl. eexists. split; [reflexivity|].
      split; [done|]. intros _. simpl. by destruct Hw as [-> | [logs ->]].
Qed.

(** ** The pending-body cache and its persistence *)

Lemma lru_assoc_None {V} (key : Hash) (items : list (Hash * V)) :
  lru_assoc key items = None ↔ key ∉ items.*1.
Proof.
  induction items as [|[k v] rest IH]; simpl.
  - split; [intros _; apply not_elem_of_nil | done].
  - rewrite not_elem_of_cons. case_decide as Hk.
    + split; [done | by intros [? _]].
    + rewrite IH. split; [by split; [congruence|] | by intros [_ ?]].
Qed.

Lemma lru_assoc_Some {V} (key : Hash) (v : V) (items : list (Hash * V)) :
  NoDup items.*1 → (key, v) ∈ items → lru_assoc key items = Some v.
Proof.
  induction items as [|[k v'] rest IH]; simpl; intros Hnd Hin.
  - by apply elem_of_nil in Hin.
  - apply NoDup_cons in Hnd as [Hk Hnd]. apply elem_of_cons in Hin as [[= <- <-]|Hin].
    + by rewrite decide_True.
    + rewrite decide_False; [by apply IH|].
      intros ->. apply Hk. apply list_elem_of_fmap. by exists (key, v).
Qed.

Lemma lru_assoc_fmap {V} (f : Hash → V → V) (key : Hash) (items : list (Hash * V)) :
  lru_assoc key ((λ kv, (kv.1, f kv.1 kv.2)) <$> items) = f key <$> lru_assoc key items.
Proof.
  induction items as [|[k v] rest IH]; simpl; [done|].
  case_decide; subst; [done | exact IH].
Qed.

(** Adding fresh keys one after the other to a cache with room for them puts
    them in front, the last one first. *)
Lemma lru_Add_fold_fresh {V} (f : Hash → V) (keys : list Hash) (size : nat)
    (items : list (Hash * V)) :
  NoDup keys → (∀ key, key ∈ keys → key ∉ items.*1) →
  (length items + length keys ≤ size)%nat →
  foldl (λ c key, (lru_Add c key (f key)).1) (mkLru size items) keys
  = mkLru size (reverse ((λ key, (key, f key)) <$> keys) ++ items).
Proof.
  revert items. induction keys as [|key rest IH]; intros items Hnd Hfresh Hlen; [done|].
  apply NoDup_cons in Hnd as [Hkey Hnd]. simpl in *.
  unfold lru_Add at 2. unfold lru_Peek. simpl.
  rewrite (proj2 (lru_assoc_None key items)) by (apply Hfresh; left).
  rewrite decide_False by (simpl; lia). simpl.
  rewrite IH; [|done| |simpl; lia].
  - by rewrite reverse_cons, <- app_assoc.
  - intros k Hk. simpl. rewrite not_elem_of_cons. split.
    + intros ->. done.
    + apply Hfresh. by right.
Qed.

(** The blobs [StorePendingBlockBody] writes for a list of cached keys. *)
Lemma StorePendingBlockBody_fold (cache : lru (option Body)) (keys : list Hash)
    (db : Database) (acc : list Hash) :
  (∀ key, key ∈ keys → is_Some (lru_Peek cache key)) →
  ∃ db', foldl (StorePendingBlockBody_step cache) (db, acc) keys = (db', acc ++ keys) ∧
    db_pbBodyKeys db' = db_pbBodyKeys db ∧
    ∀ key, db_pbCacheBody db' !! key =
           if decide (key ∈ keys ∧ key ≠ EmptyBodyHash)
           then lru_Peek cache key else db_pbCacheBody db !! key.
Proof.
  revert db acc. induction keys as [|k rest IH]; intros db acc Hin; cbn [foldl].
  - exists db. rewrite app_nil_r. split; [done|]. split; [done|]. intros key.
    rewrite decide_False; [done|]. intros [[]%elem_of_nil _].
  - unfold StorePendingBlockBody_step at 2.
    destruct (Hin k) as [value Hvalue]; [apply elem_of_cons; by left|].
    rewrite Hvalue. cbn [fst snd].
    set (db1 := if decide (k ≠ EmptyBodyHash) then WritePbCacheBody db k value else db).
    destruct (IH db1 (acc ++ [k])) as (db' & -> & Hkeys & Hblobs).
    { intros key Hkey. apply Hin. apply elem_of_cons. by right. }
    exists db'. split; [by rewrite <- app_assoc|]. split.
    { rewrite Hkeys. subst db1. by destruct (decide (k ≠ EmptyBodyHash)). }
    intros key. rewrite Hblobs.
    assert (db_pbCacheBody db1 !! key
            = if decide (key = k ∧ key ≠ EmptyBodyHash) then Some value
              else db_pbCacheBody db !! key) as ->.
    { subst db1. destruct (decide (k ≠ EmptyBodyHash)) as [Hk|Hk]; simpl.
      - destruct (decide (key = k)) as [->|Hne].
        + by rewrite lookup_insert_eq, decide_True.
        + rewrite lookup_insert_ne by done. rewrite decide_False; [done|].
          by intros [? _].
      - rewrite decide_False; [done|]. by intros [-> ?]. }
    destruct (decide (key ∈ rest ∧ key ≠ EmptyBodyHash)) as [[HA ?]|HA],
             (decide (key = k ∧ key ≠ EmptyBodyHash)) as [[-> ?]|HB],
             (decide (_ ∈ k :: rest ∧ _ ≠ EmptyBodyHash)) as [[HC ?]|HC];
      try done.
    + destruct HC. split; [apply elem_of_cons; by left | done].
    + destruct HC. split; [apply elem_of_cons; by right | done].
    + destruct HC. split; [apply elem_of_cons; by left | done].
    + apply elem_of_cons in HC as [->|HC]; [by destruct HB | by destruct HA].
Qed.

(** What [LoadPendingBlockBody] does with a list of distinct keys: it adds
    each with the body read from the store as it was before the load, and
    deletes their blobs. *)
Lemma LoadPendingBlockBody_fold (keys : list Hash) (cache : lru (option Body))
    (db db0 : Database) :
  NoDup keys →
  (∀ key, key ∈ keys → ReadPbCacheBody db key = ReadPbCacheBody db0 key) →
  foldl LoadPendingBlockBody_step (cache, db) keys
  = (foldl (λ c key, (lru_Add c key (rehydrate key (ReadPbCacheBody db0 key))).1)
           cache keys,
     mkDatabase (db_pbBodyKeys db) (foldl (λ m key, delete key m) (db_pbCacheBody db) keys)).
Proof.
  revert cache db. induction keys as [|k rest IH]; intros cache db Hnd Hread; simpl.
  - by destruct db.
  - apply NoDup_cons in Hnd as [Hk Hnd].
    unfold LoadPendingBlockBody_step at 2. simpl.
    rewrite IH; [|done|].
    + simpl. unfold rehydrate.
      rewrite (Hread k) by (apply elem_of_cons; by left). done.
    + intros key Hkey. rewrite <- Hread by (apply elem_of_cons; by right).
      unfold ReadPbCacheBody, DeletePbCacheBody. simpl.
      rewrite lookup_delete_ne; [done|]. intros ->. done.
Qed.

Lemma delete_fold_lookup (keys : list Hash) (m : gmap N (option Body)) (key : Hash) :
  foldl (λ m key, delete key m) m keys !! key
  = if decide (key ∈ keys) then None else m !! key.
Proof.
  revert m. induction keys as [|k rest IH]; intros m; cbn [foldl].
  - rewrite decide_False; [done | apply not_elem_of_nil].
  - rewrite IH. destruct (decide (key ∈ rest)).
    + rewrite decide_True; [done | apply elem_of_cons; by right].
    + destruct (decide (key = k)) as [->|Hne].
      * rewrite lookup_delete_eq. rewrite decide_True; [done | apply elem_of_cons; by left].
      * rewrite lookup_delete_ne by done. rewrite decide_False; [done|].
        intros [?|?]%elem_of_cons; done.
Qed.

(** C6, as the code has it.  Store the cache, restart with an empty cache of
    the same size, and load: every key is cached again with the body it had
    (the empty body under the empty-body fingerprint), in the same order of
    recency, and no stored key has a body blob left in the store.  The keys
    index that was stored stays in the store: the load does not delete it. *)
Theorem StorePendingBlockBody_then_Load (w : worker) :
  lru_wf (pendingBlockBody w) →
  let cache := pendingBlockBody w in
  let stored := StorePendingBlockBody w in
  let restarted := set_pendingBlockBody stored (lru_New (lru_size cache)) in
  let loaded := LoadPendingBlockBody restarted in
  (∀ key, lru_Peek (pendingBlockBody loaded) key = rehydrate key <$> lru_Peek cache key) ∧
  lru_Keys (pendingBlockBody loaded) = lru_Keys cache ∧
  (∀ key, key ∈ lru_Keys cache → db_pbCacheBody (workerDb loaded) !! key = None) ∧
  (∀ key, key ∉ lru_Keys cache →
          db_pbCacheBody (workerDb loaded) !! key = db_pbCacheBody (workerDb w) !! key) ∧
  db_pbBodyKeys (workerDb loaded) = Some (lru_Keys cache).
Proof.
  intros [Hnd Hlen] cache stored restarted loaded.
  assert (∀ key, key ∈ lru_Keys cache → is_Some (lru_Peek cache key)) as Hpeek.
  { intros key Hkey. unfold lru_Keys in Hkey. rewrite elem_of_reverse in Hkey.
    apply not_eq_None_Some. unfold lru_Peek. rewrite lru_assoc_None.
    intros Hnot. by apply Hnot. }
  destruct (StorePendingBlockBody_fold cache (lru_Keys cache) (workerDb w) [] Hpeek)
    as (db1 & Hstore & Hkeys1 & Hblobs1).
  assert (workerDb stored = WritePbBodyKeys db1 (lru_Keys cache)) as Hdb.
  { subst stored. unfold StorePendingBlockBody. fold cache. by rewrite Hstore. }
  assert (NoDup (lru_Keys cache)) as Hndk.
  { unfold lru_Keys. by rewrite reverse_Permutation. }
  assert (loaded = set_workerDb
            (set_pendingBlockBody restarted
               (mkLru (lru_size cache)
                  ((λ kv, (kv.1, rehydrate kv.1 kv.2)) <$> lru_items cache)))
            (mkDatabase (Some (lru_Keys cache))
               (foldl (λ m key, delete key m) (db_pbCacheBody db1) (lru_Keys cache))))
    as Hloaded.
  { subst loaded. unfold LoadPendingBlockBody.
    replace (workerDb restarted) with (WritePbBodyKeys db1 (lru_Keys cache)).
    replace (pendingBlockBody restarted) with (@lru_New (option Body) (lru_size cache)) by done.
    unfold ReadPbBodyKeys. cbn [WritePbBodyKeys db_pbBodyKeys default].
    rewrite (LoadPendingBlockBody_fold _ _ _ db1) by done.
    unfold lru_New.
    rewrite (lru_Add_fold_fresh (λ key, rehydrate key (ReadPbCacheBody db1 key)));
      [|done|intros; apply not_elem_of_nil|].
    2:{ simpl. unfold lru_Keys. rewrite length_reverse, length_fmap. done. }
    simpl. do 3 f_equal. rewrite app_nil_r. unfold lru_Keys.
    rewrite <- fmap_reverse, reverse_involutive, <- list_fmap_compose.
    apply list_fmap_ext. intros i [k v] Hkv%list_elem_of_lookup_2. simpl. f_equal.
    unfold rehydrate. case_decide as Hk; [done|].
    unfold ReadPbCacheBody. rewrite Hblobs1. rewrite decide_True.
    - unfold lru_Peek. by rewrite (lru_assoc_Some k v).
    - split; [|done]. unfold lru_Keys. rewrite elem_of_reverse.
      apply list_elem_of_fmap. by exists (k, v). }
  rewrite Hloaded. simpl. repeat split.
  - intros key. unfold lru_Peek. simpl. apply lru_assoc_fmap.
  - unfold lru_Keys. simpl. by rewrite <- list_fmap_compose.
  - intros key Hkey. rewrite delete_fold_lookup. by rewrite decide_True.
  - intros key Hkey. rewrite delete_fold_lookup. rewrite decide_False by done.
    rewrite Hblobs1. rewrite decide_False; [done|]. intros [? _]. done.
Qed.
End Properties.

(** * Further properties of the worker *)

Section MoreProperties.
Context {SO : StateOps} {TO : TypesOps} {TS : TxSetOps} {CO : ChainOps}
        {PO : PoolOps} {EN : Engine}.

(** ** What a run of the inclusion loop does to the environment *)

Lemma env_frame_refl (env : environment) : env_frame env env.
Proof. by repeat split. Qed.

Lemma env_frame_trans (env1 env2 env3 : environment) :
  env_frame env1 env2 → env_frame env2 env3 → env_frame env1 env3.
Proof.
  unfold env_frame. intros (?&?&?&?&?&?&?&?&?) (?&?&?&?&?&?&?&?&?).
  repeat split; congruence.
Qed.

Lemma commitTransaction_effect (env : environment) (tx : Transaction) :
  is_Some (state env) →
  ∃ env' logs err,
    commitTransaction env (Some tx) = Done (env', (logs, err)) ∧
    is_Some (state env') ∧ (is_Some (gasPool env) → is_Some (gasPool env')) ∧
    tcount env' = tcount env ∧ env_frame env env' ∧
    ((err ≠ None ∧ logs = [] ∧ txs env' = txs env ∧ receipts env' = receipts env ∧
      etxs env' = etxs env ∧ header env' = header env) ∨
     (err = None ∧ ∃ receipt, logs = Logs receipt ∧ txs env' = txs env ++ [tx] ∧
      receipts env' = receipts env ++ [receipt])).
Proof.
  intros [st Hst]. unfold commitTransaction. rewrite Hst. go_simpl.
  destruct (StateDB_Snapshot st) as [snap st1].
  destruct (ar_result _) as [receipt|e].
  - eexists _, _, _. split; [reflexivity|].
    destruct (decide (Status receipt = ReceiptStatusSuccessful)); simpl.
    all: split; [by eexists|]; split; [by intros [? ->]; eexists|]; split; [done|].
    all: split; [by repeat split|]; right; split; [done|]; by exists receipt.
  - eexists _, _, _. split; [reflexivity|]. simpl.
    split; [by eexists|]. split; [by intros [? ->]; eexists|]. split; [done|].
    split; [by repeat split|]. left. by repeat split.
Qed.

Lemma commitTransactions_attempt_effect (s : loop_state) :
  loop_ready s →
  commitTransactions_attempt s = Done (Break s) ∨
  ∃ s', commitTransactions_attempt s = Done (Continue s') ∧
    loop_ready s' ∧ ls_worker s' = ls_worker s ∧ ls_iter s' = ls_iter s ∧
    (txset_len (ls_txs s') < txset_len (ls_txs s))%nat ∧
    env_frame (ls_env s) (ls_env s') ∧
    ((txs (ls_env s') = txs (ls_env s) ∧ receipts (ls_env s') = receipts (ls_env s) ∧
      tcount (ls_env s') = tcount (ls_env s) ∧
      ls_coalescedLogs s' = ls_coalescedLogs s) ∨
     (∃ tx receipt,
        txs (ls_env s') = txs (ls_env s) ++ [tx] ∧
        receipts (ls_env s') = receipts (ls_env s) ++ [receipt] ∧
        tcount (ls_env s') = wrap_int (tcount (ls_env s) + 1) ∧
        ls_coalescedLogs s' = ls_coalescedLogs s ++ Logs receipt)).
Proof.
  intros ([st Hst] & [sg Hsg] & [gp Hgp]).
  unfold commitTransactions_attempt. rewrite Hgp. go_simpl.
  destruct (decide (gp < TxGas)); [by left|].
  destruct (Peek (ls_txs s)) as [tx|] eqn:Hpeek; [|by left].
  right. rewrite Hsg, Hst. go_simpl.
  match goal with
  | |- context [commitTransaction ?e (Some tx)] =>
      destruct (commitTransaction_effect e tx)
        as (env' & logs & err & -> & Hstate & Hpool & Htc & Hframe & Hcases);
        [simpl; eauto|]
  end.
  simpl in Hpool, Htc, Hframe, Hcases.
  assert (is_Some (gasPool env')) as Hpool' by (apply Hpool; rewrite Hgp; eauto).
  assert (signer env' = Some sg) as Hsg'.
  { destruct Hframe as (-> & _). done. }
  pose proof (Pop_len (ls_txs s) (mk_is_Some _ _ Hpeek)) as Hpop.
  pose proof (Shift_len (ls_txs s) (Sender sg tx) false (mk_is_Some _ _ Hpeek)) as Hshift.
  go_simpl.
  destruct Hcases as [(Herr & -> & Htxs & Hrec & _) | (-> & receipt & -> & Htxs & Hrec)].
  - destruct (errors_Is err (Some ErrGasLimitReached));
      [|destruct (errors_Is err (Some ErrNonceTooLow));
        [|destruct (errors_Is err (Some ErrNonceTooHigh));
          [|destruct (errors_Is err None) eqn:Hnil;
            [by apply errors_Is_nil in Hnil
            |destruct (errors_Is err (Some ErrTxTypeNotSupported))]]]].
    all: eexists; split; [reflexivity|]; unfold loop_ready; simpl;
      rewrite ?Hsg'; repeat split; eauto; try apply Hframe.
  - simpl. eexists; split; [reflexivity|]; unfold loop_ready; simpl.
    rewrite ?Hsg'. repeat split; eauto; try apply Hframe.
    right. exists tx, receipt. by rewrite Htc.
Qed.

Lemma send_returns_nil (w : worker) : send_returns None w.
Proof. right. intros load. done. Qed.

Lemma send_returns_clear (w : worker) :
  send_returns (Some (λ _, commitInterruptNone)) w.
Proof. right. intros load. done. Qed.

Lemma commitTransactions_interrupt_clear (interrupt : option (nat → Z))
    (load : nat) (s : loop_state) :
  interrupt_word interrupt load = commitInterruptNone →
  commitTransactions_interrupt
    ((λ f, (f load, f (S load), f (S (S load)))) <$> interrupt) s
  = Done (Continue s).
Proof.
  intros Hclear. unfold commitTransactions_interrupt.
  destruct interrupt as [f|]; simpl in *; [|done].
  rewrite Hclear. by rewrite decide_False by (intros ?; done).
Qed.

Lemma commitTransactions_interrupt_outcome (interrupt : option (nat → Z))
    (load : nat) (s : loop_state) :
  is_Some (gasPool (ls_env s)) →
  let loads := (λ f, (f load, f (S load), f (S (S load)))) <$> interrupt in
  commitTransactions_interrupt loads s = Done (Continue s) ∨
  (∃ w' result,
     commitTransactions_interrupt loads s
     = Done (Return (mkLoopState w' (ls_env s) (ls_txs s) (ls_coalescedLogs s)
                       (S (S (ls_iter s))))
                    result)) ∨
  (commitTransactions_interrupt loads s = Diverge ∧
   (resubmitAdjustChanSize ≤ length (resubmitAdjustCh (ls_worker s)))%nat ∧
   ∃ f, interrupt = Some f ∧ f load ≠ commitInterruptNone ∧
        f (S load) = commitInterruptResubmit).
Proof.
  intros [gp Hgp]. unfold commitTransactions_interrupt.
  destruct interrupt as [f|]; [|by left]. cbn [fmap option_fmap option_map].
  destruct (decide (f load ≠ commitInterruptNone)); [|by left].
  right. destruct (decide (f (S load) = commitInterruptResubmit)) as [Hre|Hre].
  - rewrite Hgp. go_simpl. unfold resubmitAdjustCh_send.
    destruct (decide (length (resubmitAdjustCh (ls_worker s))
                      < resubmitAdjustChanSize)%nat); go_simpl.
    + left. by eexists _, _.
    + right. split; [done|]. split; [lia|]. by exists f.
  - go_simpl. left. by eexists _, _.
Qed.

(** What a run is held up by: nothing but the send, on a full channel, of a
    test that read Resubmit. *)
Lemma send_returns_not_blocked (interrupt : option (nat → Z)) (w : worker)
    (f : nat → Z) (k : nat) :
  (resubmitAdjustChanSize ≤ length (resubmitAdjustCh w))%nat →
  interrupt = Some f → f (S k) = commitInterruptResubmit →
  ¬ send_returns interrupt w.
Proof.
  intros Hfull -> Hre [Hroom|Hnever]; [lia|]. by destruct (Hnever (S k)).
Qed.

Lemma commitTransactions_loop_effect (fuel : nat) (interrupt : option (nat → Z))
    (s : loop_state) :
  loop_ready s → (txset_len (ls_txs s) < fuel)%nat →
  (∃ s' r addedTxs addedReceipts,
     commitTransactions_loop fuel interrupt s = Done (s', r) ∧
     txs (ls_env s') = txs (ls_env s) ++ addedTxs ∧
     receipts (ls_env s') = receipts (ls_env s) ++ addedReceipts ∧
     length addedTxs = length addedReceipts ∧
     (length addedTxs + txset_len (ls_txs s') ≤ txset_len (ls_txs s))%nat ∧
     (- 2 ^ 63 ≤ tcount (ls_env s) →
      tcount (ls_env s) + Z.of_nat (txset_len (ls_txs s)) < 2 ^ 63 →
      tcount (ls_env s') = tcount (ls_env s) + Z.of_nat (length addedTxs)) ∧
     ls_coalescedLogs s' = ls_coalescedLogs s ++ concat (Logs <$> addedReceipts) ∧
     env_frame (ls_env s) (ls_env s')) ∨
  (commitTransactions_loop fuel interrupt s = Diverge ∧
   (resubmitAdjustChanSize ≤ length (resubmitAdjustCh (ls_worker s)))%nat ∧
   ∃ f k, interrupt = Some f ∧ (ls_iter s ≤ k)%nat ∧
          f k ≠ commitInterruptNone ∧ f (S k) = commitInterruptResubmit).
Proof.
  revert s. induction fuel as [|fuel IH]; intros s Hready Hlen; [lia|].
  cbn [commitTransactions_loop]. unfold commitTransactions_iteration.
  set (s1 := mkLoopState (ls_worker s) (ls_env s) (ls_txs s)
               (ls_coalescedLogs s) (S (ls_iter s))).
  assert (loop_ready s1) as Hready1 by exact Hready.
  assert (∀ s', ls_env s' = ls_env s → ls_txs s' = ls_txs s →
                ls_coalescedLogs s' = ls_coalescedLogs s →
            txs (ls_env s') = txs (ls_env s) ++ [] ∧
            receipts (ls_env s') = receipts (ls_env s) ++ [] ∧
            length (@nil Transaction) = length (@nil Receipt) ∧
            (length (@nil Transaction) + txset_len (ls_txs s') ≤ txset_len (ls_txs s))%nat ∧
            (- 2 ^ 63 ≤ tcount (ls_env s) →
             tcount (ls_env s) + Z.of_nat (txset_len (ls_txs s)) < 2 ^ 63 →
             tcount (ls_env s') = tcount (ls_env s) + Z.of_nat (length (@nil Transaction))) ∧
            ls_coalescedLogs s' = ls_coalescedLogs s ++ concat (Logs <$> []) ∧
            env_frame (ls_env s) (ls_env s')) as Hstay.
  { intros s' -> -> ->. rewrite !app_nil_r. simpl.
    repeat split; try done; lia. }
  assert (is_Some (gasPool (ls_env s1))) as Hpool1 by apply Hready.
  destruct (commitTransactions_interrupt_outcome interrupt (ls_iter s) s1 Hpool1)
    as [-> | [(w' & result & ->) | (-> & Hfull & f & -> & Hfirst & Hsecond)]];
    go_simpl.
  2:{ left. eexists _, _, [], []. split; [reflexivity|]. by apply Hstay. }
  2:{ right. split; [done|]. split; [exact Hfull|]. by exists f, (ls_iter s). }
  destruct (commitTransactions_attempt_effect s1 Hready1)
    as [-> | (s2 & -> & Hready2 & Hw & Hiter & Hdec & Hframe & Hstep)]; go_simpl.
  { left. eexists _, _, [], []. split; [reflexivity|]. by apply Hstay. }
  simpl in Hdec, Hframe, Hstep, Hw, Hiter.
  destruct (IH s2 Hready2)
    as [(s' & r & added & addedR & -> & Ht & Hr & Hl & Hn & Hc & Hlg & Hf)
       | (-> & Hfull & f & k & -> & Hk & Hfirst & Hsecond)];
    [lia| |].
  2:{ right. split; [done|]. split; [by rewrite <- Hw|].
      exists f, k. split; [done|]. split; [lia|]. done. }
  left. pose proof (env_frame_trans _ _ _ Hframe Hf) as Hft.
  destruct Hstep as [(Htxs & Hrec & Htc & Hlogs) | (tx & receipt & Htxs & Hrec & Htc & Hlogs)].
  - exists s', r, added, addedR. split; [done|].
    rewrite Ht, Hr, Hlg, Htxs, Hrec, Hlogs.
    split; [done|]. split; [done|]. split; [done|]. split; [lia|].
    split; [|by split].
    intros Hlow Hhigh. rewrite Hc, Htc; lia.
  - exists s', r, (tx :: added), (receipt :: addedR). split; [done|].
    rewrite Ht, Hr, Hlg, Htxs, Hrec, Hlogs. simpl.
    rewrite <- !app_assoc. simpl.
    split; [done|]. split; [done|]. split; [lia|]. split; [lia|].
    split; [|by split].
    intros Hlow Hhigh.
    assert (wrap_int (tcount (ls_env s) + 1) = tcount (ls_env s) + 1) as Hwrap
      by (apply wrap_int_small; lia).
    rewrite Hwrap in Htc. rewrite Hc, Htc; lia.
Qed.

(** The whole run, from the entry of [commitTransactions]: it returns with
    the same facts, or it is held up at the send. *)
Lemma commitTransactions_from_outcome (iter : nat) (w : worker) (env : environment)
    (txset : TransactionsByPriceAndNonce) (interrupt : option (nat → Z)) :
  is_Some (state env) → is_Some (signer env) →
  (∃ s' result addedTxs addedReceipts,
     commitTransactions_from iter w env txset interrupt = Done (s', result) ∧
     txs (ls_env s') = txs env ++ addedTxs ∧
     receipts (ls_env s') = receipts env ++ addedReceipts ∧
     length addedTxs = length addedReceipts ∧
     (length addedTxs ≤ txset_len txset)%nat ∧
     (- 2 ^ 63 ≤ tcount env → tcount env + Z.of_nat (txset_len txset) < 2 ^ 63 →
      tcount (ls_env s') = tcount env + Z.of_nat (length addedTxs)) ∧
     ls_coalescedLogs s' = concat (Logs <$> addedReceipts) ∧
     env_frame env (ls_env s')) ∨
  (commitTransactions_from iter w env txset interrupt = Diverge ∧
   ¬ send_returns interrupt w).
Proof.
  intros Hst Hsg. unfold commitTransactions_from.
  set (env1 := match gasPool env with
               | None => set_gasPool env (Some (GasLimit (header env)))
               | Some _ => env
               end).
  assert (loop_ready (mkLoopState w env1 txset [] iter)) as Hready.
  { unfold loop_ready, env1. simpl. destruct (gasPool env) eqn:Hgp; simpl;
      rewrite ?Hgp; eauto. }
  assert (txs env1 = txs env ∧ receipts env1 = receipts env ∧ tcount env1 = tcount env ∧
          env_frame env env1) as (Ht1 & Hr1 & Hc1 & Hf1).
  { unfold env1. destruct (gasPool env); by repeat split. }
  destruct (commitTransactions_loop_effect (S (txset_len txset)) interrupt _ Hready)
    as [(s' & r & added & addedR & -> & Ht & Hr & Hl & Hn & Hc & Hlg & Hf)
       | (-> & Hfull & f & k & Hword & _ & _ & Hsecond)];
    [simpl; lia| |].
  2:{ right. split; [done|]. exact (send_returns_not_blocked _ _ f k Hfull Hword Hsecond). }
  left. simpl in Ht, Hr, Hn, Hc, Hlg, Hf. rewrite Ht1 in Ht. rewrite Hr1 in Hr.
  rewrite Hc1 in Hc.
  pose proof (env_frame_trans _ _ _ Hf1 Hf) as Hft.
  go_simpl. destruct r as [result|]; eexists _, _, added, addedR;
    (split; [reflexivity|]); simpl; repeat split; try done; try lia;
    apply Hft.
Qed.

(** With room in the channel, or with no load that reads Resubmit, the run
    returns. *)
Lemma commitTransactions_from_effect (iter : nat) (w : worker) (env : environment)
    (txset : TransactionsByPriceAndNonce) (interrupt : option (nat → Z)) :
  is_Some (state env) → is_Some (signer env) → send_returns interrupt w →
  ∃ s' result addedTxs addedReceipts,
    commitTransactions_from iter w env txset interrupt = Done (s', result) ∧
    txs (ls_env s') = txs env ++ addedTxs ∧
    receipts (ls_env s') = receipts env ++ addedReceipts ∧
    length addedTxs = length addedReceipts ∧
    (length addedTxs ≤ txset_len txset)%nat ∧
    (- 2 ^ 63 ≤ tcount env → tcount env + Z.of_nat (txset_len txset) < 2 ^ 63 →
     tcount (ls_env s') = tcount env + Z.of_nat (length addedTxs)) ∧
    ls_coalescedLogs s' = concat (Logs <$> addedReceipts) ∧
    env_frame env (ls_env s').
Proof.
  intros Hst Hsg Hsend.
  by destruct (commitTransactions_from_outcome iter w env txset interrupt Hst Hsg)
    as [Hdone | [_ Hblocked]].
Qed.

(** X1.  Started on an environment with a state and a signer, a run of
    [commitTransactions] returns, and it only appends to the transaction and
    receipt lists, one receipt per transaction, so lists of equal length stay
    of equal length; it appends no more transactions than the iterator holds.
    The one run that does not return is held up at the send on the resubmit
    channel: that needs a full channel and a load that reads Resubmit. *)
Theorem commitTransactions_appends_in_step (iter : nat) (w : worker)
    (env : environment) (txset : TransactionsByPriceAndNonce)
    (interrupt : option (nat → Z)) :
  is_Some (state env) → is_Some (signer env) →
  (∃ s' result addedTxs addedReceipts,
     commitTransactions_from iter w env txset interrupt = Done (s', result) ∧
     txs (ls_env s') = txs env ++ addedTxs ∧
     receipts (ls_env s') = receipts env ++ addedReceipts ∧
     length addedTxs = length addedReceipts ∧
     (length addedTxs ≤ txset_len txset)%nat ∧
     (length (txs env) = length (receipts env) →
      length (txs (ls_env s')) = length (receipts (ls_env s')))) ∨
  (commitTransactions_from iter w env txset interrupt = Diverge ∧
   ¬ send_returns interrupt w).
Proof.
  intros Hst Hsg.
  destruct (commitTransactions_from_outcome iter w env txset interrupt Hst Hsg)
    as [(s' & result & added & addedR & Hrun & Ht & Hr & Hl & Hn & _) | Hblocked];
    [left|by right].
  exists s', result, added, addedR. repeat split; try done.
  intros Heq. rewrite Ht, Hr, !length_app. lia.
Qed.

(** X2.  [tcount] advances by the number of transactions the run appended
    (as long as the count stays within an int), so it is unchanged exactly
    when no transaction was appended: the test the main loop uses to decide
    whether to update the snapshot.  The one run that does not return is
    held up at the send on the resubmit channel: that needs a full channel
    and a load that reads Resubmit. *)
Theorem commitTransactions_tcount_counts (iter : nat) (w : worker)
    (env : environment) (txset : TransactionsByPriceAndNonce)
    (interrupt : option (nat → Z)) :
  is_Some (state env) → is_Some (signer env) →
  - 2 ^ 63 ≤ tcount env → tcount env + Z.of_nat (txset_len txset) < 2 ^ 63 →
  (∃ s' result,
     commitTransactions_from iter w env txset interrupt = Done (s', result) ∧
     tcount (ls_env s') - tcount env
     = Z.of_nat (length (txs (ls_env s'))) - Z.of_nat (length (txs env)) ∧
     (tcount (ls_env s') = tcount env ↔ txs (ls_env s') = txs env)) ∨
  (commitTransactions_from iter w env txset interrupt = Diverge ∧
   ¬ send_returns interrupt w).
Proof.
  intros Hst Hsg Hlow Hhigh.
  destruct (commitTransactions_from_outcome iter w env txset interrupt Hst Hsg)
    as [(s' & result & added & addedR & Hrun & Ht & _ & _ & _ & Hc & _) | Hblocked];
    [left|by right].
  specialize (Hc Hlow Hhigh).
  exists s', result. split; [done|]. rewrite Ht, Hc, length_app. split; [lia|].
  split.
  - intros Heq. assert (length added = 0%nat) as Hnil by lia.
    destruct added; [by rewrite app_nil_r | done].
  - intros Heq. rewrite <- (app_nil_r (txs env)) in Heq at 2.
    apply app_inv_head in Heq as ->. simpl. lia.
Qed.

(** X3.  A run of [commitTransactions] returns and leaves the uncle map, the
    ancestor and family sets, the signer, the coinbase, the sub-manifest, the
    external gas accounting and every header field but the gas used as they
    were.  The one run that does not return is held up at the send on the
    resubmit channel: that needs a full channel and a load that reads
    Resubmit. *)
Theorem commitTransactions_frame (iter : nat) (w : worker)
    (env : environment) (txset : TransactionsByPriceAndNonce)
    (interrupt : option (nat → Z)) :
  is_Some (state env) → is_Some (signer env) →
  (∃ s' result,
     commitTransactions_from iter w env txset interrupt = Done (s', result) ∧
     uncles (ls_env s') = uncles env ∧ ancestors (ls_env s') = ancestors env ∧
     family (ls_env s') = family env ∧ signer (ls_env s') = signer env ∧
     coinbase (ls_env s') = coinbase env ∧ subManifest (ls_env s') = subManifest env ∧
     externalGasUsed (ls_env s') = externalGasUsed env ∧
     externalBlockLength (ls_env s') = externalBlockLength env ∧
     header (ls_env s') = SetGasUsed (header env) (GasUsed (header (ls_env s')))) ∨
  (commitTransactions_from iter w env txset interrupt = Diverge ∧
   ¬ send_returns interrupt w).
Proof.
  intros Hst Hsg.
  destruct (commitTransactions_from_outcome iter w env txset interrupt Hst Hsg)
    as [(s' & result & added & addedR & Hrun & _ & _ & _ & _ & _ & _ & Hf) | Hblocked];
    [left|by right].
  destruct Hf as (?&?&?&?&?&?&?&?&Hh).
  exists s', result. repeat split; try done.
  destruct (header (ls_env s')), (header env). unfold SetGasUsed in *. simpl in *.
  congruence.
Qed.

Lemma copyLogs_id (logs : list Log) : copyLogs logs = logs.
Proof.
  unfold copyLogs. induction logs as [|[] rest IH]; [done|]. simpl. by f_equal.
Qed.

(** X4.  Run without an interrupt word, [commitTransactions] returns [false]
    and sends on the pending-logs feed only when the worker is not sealing
    and the run collected logs: then it sends one batch, the logs of the
    receipts appended in this run, in their order. *)
Theorem commitTransactions_pendingLogs (iter : nat) (w : worker)
    (env : environment) (txset : TransactionsByPriceAndNonce) :
  is_Some (state env) → is_Some (signer env) →
  ∃ s' addedReceipts,
    commitTransactions_from iter w env txset None = Done (s', false) ∧
    receipts (ls_env s') = receipts env ++ addedReceipts ∧
    let logs := concat (Logs <$> addedReceipts) in
    (isRunning w = true → pendingLogsFeed (ls_worker s') = pendingLogsFeed w) ∧
    (logs = [] → pendingLogsFeed (ls_worker s') = pendingLogsFeed w) ∧
    (isRunning w = false → logs ≠ [] →
     pendingLogsFeed (ls_worker s') = pendingLogsFeed w ++ [logs]).
Proof.
  intros Hst Hsg.
  destruct (commitTransactions_from_effect iter w env txset None Hst Hsg
              (send_returns_nil w))
    as (s' & result & added & addedR & Hrun & _ & Hr & _ & _ & _ & Hlg & _).
  revert Hrun. unfold commitTransactions_from.
  set (env1 := match gasPool env with
               | None => set_gasPool env (Some (GasLimit (header env)))
               | Some _ => env
               end).
  assert (loop_ready (mkLoopState w env1 txset [] iter)) as Hready.
  { unfold loop_ready, env1. simpl. destruct (gasPool env) eqn:Hgp; simpl;
      rewrite ?Hgp; eauto. }
  destruct (commitTransactions_loop_nil (S (txset_len txset)) _ Hready)
    as (s1 & -> & _ & Hw); [simpl; lia|].
  go_simpl. simpl in Hw. rewrite Hw.
  intros [= <- <-]. simpl in Hr, Hlg. eexists. exists addedR.
  split; [reflexivity|]. split; [done|]. cbn zeta. simpl. rewrite Hlg.
  destruct (isRunning w); simpl.
  - repeat split; done.
  - destruct (concat (Logs <$> addedR)) as [|l logs] eqn:Hlogs; simpl.
    + repeat split; done.
    + rewrite copyLogs_id. destruct l. simpl. repeat split; done.
Qed.

(** X5.  When the interrupt word holds NewHead at the first test (its first
    load does not read clear, its second does not read Resubmit and its
    third reads NewHead), the run returns [true] at once: no transaction is
    attempted, even from an environment without state, the iterator and the
    worker are untouched and nothing is sent on the resubmit channel. *)
Theorem commitTransactions_newHead_at_entry (iter : nat) (w : worker)
    (env : environment) (txset : TransactionsByPriceAndNonce) (f : nat → Z) :
  f iter ≠ commitInterruptNone → f (S iter) ≠ commitInterruptResubmit →
  f (S (S iter)) = commitInterruptNewHead →
  ∃ s', commitTransactions_from iter w env txset (Some f) = Done (s', true) ∧
    ls_worker s' = w ∧ ls_txs s' = txset ∧
    txs (ls_env s') = txs env ∧ receipts (ls_env s') = receipts env ∧
    etxs (ls_env s') = etxs env ∧ state (ls_env s') = state env ∧
    header (ls_env s') = header env ∧ tcount (ls_env s') = tcount env.
Proof.
  intros Hfirst Hsecond Hthird. unfold commitTransactions_from.
  cbn [commitTransactions_loop].
  unfold commitTransactions_iteration, commitTransactions_interrupt. go_simpl.
  rewrite decide_True by done. rewrite decide_False by done. go_simpl.
  rewrite Hthird. eexists. split; [reflexivity|]. simpl. by destruct (gasPool env).
Qed.

(** X6.  With an interrupt word that reads clear (or none) and a gas pool
    already below [TxGas], the run breaks at once and returns [false]: the
    environment and the iterator are as they were, no transaction is
    attempted, and nothing is sent. *)
Theorem commitTransactions_pool_exhausted (iter : nat) (w : worker)
    (env : environment) (txset : TransactionsByPriceAndNonce)
    (interrupt : option (nat → Z)) (gp : Z) :
  interrupt_word interrupt iter = commitInterruptNone →
  gasPool env = Some gp → gp < TxGas →
  ∃ s', commitTransactions_from iter w env txset interrupt = Done (s', false) ∧
    ls_worker s' = w ∧ ls_env s' = env ∧ ls_txs s' = txset.
Proof.
  intros Hword Hgp Hlow. unfold commitTransactions_from. rewrite Hgp.
  cbn [commitTransactions_loop]. unfold commitTransactions_iteration.
  go_simpl. rewrite (commitTransactions_interrupt_clear interrupt iter _ Hword).
  go_simpl.
  unfold commitTransactions_attempt. go_simpl. rewrite Hgp. go_simpl.
  rewrite decide_True by done. go_simpl.
  eexists. split; [reflexivity|]. simpl. rewrite andb_false_r. done.
Qed.

(** X7.  With a clear interrupt word and an iterator that has no head, the
    run breaks at once and returns [false], whatever the state: the only
    change to the environment is a nil gas pool set to the header's gas
    limit. *)
Theorem commitTransactions_empty_iterator (iter : nat) (w : worker)
    (env : environment) (txset : TransactionsByPriceAndNonce)
    (interrupt : option (nat → Z)) :
  interrupt_word interrupt iter = commitInterruptNone →
  Peek txset = None →
  ∃ s', commitTransactions_from iter w env txset interrupt = Done (s', false) ∧
    ls_worker s' = w ∧ ls_txs s' = txset ∧
    ls_env s' = match gasPool env with
                | None => set_gasPool env (Some (GasLimit (header env)))
                | Some _ => env
                end.
Proof.
  intros Hword Hpeek. unfold commitTransactions_from.
  set (env1 := match gasPool env with
               | None => set_gasPool env (Some (GasLimit (header env)))
               | Some _ => env
               end).
  assert (is_Some (gasPool env1)) as [gp Hgp].
  { unfold env1. destruct (gasPool env) eqn:E; simpl; rewrite ?E; eauto. }
  cbn [commitTransactions_loop]. unfold commitTransactions_iteration.
  go_simpl. rewrite (commitTransactions_interrupt_clear interrupt iter _ Hword).
  go_simpl.
  unfold commitTransactions_attempt. go_simpl. rewrite Hgp. go_simpl.
  rewrite Hpeek. destruct (decide (gp < TxGas)); go_simpl.
  all: eexists; (split; [reflexivity|]); simpl; rewrite andb_false_r; done.
Qed.

(** ** Uncles *)

Lemma commitUncle_keeps_valid (env : environment) (uncle : Header) :
  uncles_valid env → uncles_valid (commitUncle env uncle).1.
Proof.
  intros Hvalid. unfold commitUncle.
  destruct (decide (is_Some _)) as [|Hnew]; [done|].
  destruct (decide (ParentHash _ = _)) as [|Hsib]; [done|].
  destruct (decide (_ ∉ ancestors env)) as [|Hanc]; [done|].
  destruct (decide (_ ∈ family env)) as [|Hfam]; [done|].
  intros hash uncle'. simpl. destruct (decide (hash = HeaderHash uncle)) as [->|Hne].
  - rewrite lookup_insert_eq. intros [= <-]. split; [done|].
    split; [by apply dec_stable|]. split; [by intros ?|done].
  - rewrite lookup_insert_ne by done. apply Hvalid.
Qed.

Lemma commitUncles_keeps_valid (env : environment) (blocks : list (Hash * Block)) :
  uncles_valid env → uncles_valid (commitUncles env blocks).
Proof.
  revert env. induction blocks as [|[hash uncle] rest IH]; intros env Hvalid; [done|].
  simpl. destruct (decide (size (uncles env) = 2%nat)); [done|].
  apply IH. by apply commitUncle_keeps_valid.
Qed.

(** X8.  The loop of [prepareWork] that commits uncles keeps the invariants
    of the uncle map: started on a map of at most two uncles that obey the
    admission rules, it ends on such a map, whatever candidates it is given
    and in whatever order. *)
Theorem commitUncles_keeps_invariants (env : environment)
    (blocks : list (Hash * Block)) :
  uncles_valid env → (size (uncles env) ≤ 2)%nat →
  uncles_valid (commitUncles env blocks) ∧
  (size (uncles (commitUncles env blocks)) ≤ 2)%nat ∧
  ancestors (commitUncles env blocks) = ancestors env ∧
  family (commitUncles env blocks) = family env ∧
  header (commitUncles env blocks) = header env.
Proof.
  intros Hvalid Hsize. split; [|split; [by apply commitUncles_size|]].
  - by apply commitUncles_keeps_valid.
  - clear Hvalid Hsize. revert env. induction blocks as [|[hash uncle] rest IH];
      intros env; [done|].
    simpl. destruct (decide (size (uncles env) = 2%nat)); [done|].
    destruct (IH (commitUncle env (block_header uncle)).1) as (-> & -> & ->).
    unfold commitUncle. by repeat case_decide.
Qed.

(** X9.  The uncle list of an environment that obeys the admission rules has
    one entry per entry of the uncle map, no two of them with the same hash,
    and each of them is an uncle of the map. *)
Theorem unclelist_of_valid (env : environment) :
  uncles_valid env →
  length (unclelist env) = size (uncles env) ∧
  NoDup (HeaderHash <$> unclelist env) ∧
  ∀ uncle, uncle ∈ unclelist env ↔ uncles env !! HeaderHash uncle = Some uncle.
Proof.
  intros Hvalid. unfold unclelist. split; [|split].
  - by rewrite length_fmap, length_map_to_list.
  - assert (HeaderHash <$> (map_to_list (uncles env)).*2 = (map_to_list (uncles env)).*1)
      as ->; [|apply NoDup_fst_map_to_list].
    rewrite <- list_fmap_compose. apply list_fmap_ext.
    intros i [hash uncle] Hin%list_elem_of_lookup_2. simpl.
    apply elem_of_map_to_list in Hin. by destruct (Hvalid hash uncle Hin) as [-> _].
  - intros uncle. rewrite list_elem_of_fmap. split.
    + intros ([hash u] & -> & Hin). simpl. apply elem_of_map_to_list in Hin.
      by destruct (Hvalid hash u Hin) as [-> _].
    + intros Hin. exists (HeaderHash uncle, uncle). split; [done|].
      by apply elem_of_map_to_list.
Qed.

(** ** The LRU cache of pending bodies *)

Lemma removelast_cons_cons {A} (a b : A) (l : list A) :
  removelast (a :: b :: l) = a :: removelast (b :: l).
Proof. done. Qed.

Lemma removelast_take {A} (l : list A) : removelast l = take (pred (length l)) l.
Proof.
  induction l as [|a [|b l] IH]; [done|done|].
  rewrite removelast_cons_cons, IH. done.
Qed.

Lemma lru_remove_keys {V} (key : Hash) (items : list (Hash * V)) :
  (lru_remove key items).*1 = filter (λ k, k ≠ key) items.*1.
Proof.
  induction items as [|[k v] rest IH]; [done|]. simpl.
  rewrite filter_cons. simpl. destruct (decide (k = key)) as [->|Hne].
  - rewrite decide_False by (intros ?; done). exact IH.
  - rewrite decide_True by done. simpl. f_equal. exact IH.
Qed.

Lemma lru_assoc_remove_ne {V} (key key' : Hash) (items : list (Hash * V)) :
  key ≠ key' → lru_assoc key' (lru_remove key items) = lru_assoc key' items.
Proof.
  intros Hne. induction items as [|[k v] rest IH]; [done|]. simpl.
  destruct (decide (k = key)) as [->|Hk].
  - rewrite decide_False by done. exact IH.
  - simpl. by rewrite IH.
Qed.

(** [Add] keeps the keys distinct and the cache within its size. *)
Lemma lru_Add_wf {V} (c : lru V) (key : Hash) (value : V) :
  lru_wf c → lru_wf (lru_Add c key value).1 ∧ lru_size (lru_Add c key value).1 = lru_size c.
Proof.
  intros [Hnd Hlen]. unfold lru_Add, lru_Peek.
  destruct (lru_assoc key (lru_items c)) as [old|] eqn:Hassoc; cbn [fst lru_size].
  - split; [|done]. split; simpl.
    + apply NoDup_cons. rewrite lru_remove_keys. split.
      * rewrite list_elem_of_filter. by intros [? _].
      * by apply NoDup_filter.
    + assert (key ∈ (lru_items c).*1) as Hin.
      { apply dec_stable. intros Hnot. apply lru_assoc_None in Hnot. congruence. }
      assert (length (lru_remove key (lru_items c)).*1 < length (lru_items c).*1)%nat.
      { rewrite lru_remove_keys. clear -Hin.
        induction (lru_items c).*1 as [|k l IH]; [by apply elem_of_nil in Hin|].
        rewrite filter_cons. apply elem_of_cons in Hin as [<-|Hin].
        - rewrite decide_False by (intros ?; done). simpl.
          pose proof (length_filter (λ k, k ≠ key) l). lia.
        - case_decide; simpl; specialize (IH Hin); lia. }
      rewrite !length_fmap in *. lia.
  - apply lru_assoc_None in Hassoc.
    destruct (decide (lru_size c < length ((key, value) :: lru_items c))%nat) as [Hfull|Hroom];
      cbn [fst lru_size]; (split; [|done]); cbn [length] in *.
    + rewrite removelast_take. split; cbn [lru_items lru_size].
      * rewrite fmap_take. eapply sublist_NoDup; [|apply sublist_take].
        rewrite fmap_cons. by apply NoDup_cons.
      * rewrite length_take. cbn [length]. lia.
    + split; cbn [lru_items lru_size]; [|cbn [length]; lia].
      rewrite fmap_cons. by apply NoDup_cons.
Qed.

(** X10.  [AddPendingBlockBody] keeps the cache within its size and its keys
    distinct: the cache of a new worker never holds more than 1024 bodies. *)
Theorem AddPendingBlockBody_keeps_capacity (w : worker) (header : Header)
    (body : option Body) :
  lru_wf (pendingBlockBody w) →
  let w' := AddPendingBlockBody w header body in
  lru_wf (pendingBlockBody w') ∧
  lru_size (pendingBlockBody w') = lru_size (pendingBlockBody w) ∧
  (lru_Len (pendingBlockBody w') ≤ lru_size (pendingBlockBody w))%nat.
Proof.
  intros Hwf. unfold AddPendingBlockBody, lru_ContainsOrAdd. simpl.
  destruct (lru_Contains _ _); simpl.
  - split; [done|]. split; [done|]. apply Hwf.
  - destruct (lru_Add_wf (pendingBlockBody w) (getPendingBlockBodyKey header) body Hwf)
      as [Hwf' Hsize].
    destruct (lru_Add _ _ _) as [c' evicted]. simpl in *.
    split; [done|]. split; [done|]. rewrite <- Hsize. apply Hwf'.
Qed.

(** X11.  A body added for a header is the body [GetPendingBlockBody] returns
    for it, unless the cache already held a body under the header's
    fingerprint: then the earlier body is kept and returned.  Headers with
    the same uncle, transaction and etx roots share the entry. *)
Theorem GetPendingBlockBody_after_Add (w : worker) (header header' : Header)
    (body : option Body) :
  lru_wf (pendingBlockBody w) → (0 < lru_size (pendingBlockBody w))%nat →
  UncleHash header' = UncleHash header → TxHash header' = TxHash header →
  EtxHash header' = EtxHash header →
  (GetPendingBlockBody (AddPendingBlockBody w header body) header').2
  = match lru_Peek (pendingBlockBody w) (getPendingBlockBodyKey header) with
    | Some earlier => earlier
    | None => body
    end.
Proof.
  intros [Hnd Hlen] Hsize Hu Ht He.
  unfold GetPendingBlockBody, AddPendingBlockBody, getPendingBlockBodyKey.
  rewrite Hu, Ht, He. set (key := RlpHash _).
  unfold lru_ContainsOrAdd, lru_Contains. simpl.
  destruct (lru_Peek (pendingBlockBody w) key) as [earlier|] eqn:Hpeek.
  - rewrite bool_decide_eq_true_2 by eauto. simpl.
    unfold lru_Get. by rewrite Hpeek.
  - rewrite bool_decide_eq_false_2 by (by intros [? ?]).
    unfold lru_Add. rewrite Hpeek.
    destruct (decide (lru_size _ < _)%nat) as [Hfull|Hroom].
    + destruct (lru_items (pendingBlockBody w)) as [|item rest] eqn:Hitems;
        [simpl in Hfull; lia|].
      rewrite removelast_cons_cons. unfold lru_Get, lru_Peek.
      cbn [fst snd pendingBlockBody set_pendingBlockBody lru_items lru_assoc].
      by rewrite decide_True.
    + unfold lru_Get, lru_Peek.
      cbn [fst snd pendingBlockBody set_pendingBlockBody lru_items lru_assoc].
      by rewrite decide_True.
Qed.

Lemma set_pendingBlockBody_same (w : worker) :
  set_pendingBlockBody w (pendingBlockBody w) = w.
Proof. by destruct w. Qed.

Lemma set_workerDb_same (w : worker) : set_workerDb w (workerDb w) = w.
Proof. by destruct w. Qed.

(** ** Persistence of the pending bodies *)

Lemma lru_Keys_Peek {V} (c : lru V) (key : Hash) :
  key ∈ lru_Keys c ↔ is_Some (lru_Peek c key).
Proof.
  unfold lru_Keys, lru_Peek. rewrite elem_of_reverse, <- not_eq_None_Some.
  rewrite lru_assoc_None. split; [by intros ? ?|apply dec_stable].
Qed.

(** X12.  [StorePendingBlockBody] leaves the cache as it is, writes the keys
    of the cache, oldest first, as the keys index, and writes the cached body
    of every key but the empty-body fingerprint, for which no blob is
    written; every other blob of the store is left alone. *)
Theorem StorePendingBlockBody_writes (w : worker) :
  let cache := pendingBlockBody w in
  let w' := StorePendingBlockBody w in
  pendingBlockBody w' = cache ∧
  db_pbBodyKeys (workerDb w') = Some (lru_Keys cache) ∧
  (∀ key, key ∈ lru_Keys cache → key ≠ EmptyBodyHash →
          Some (ReadPbCacheBody (workerDb w') key) = lru_Peek cache key) ∧
  (∀ key, key ∉ lru_Keys cache ∨ key = EmptyBodyHash →
          db_pbCacheBody (workerDb w') !! key = db_pbCacheBody (workerDb w) !! key).
Proof.
  intros cache w'.
  destruct (StorePendingBlockBody_fold cache (lru_Keys cache) (workerDb w) [])
    as (db1 & Hstore & Hkeys1 & Hblobs1).
  { intros key. by rewrite lru_Keys_Peek. }
  assert (w' = set_workerDb w (WritePbBodyKeys db1 (lru_Keys cache))) as ->.
  { subst w'. unfold StorePendingBlockBody. fold cache. by rewrite Hstore. }
  simpl. split; [done|]. split; [done|]. split.
  - intros key Hkey Hne. unfold ReadPbCacheBody. simpl. rewrite Hblobs1.
    rewrite decide_True by done. apply lru_Keys_Peek in Hkey as [v ->]. done.
  - intros key Hkey. rewrite Hblobs1. rewrite decide_False; [done|].
    intros [? ?]. by destruct Hkey.
Qed.

(** X13.  [LoadPendingBlockBody] into the empty cache of a new worker caches
    every key of the stored index, in the order of the index, with the body
    read from the store, and deletes the blobs of these keys.  A key other
    than the empty-body fingerprint whose blob is missing is cached with a
    nil body; the index itself stays in the store. *)
Theorem LoadPendingBlockBody_into_empty (w : worker) (keys : list Hash) (size : nat) :
  db_pbBodyKeys (workerDb w) = Some keys → NoDup keys →
  pendingBlockBody w = lru_New size → (length keys ≤ size)%nat →
  let w' := LoadPendingBlockBody w in
  lru_Keys (pendingBlockBody w') = keys ∧
  (∀ key, key ∈ keys →
          lru_Peek (pendingBlockBody w') key
          = Some (rehydrate key (ReadPbCacheBody (workerDb w) key))) ∧
  (∀ key, key ∈ keys → key ≠ EmptyBodyHash →
          db_pbCacheBody (workerDb w) !! key = None →
          lru_Peek (pendingBlockBody w') key = Some None) ∧
  (∀ key, key ∈ keys → db_pbCacheBody (workerDb w') !! key = None) ∧
  db_pbBodyKeys (workerDb w') = Some keys.
Proof.
  intros Hindex Hnd Hcache Hlen w'.
  set (f := λ key, rehydrate key (ReadPbCacheBody (workerDb w) key)).
  assert (w' = set_workerDb
            (set_pendingBlockBody w
               (mkLru size (reverse ((λ key, (key, f key)) <$> keys))))
            (mkDatabase (Some keys)
               (foldl (λ m key, delete key m) (db_pbCacheBody (workerDb w)) keys)))
    as ->.
  { subst w'. unfold LoadPendingBlockBody, ReadPbBodyKeys. rewrite Hindex, Hcache.
    cbn [default]. rewrite (LoadPendingBlockBody_fold _ _ _ (workerDb w)) by done.
    unfold lru_New. rewrite (lru_Add_fold_fresh f);
      [|done|intros; apply not_elem_of_nil|simpl; lia].
    by rewrite app_nil_r, Hindex. }
  simpl.
  assert ((reverse ((λ key, (key, f key)) <$> keys)).*1 = reverse keys) as Hfst.
  { rewrite fmap_reverse, <- list_fmap_compose.
    f_equal. clear. induction keys; [done|]. simpl. by f_equal. }
  assert (∀ key, key ∈ keys →
            lru_assoc key (reverse ((λ key, (key, f key)) <$> keys)) = Some (f key))
    as Hassoc.
  { intros key Hkey. apply lru_assoc_Some.
    - rewrite Hfst. by rewrite reverse_Permutation.
    - rewrite elem_of_reverse. apply list_elem_of_fmap. by exists key. }
  split; [|split; [|split; [|split]]].
  - unfold lru_Keys. simpl. by rewrite Hfst, reverse_involutive.
  - intros key Hkey. by apply Hassoc.
  - intros key Hkey Hne Hblob. unfold lru_Peek. simpl. rewrite Hassoc by done.
    unfold f, rehydrate, ReadPbCacheBody. rewrite decide_False by done.
    by rewrite Hblob.
  - intros key Hkey. rewrite delete_fold_lookup. by rewrite decide_True.
  - done.
Qed.

(** ** Filling from the pool *)

Lemma fillTransactions_split_fold (locals : list Address)
    (localTxs remoteTxs : gmap N (list Transaction)) :
  let r := foldl (λ '(localTxs, remoteTxs) account,
                    match remoteTxs !! account with
                    | Some txs =>
                        if decide (0 < length txs)%nat
                        then (<[account := txs]> localTxs, delete account remoteTxs)
                        else (localTxs, remoteTxs)
                    | None => (localTxs, remoteTxs)
                    end) (localTxs, remoteTxs) locals in
  ∀ account,
    r.1 !! account
    = (if decide (account ∈ locals)
       then match pending_of remoteTxs account with
            | Some txs => Some txs
            | None => localTxs !! account
            end
       else localTxs !! account) ∧
    r.2 !! account
    = (if decide (account ∈ locals)
       then match pending_of remoteTxs account with
            | Some _ => None
            | None => remoteTxs !! account
            end
       else remoteTxs !! account).
Proof.
  revert localTxs remoteTxs. induction locals as [|x rest IH];
    intros localTxs remoteTxs r account.
  { subst r. cbn [foldl fst snd]. by rewrite decide_False by apply not_elem_of_nil. }
  subst r. cbn [foldl].
  set (step := match remoteTxs !! x with
               | Some txs =>
                   if decide (0 < length txs)%nat
                   then (<[x := txs]> localTxs, delete x remoteTxs)
                   else (localTxs, remoteTxs)
               | None => (localTxs, remoteTxs)
               end).
  destruct step as [l1 r1] eqn:Hstep.
  specialize (IH l1 r1 account). cbn zeta in IH. destruct IH as [-> ->].
  assert (l1 !! account = (if decide (account = x)
                           then match pending_of remoteTxs x with
                                | Some txs => Some txs
                                | None => localTxs !! x
                                end
                           else localTxs !! account) ∧
          r1 !! account = (if decide (account = x)
                           then match pending_of remoteTxs x with
                                | Some _ => None
                                | None => remoteTxs !! x
                                end
                           else remoteTxs !! account) ∧
          (account ≠ x → pending_of r1 account = pending_of remoteTxs account) ∧
          (is_Some (pending_of remoteTxs x) → pending_of r1 x = None) ∧
          (pending_of remoteTxs x = None → pending_of r1 x = None))
    as (Hl1 & Hr1 & Hne & Hgone & Hnone).
  { subst step. unfold pending_of in *.
    destruct (remoteTxs !! x) as [txs|] eqn:Hx;
      [destruct (decide (0 < length txs)%nat) as [Hlen|Hlen]|];
      injection Hstep as <- <-; (split; [|split; [|split; [|split]]]).
    - destruct (decide (account = x)) as [->|?];
        [by rewrite lookup_insert_eq | by rewrite lookup_insert_ne].
    - destruct (decide (account = x)) as [->|?];
        [by rewrite lookup_delete_eq | by rewrite lookup_delete_ne].
    - intros ?. by rewrite lookup_delete_ne.
    - intros _. by rewrite lookup_delete_eq.
    - done.
    - by destruct (decide (account = x)) as [->|?].
    - destruct (decide (account = x)) as [->|?]; [by rewrite Hx | done].
    - done.
    - by intros [? ?].
    - intros _. rewrite Hx. by rewrite decide_False.
    - by destruct (decide (account = x)) as [->|?].
    - destruct (decide (account = x)) as [->|?]; [by rewrite Hx | done].
    - done.
    - by intros [? ?].
    - intros _. by rewrite Hx. }
  rewrite Hl1, Hr1.
  destruct (decide (account = x)) as [->|Hax].
  - destruct (decide (x ∈ x :: rest)) as [_|Hn];
      [|destruct Hn; apply elem_of_cons; by left].
    destruct (pending_of remoteTxs x) as [txs|] eqn:Hp.
    + rewrite Hgone by eauto. by destruct (decide (x ∈ rest)).
    + rewrite Hnone by done. by destruct (decide (x ∈ rest)).
  - rewrite Hne by done.
    destruct (decide (account ∈ rest)) as [Hin|Hout],
             (decide (account ∈ x :: rest)) as [Hin'|Hout']; try done.
    + destruct Hout'. apply elem_of_cons. by right.
    + apply elem_of_cons in Hin' as [?|?]; done.
Qed.

(** X14.  The split of [fillTransactions] files every pending account under
    exactly one of the two maps, with its transactions as they were: under
    the local map when the account is one of the pool's locals and has at
    least one transaction, under the remote map otherwise.  Neither map holds
    anything that was not pending. *)
Theorem fillTransactions_split_partitions (locals : list Address)
    (pending : gmap N (list Transaction)) (account : Address) :
  let localTxs := (fillTransactions_split locals pending).1 in
  let remoteTxs := (fillTransactions_split locals pending).2 in
  let local := bool_decide (account ∈ locals ∧ is_Some (pending_of pending account)) in
  localTxs !! account = (if local then pending !! account else None) ∧
  remoteTxs !! account = (if local then None else pending !! account).
Proof.
  intros localTxs remoteTxs local. subst localTxs remoteTxs local.
  unfold fillTransactions_split.
  destruct (fillTransactions_split_fold locals ∅ pending account) as [-> ->].
  rewrite lookup_empty.
  destruct (decide (account ∈ locals)) as [Hin|Hout].
  - destruct (pending_of pending account) as [txs|] eqn:Hp.
    + rewrite bool_decide_eq_true_2 by eauto.
      unfold pending_of in Hp. destruct (pending !! account) as [txs'|]; [|done].
      by destruct (decide (0 < length txs')%nat); simplify_eq.
    + rewrite bool_decide_eq_false_2; [done|]. by intros [_ [? ?]].
  - rewrite bool_decide_eq_false_2; [done|]. by intros [? _].
Qed.

(** ** Gas limit *)

(** X15.  [adjustGasLimit] panics with a division by zero exactly when
    [externalBlockLength + 1] is zero, that is, for an [int] in range, when
    [externalBlockLength] is -1; it returns in every other case. *)
Theorem adjustGasLimit_panics_iff (env : environment) (parent : Block) :
  (adjustGasLimit env parent = Panic divide_by_zero ↔
   wrap_int (externalBlockLength env + 1) = 0) ∧
  (wrap_int (externalBlockLength env + 1) ≠ 0 →
   ∃ env', adjustGasLimit env parent = Done env') ∧
  (- 2 ^ 63 ≤ externalBlockLength env < 2 ^ 63 →
   (wrap_int (externalBlockLength env + 1) = 0 ↔ externalBlockLength env = -1)).
Proof.
  split; [|split].
  - unfold adjustGasLimit. split.
    + intros Hp. apply uint64_of_wrap_int_zero. by case_decide.
    + intros Hz. by rewrite decide_True by (by apply uint64_of_wrap_int_zero).
  - intros Hnz. unfold adjustGasLimit.
    rewrite decide_False by (by rewrite uint64_of_wrap_int_zero). by eexists.
  - intros Hrange. unfold wrap_int. split; [|by intros ->].
    intros Hz.
    destruct (decide (externalBlockLength env = 2 ^ 63 - 1)) as [Hmax|Hmax].
    + rewrite Hmax in Hz. vm_compute in Hz. discriminate Hz.
    + rewrite Z.mod_small in Hz by lia. lia.
Qed.

(** ** The sweep of stale uncles *)

(** X16.  A tick of the clean ticker only removes: each pool after the tick
    is a sub-map of the pool before; a second tick on the same chain head
    changes nothing more; and the tick touches nothing of the worker but the
    two pools. *)
Theorem cleanTicker_only_removes (w : worker) (chainHead : Block) :
  let w' := mainLoop_cleanTicker w chainHead in
  localUncles w' ⊆ localUncles w ∧ remoteUncles w' ⊆ remoteUncles w ∧
  mainLoop_cleanTicker w' chainHead = w' ∧
  w' = set_remoteUncles (set_localUncles w (localUncles w')) (remoteUncles w').
Proof.
  intros w'. subst w'. unfold mainLoop_cleanTicker. simpl.
  assert (∀ pool : gmap N Block, sweepUncles chainHead pool ⊆ pool) as Hsub.
  { intros pool. apply map_subseteq_spec. intros hash uncle.
    rewrite sweepUncles_lookup. destruct (pool !! hash); [|done]. by case_decide. }
  assert (∀ pool : gmap N Block,
            sweepUncles chainHead (sweepUncles chainHead pool)
            = sweepUncles chainHead pool) as Hidem.
  { intros pool. apply map_eq. intros hash. rewrite !sweepUncles_lookup.
    destruct (pool !! hash) as [uncle|]; [|done].
    case_decide; [done|]. by rewrite decide_False. }
  split; [apply Hsub|]. split; [apply Hsub|]. split; [|done].
  unfold set_remoteUncles, set_localUncles. simpl. by rewrite !Hidem.
Qed.

(** ** The new-transactions arm: bucketing and the snapshot *)

Lemma bucketBySender_lookup (sg : Signer) (evTxs : list Transaction)
    (txs : gmap N (list Transaction)) :
  ∃ txs', bucketBySender (Some sg) evTxs txs = Done txs' ∧
    ∀ acc, txs' !! acc
           = let mine := filter (λ tx, Sender sg tx = acc) evTxs in
             if decide (mine = []) then txs !! acc
             else Some (default [] (txs !! acc) ++ mine).
Proof.
  revert txs. induction evTxs as [|tx rest IH]; intros txs.
  { exists txs. split; [done|]. intros acc. cbn zeta. by rewrite filter_nil. }
  cbn [bucketBySender deref go_bind].
  destruct (IH (<[Sender sg tx := default [] (txs !! Sender sg tx) ++ [tx]]> txs))
    as (txs' & -> & Hlookup).
  exists txs'. split; [done|]. intros acc. rewrite Hlookup. cbn zeta.
  rewrite filter_cons. destruct (decide (Sender sg tx = acc)) as [<-|Hne].
  - rewrite lookup_insert_eq. simpl.
    destruct (decide (filter _ rest = [])) as [->|_]; [done|].
    by rewrite <- app_assoc.
  - by rewrite lookup_insert_ne.
Qed.

(** X17.  The transactions of an event are bucketed by sender: each sender
    gets the transactions of the event it signed, in the order of the event,
    and a sender that signed none has no bucket.  With a nil signer the
    bucketing panics as soon as the event holds a transaction. *)
Theorem bucketBySender_groups (sg : Signer) (evTxs : list Transaction) :
  (∃ txs, bucketBySender (Some sg) evTxs ∅ = Done txs ∧
     ∀ acc, txs !! acc
            = let mine := filter (λ tx, Sender sg tx = acc) evTxs in
              if decide (mine = []) then None else Some mine) ∧
  (∀ txs, bucketBySender None evTxs txs
          = match evTxs with
            | [] => Done txs
            | _ :: _ => Panic nil_deref
            end).
Proof.
  split.
  - destruct (bucketBySender_lookup sg evTxs ∅) as (txs & Hrun & Hlookup).
    exists txs. split; [done|]. intros acc. rewrite Hlookup. cbn zeta.
    by rewrite lookup_empty.
  - intros txs. by destruct evTxs.
Qed.

(** ** Finalize, assemble, broadcast: failures and what success leaves *)

(** X18.  A failure of the engine, of the manifest collection or of the etx
    rollup collection is returned as it is, and the worker, its pending-body
    cache included, is left as it was. *)
Theorem FinalizeAssembleAndBroadcast_failures (nodeCtx : NodeCtx) (w : worker)
    (header : Header) (parent : Block) (state : option StateDB)
    (txs : list Transaction) (uncles : list Header) (etxs : list Transaction)
    (subManifest : list Hash) (receipts : list Receipt) (err : error) :
  let run := FinalizeAssembleAndBroadcast nodeCtx w header parent state txs uncles
               etxs subManifest receipts in
  let assembly := FinalizeAndAssemble header state txs uncles etxs subManifest receipts in
  let dom := IsDomCoincident (block_header parent) in
  (assembly = inr err → run = (w, inr err)) ∧
  (∀ assembled, assembly = inl assembled → nodeCtx ≠ PRIME_CTX → dom = false →
   CollectBlockManifest (block_header parent) = inr err → run = (w, inr err)) ∧
  (∀ assembled manifest, assembly = inl assembled → nodeCtx = ZONE_CTX → dom = false →
   CollectBlockManifest (block_header parent) = inl manifest →
   CollectEtxRollup parent = inr err → run = (w, inr err)).
Proof.
  intros run assembly dom. subst run assembly dom.
  unfold FinalizeAssembleAndBroadcast. split; [|split].
  - by intros ->.
  - intros assembled -> Hctx -> ->. by rewrite decide_False.
  - intros assembled manifest -> -> -> -> ->. by rewrite decide_False.
Qed.

(** X19.  A block returned by [FinalizeAssembleAndBroadcast] is the block
    the engine assembled with nothing changed but its manifest hash and its
    etx rollup hash: the body and every other header field are the engine's.
    The worker is changed only by the registration of the body under the
    block's fingerprint, which is the fingerprint of the assembled block. *)
Theorem FinalizeAssembleAndBroadcast_block (nodeCtx : NodeCtx) (w w' : worker)
    (header : Header) (parent : Block) (state : option StateDB)
    (txs : list Transaction) (uncles : list Header) (etxs : list Transaction)
    (subManifest : list Hash) (receipts : list Receipt) (block : Block) :
  FinalizeAssembleAndBroadcast nodeCtx w header parent state txs uncles etxs
    subManifest receipts = (w', inl block) →
  ∃ assembled,
    FinalizeAndAssemble header state txs uncles etxs subManifest receipts
      = inl assembled ∧
    block_body block = block_body assembled ∧
    block_header block
    = SetEtxRollupHash
        (SetManifestHash (block_header assembled) (ManifestHash (block_header block)))
        (EtxRollupHash (block_header block)) ∧
    getPendingBlockBodyKey (block_header block)
    = getPendingBlockBodyKey (block_header assembled) ∧
    w' = AddPendingBlockBody w (block_header assembled) (Some (block_body assembled)).
Proof.
  unfold FinalizeAssembleAndBroadcast.
  destruct (FinalizeAndAssemble _ _ _ _ _ _ _) as [assembled|]; [|by intros [= _ ?]].
  destruct (if decide (nodeCtx = PRIME_CTX) then _ else _) as [manifest|];
    [|by intros [= _ ?]].
  destruct (if decide (nodeCtx = ZONE_CTX) then _ else _) as [rolled|] eqn:Hrolled;
    [|by intros [= _ ?]].
  intros [= <- <-]. exists assembled. split; [done|].
  assert (∃ h, rolled = block_set_header assembled h ∧
               h = SetEtxRollupHash (SetManifestHash (block_header assembled) (ManifestHash h))
                     (EtxRollupHash h)) as (h & -> & Hh).
  { destruct (decide (nodeCtx = ZONE_CTX)).
    - destruct (if IsDomCoincident _ then _ else _) as [etxRollup|]; [|done].
      injection Hrolled as <-. eexists. split; [reflexivity|].
      by destruct assembled as [[] ?].
    - injection Hrolled as <-. eexists. split; [reflexivity|].
      by destruct assembled as [[] ?]. }
  simpl. split; [done|]. split; [done|].
  assert (getPendingBlockBodyKey h = getPendingBlockBodyKey (block_header assembled)) as Hkey.
  { rewrite Hh. by destruct assembled as [[] ?]. }
  split; [done|]. unfold AddPendingBlockBody. by rewrite Hkey.
Qed.

(** ** Filling from an empty pool *)

Lemma fillTransactions_split_empty (locals : list Address) :
  fillTransactions_split locals ∅ = (∅, ∅).
Proof.
  unfold fillTransactions_split.
  pose proof (fillTransactions_split_fold locals ∅ ∅) as Hfold. cbn zeta in Hfold.
  destruct (foldl _ _ locals) as [l r]. simpl in Hfold. f_equal; apply map_eq; intros acc.
  - destruct (Hfold acc) as [-> _]. unfold pending_of. rewrite !lookup_empty.
    by case_decide.
  - destruct (Hfold acc) as [_ ->]. unfold pending_of. rewrite !lookup_empty.
    by case_decide.
Qed.

(** X20.  [fillTransactions] leaves the worker and the environment as they
    are, the gas pool not even initialised, when the parent's etx set is not
    in the store, when the pool fails to deliver the pending transactions,
    and when nothing is pending. *)
Theorem fillTransactions_nothing_to_fill (w : worker) (interrupt : option (nat → Z))
    (env : environment) (block : Block) :
  let etxSet := ReadEtxSet (HeaderHash (block_header block)) (NumberU64 block) in
  (etxSet = None → fillTransactions w interrupt env block = Done (w, env)) ∧
  (∀ set err, etxSet = Some set → TxPoolPending true set = inr err →
              fillTransactions w interrupt env block = Done (w, env)) ∧
  (∀ set, etxSet = Some set → TxPoolPending true set = inl ∅ →
          fillTransactions w interrupt env block = Done (w, env)).
Proof.
  intros etxSet. subst etxSet. unfold fillTransactions. split; [|split].
  - by intros ->.
  - by intros set err -> ->.
  - intros set -> ->. rewrite fillTransactions_split_empty.
    rewrite map_size_empty. by rewrite !decide_False by lia.
Qed.

Lemma commitTransactions_from_newHead (iter : nat) (w : worker) (env : environment)
    (txset : TransactionsByPriceAndNonce) (f : nat → Z) :
  f iter ≠ commitInterruptNone → f (S iter) ≠ commitInterruptResubmit →
  f (S (S iter)) = commitInterruptNewHead →
  commitTransactions_from iter w env txset (Some f)
  = Done (mkLoopState w
            match gasPool env with
            | None => set_gasPool env (Some (GasLimit (header env)))
            | Some _ => env
            end txset [] (S (S (S iter))), true).
Proof.
  intros Hfirst Hsecond Hthird. unfold commitTransactions_from.
  cbn [commitTransactions_loop].
  unfold commitTransactions_iteration, commitTransactions_interrupt. go_simpl.
  rewrite decide_True by done. rewrite decide_False by done. go_simpl.
  by rewrite Hthird.
Qed.

(** X21.  When the pool has local transactions and the interrupt word holds
    NewHead at the first test (its first load does not read clear, its second
    does not read Resubmit and its third reads NewHead), [fillTransactions]
    returns after the pass over the locals: the remote transactions are not
    run, and the environment is untouched but for a nil gas pool set to the
    header's gas limit. *)
Theorem fillTransactions_newHead_skips_remotes (w : worker) (f : nat → Z)
    (env : environment) (block : Block) (set : EtxSet)
    (pending : gmap N (list Transaction)) :
  ReadEtxSet (HeaderHash (block_header block)) (NumberU64 block) = Some set →
  TxPoolPending true set = inl pending →
  (0 < size (fillTransactions_split Locals pending).1)%nat →
  f 0%nat ≠ commitInterruptNone → f 1%nat ≠ commitInterruptResubmit →
  f 2%nat = commitInterruptNewHead →
  fillTransactions w (Some f) env block
  = Done (w, match gasPool env with
             | None => set_gasPool env (Some (GasLimit (header env)))
             | Some _ => env
             end).
Proof.
  intros Hset Hpending Hlocals Hfirst Hsecond Hthird. unfold fillTransactions.
  rewrite Hset, Hpending.
  destruct (fillTransactions_split Locals pending) as [localTxs remoteTxs].
  simpl in Hlocals. rewrite decide_True by done.
  by rewrite commitTransactions_from_newHead.
Qed.

(** ** Termination and panics of the inclusion loop *)

Lemma commitTransaction_not_Diverge (env : environment) (tx : option Transaction) :
  commitTransaction env tx ≠ Diverge.
Proof.
  unfold commitTransaction. destruct tx as [tx|]; [|done].
  destruct (state env) as [st|]; [|done]. go_simpl.
  destruct (StateDB_Snapshot st). by destruct (ar_result _).
Qed.

Lemma commitTransactions_attempt_decreases (s : loop_state) :
  match commitTransactions_attempt s with
  | Done (Continue s') => (txset_len (ls_txs s') < txset_len (ls_txs s))%nat
  | Done _ => True
  | Panic reason =>
      reason = nil_deref ∧
      (state (ls_env s) = None ∨ signer (ls_env s) = None ∨ gasPool (ls_env s) = None)
  | Diverge => False
  end.
Proof.
  unfold commitTransactions_attempt.
  destruct (gasPool (ls_env s)) as [gp|]; [go_simpl|by simpl; auto].
  destruct (decide (gp < TxGas)); [done|].
  destruct (Peek (ls_txs s)) as [tx|] eqn:Hpeek; [|done].
  destruct (signer (ls_env s)) as [sg|]; [go_simpl|by simpl; auto].
  destruct (state (ls_env s)) as [st|] eqn:Hst; [go_simpl|by simpl; auto].
  pose proof (Pop_len (ls_txs s) (mk_is_Some _ _ Hpeek)) as Hpop.
  pose proof (Shift_len (ls_txs s) (Sender sg tx) false (mk_is_Some _ _ Hpeek)) as Hshift.
  match goal with
  | |- context [commitTransaction ?e (Some tx)] =>
      destruct (commitTransaction_returns e (Some tx)) as ([env' [logs err]] & ->);
        [simpl; eauto|]
  end.
  go_simpl.
  destruct (errors_Is err (Some ErrGasLimitReached));
    [|destruct (errors_Is err (Some ErrNonceTooLow));
      [|destruct (errors_Is err (Some ErrNonceTooHigh));
        [|destruct (errors_Is err None);
          [|destruct (errors_Is err (Some ErrTxTypeNotSupported))]]]];
    simpl; done.
Qed.

Lemma commitTransactions_attempt_continue (s s' : loop_state) :
  commitTransactions_attempt s = Done (Continue s') →
  (is_Some (gasPool (ls_env s')) ∧
   ls_worker s' = ls_worker s ∧ ls_iter s' = ls_iter s).
Proof.
  unfold commitTransactions_attempt.
  destruct (gasPool (ls_env s)) as [gp|] eqn:Hgp; [go_simpl|done].
  destruct (decide (gp < TxGas)); [done|].
  destruct (Peek (ls_txs s)) as [tx|]; [|done].
  destruct (signer (ls_env s)) as [sg|]; [go_simpl|done].
  destruct (state (ls_env s)) as [st|]; [go_simpl|done].
  match goal with
  | |- context [commitTransaction ?e (Some tx)] =>
      destruct (commitTransaction e (Some tx)) as [[env' [logs err]]| |] eqn:Hcommit;
        [|done|done]
  end.
  apply commitTransaction_keeps in Hcommit as (_ & _ & Hpool & _).
  simpl in Hpool. rewrite Hgp in Hpool. specialize (Hpool (mk_is_Some _ _ eq_refl)).
  go_simpl.
  destruct (errors_Is err (Some ErrGasLimitReached));
    [|destruct (errors_Is err (Some ErrNonceTooLow));
      [|destruct (errors_Is err (Some ErrNonceTooHigh));
        [|destruct (errors_Is err None);
          [|destruct (errors_Is err (Some ErrTxTypeNotSupported))]]]];
    by intros [= <-].
Qed.

Lemma commitTransactions_loop_terminates (fuel : nat) (interrupt : option (nat → Z))
    (s : loop_state) :
  is_Some (gasPool (ls_env s)) → (txset_len (ls_txs s) < fuel)%nat →
  match commitTransactions_loop fuel interrupt s with
  | Done _ => True
  | Panic reason => reason = nil_deref
  | Diverge =>
      (resubmitAdjustChanSize ≤ length (resubmitAdjustCh (ls_worker s)))%nat ∧
      ∃ f k, interrupt = Some f ∧ (ls_iter s ≤ k)%nat ∧
             f k ≠ commitInterruptNone ∧ f (S k) = commitInterruptResubmit
  end.
Proof.
  revert s. induction fuel as [|fuel IH]; intros s [gp Hgp] Hlen; [lia|].
  cbn [commitTransactions_loop]. unfold commitTransactions_iteration.
  set (s1 := mkLoopState (ls_worker s) (ls_env s) (ls_txs s)
               (ls_coalescedLogs s) (S (ls_iter s))).
  set (loads := (λ f : nat → Z, (f (ls_iter s), f (S (ls_iter s)), f (S (S (ls_iter s)))))
                  <$> interrupt).
  assert (commitTransactions_interrupt loads s1 = Done (Continue s1) ∨
          (∃ s2 result, commitTransactions_interrupt loads s1 = Done (Return s2 result)) ∨
          (commitTransactions_interrupt loads s1 = Diverge ∧
           (resubmitAdjustChanSize ≤ length (resubmitAdjustCh (ls_worker s)))%nat ∧
           ∃ f, interrupt = Some f ∧ f (ls_iter s) ≠ commitInterruptNone ∧
                f (S (ls_iter s)) = commitInterruptResubmit))
    as [-> | [(s2 & result & ->) | (-> & Hfull & f & -> & Hfirst & Hsecond)]].
  { unfold commitTransactions_interrupt, loads.
    destruct interrupt as [f|]; simpl; [|by left].
    destruct (decide (f (ls_iter s) ≠ commitInterruptNone)); [|by left].
    right. destruct (decide (f (S (ls_iter s)) = commitInterruptResubmit)).
    - rewrite Hgp. go_simpl. unfold resubmitAdjustCh_send.
      destruct (decide (length (resubmitAdjustCh (ls_worker s))
                        < resubmitAdjustChanSize)%nat); go_simpl.
      + left. by eexists _, _.
      + right. split; [done|]. split; [lia|]. by exists f.
    - go_simpl. left. by eexists _, _. }
  2: done.
  2:{ go_simpl. split; [done|]. by exists f, (ls_iter s). }
  go_simpl. pose proof (commitTransactions_attempt_decreases s1) as Hstep.
  destruct (commitTransactions_attempt s1) as [[s2 result|s2|s2]|reason|] eqn:Hattempt;
    go_simpl; try done; [|by destruct Hstep].
  apply commitTransactions_attempt_continue in Hattempt as (Hpool & Hw & Hiter).
  simpl in Hw, Hiter.
  specialize (IH s2 Hpool ltac:(simpl in Hstep; lia)).
  destruct (commitTransactions_loop fuel interrupt s2) as [?|?|]; [done|done|].
  destruct IH as (Hfull & f & k & -> & Hk & Hfirst & Hsecond).
  split; [by rewrite <- Hw|]. exists f, k. split; [done|]. split; [lia|]. done.
Qed.

(** X22.  A run of [commitTransactions] comes to an end unless it is held up
    at the send on a full resubmit channel.  It fails to return only when a
    test of the interrupt word finds it set and reads Resubmit at its second
    load while the channel holds [resubmitAdjustChanSize] messages; with room
    in the channel, or with no load that reads Resubmit, the loop runs at most
    once per transaction the iterator holds, plus one round, and on an
    environment with a state and a signer the run returns.  A run ends in a
    return, or in a nil dereference when the environment has no state or no
    signer; it ends in no other panic. *)
Theorem commitTransactions_terminates (iter : nat) (w : worker) (env : environment)
    (txset : TransactionsByPriceAndNonce) (interrupt : option (nat → Z)) :
  let run := commitTransactions_from iter w env txset interrupt in
  (send_returns interrupt w → run ≠ Diverge) ∧
  (is_Some (state env) → is_Some (signer env) → send_returns interrupt w →
   ∃ s' result, run = Done (s', result)) ∧
  (run = Diverge →
   (resubmitAdjustChanSize ≤ length (resubmitAdjustCh w))%nat ∧
   ∃ f k, interrupt = Some f ∧ (iter ≤ k)%nat ∧
          f k ≠ commitInterruptNone ∧ f (S k) = commitInterruptResubmit) ∧
  (∀ reason, run = Panic reason →
             reason = nil_deref ∧ (state env = None ∨ signer env = None)).
Proof.
  intros run. subst run. unfold commitTransactions_from.
  set (env1 := match gasPool env with
               | None => set_gasPool env (Some (GasLimit (header env)))
               | Some _ => env
               end).
  assert (is_Some (gasPool env1)) as Hgp.
  { unfold env1. destruct (gasPool env) eqn:E; simpl; rewrite ?E; eauto. }
  pose proof (commitTransactions_loop_terminates (S (txset_len txset)) interrupt
                (mkLoopState w env1 txset [] iter) Hgp ltac:(simpl; lia)) as Hloop.
  assert (go_bind (commitTransactions_loop (S (txset_len txset)) interrupt
                     (mkLoopState w env1 txset [] iter))
            (λ r, match r with
                  | (s, Some result) => Done (s, result)
                  | (s, None) =>
                      Done (mkLoopState
                              (if negb (isRunning (ls_worker s)) &&
                                  bool_decide (0 < length (ls_coalescedLogs s))%nat
                               then set_pendingLogsFeed (ls_worker s)
                                      (pendingLogsFeed (ls_worker s) ++
                                         [copyLogs (ls_coalescedLogs s)])
                               else ls_worker s)
                              (ls_env s) (ls_txs s) (ls_coalescedLogs s) (ls_iter s),
                            false)
                  end) = Diverge →
          (resubmitAdjustChanSize ≤ length (resubmitAdjustCh w))%nat ∧
          ∃ f k, interrupt = Some f ∧ (iter ≤ k)%nat ∧
                 f k ≠ commitInterruptNone ∧ f (S k) = commitInterruptResubmit)
    as Hblocked.
  { by destruct (commitTransactions_loop _ _ _) as [[s [result|]]| |]. }
  split; [|split; [|split]].
  - intros Hsend Hdiv. destruct (Hblocked Hdiv) as (Hfull & f & k & -> & _ & _ & Hre).
    destruct Hsend as [Hroom|Hnever]; [lia|]. by destruct (Hnever (S k)).
  - intros Hst Hsg Hsend.
    destruct (commitTransactions_from_effect iter w env txset interrupt Hst Hsg Hsend)
      as (s' & result & _ & _ & Hrun & _).
    by exists s', result.
  - exact Hblocked.
  - intros reason Hpanic.
    destruct (commitTransactions_loop _ _ _) as [[s [result|]]|reason'|] eqn:Hrun;
      try done.
    simpl in Hpanic. injection Hpanic as <-. split; [done|].
    destruct (state env) as [st|] eqn:Hst; [|by left].
    destruct (signer env) as [sg|] eqn:Hsg; [|by right].
    assert (loop_ready (mkLoopState w env1 txset [] iter)) as Hready.
    { unfold loop_ready, env1. simpl. destruct (gasPool env) eqn:Hpool; simpl;
        rewrite ?Hst, ?Hsg, ?Hpool; eauto. }
    destruct (commitTransactions_loop_spec (S (txset_len txset)) interrupt _ Hready)
      as [(s' & Hdone & _) | (f & k & _ & _ & _ & _ & [(s' & gp & Hdone & _) | (Hdone & _)])];
      [simpl; lia|..]; congruence.
Qed.

(** ** The new-transactions arm: when the snapshot is renewed *)

Lemma commitTransactions_no_interrupt_effect (iter : nat) (w : worker)
    (env : environment) (txset : TransactionsByPriceAndNonce) :
  is_Some (state env) → is_Some (signer env) →
  ∃ s' addedTxs addedReceipts,
    commitTransactions_from iter w env txset None = Done (s', false) ∧
    txs (ls_env s') = txs env ++ addedTxs ∧
    receipts (ls_env s') = receipts env ++ addedReceipts ∧
    length addedTxs = length addedReceipts ∧
    (- 2 ^ 63 ≤ tcount env → tcount env + Z.of_nat (txset_len txset) < 2 ^ 63 →
     tcount (ls_env s') = tcount env + Z.of_nat (length addedTxs)) ∧
    is_Some (state (ls_env s')) ∧
    (ls_worker s' = w ∨
     ∃ logs, ls_worker s' = set_pendingLogsFeed w (pendingLogsFeed w ++ [logs])).
Proof.
  intros Hst Hsg.
  destruct (commitTransactions_no_interrupt iter w env txset Hst Hsg)
    as (s' & Hrun & Hstate & Hw).
  destruct (commitTransactions_from_effect iter w env txset None Hst Hsg
              (send_returns_nil w))
    as (s'' & result & added & addedR & Hrun' & Ht & Hr & Hl & _ & Hc & _).
  rewrite Hrun in Hrun'. injection Hrun' as <- <-.
  by exists s', added, addedR.
Qed.

(** X23.  An idle worker that takes a new-transactions event renews its
    snapshot exactly when the event led to a commit: with no transaction
    appended to the current environment the snapshot block, receipts and
    state stay as they were; with at least one appended, the snapshot block
    is built from the environment after the run and the snapshot receipts
    are its receipts. *)
Theorem txsCh_renews_snapshot (w : worker) (evTxs : list Transaction)
    (cur : environment) (buckets : gmap N (list Transaction)) :
  isRunning w = false → current w = Some cur → txsCh_dropped w = false →
  is_Some (state cur) →
  bucketBySender (signer cur) evTxs ∅ = Done buckets →
  is_Some (signer cur) →
  - 2 ^ 63 ≤ tcount cur →
  tcount cur
  + Z.of_nat (txset_len (NewTransactionsByPriceAndNonce (signer cur) buckets
                           (BaseFee (header cur)) false)) < 2 ^ 63 →
  ∃ w' cur' addedTxs,
    mainLoop_txsCh ZONE_CTX w evTxs = Done w' ∧
    current w' = Some cur' ∧ txs cur' = txs cur ++ addedTxs ∧
    (addedTxs = [] →
     snapshotBlock w' = snapshotBlock w ∧ snapshotReceipts w' = snapshotReceipts w ∧
     snapshotState w' = snapshotState w) ∧
    (addedTxs ≠ [] →
     snapshotBlock w'
     = Some (NewBlock (header cur') (txs cur') (unclelist cur') (etxs cur')
               (subManifest cur') (receipts cur')) ∧
     snapshotReceipts w' = receipts cur').
Proof.
  intros Hrun Hcur Hdrop Hst Hbuckets Hsg Hlow Hhigh.
  unfold mainLoop_txsCh. unfold txsCh_dropped in Hdrop.
  rewrite Hrun, Hcur in *. cbn [negb andb] in *. rewrite Hdrop, Hbuckets. go_simpl.
  destruct (commitTransactions_no_interrupt_effect 0 w cur
              (NewTransactionsByPriceAndNonce (signer cur) buckets (BaseFee (header cur)) false)
              Hst Hsg)
    as (s' & added & addedR & Hcommit & Ht & Hr & Hl & Hc & [st' Hst'] & Hw).
  specialize (Hc Hlow Hhigh).
  unfold commitTransactions. rewrite Hcommit. go_simpl.
  assert (∀ w0, snapshotBlock (addNewTxs w0 evTxs) = snapshotBlock w0 ∧
                snapshotReceipts (addNewTxs w0 evTxs) = snapshotReceipts w0 ∧
                snapshotState (addNewTxs w0 evTxs) = snapshotState w0 ∧
                current (addNewTxs w0 evTxs) = current w0) as Hadd by done.
  destruct (decide (tcount cur ≠ tcount (ls_env s'))) as [Hchanged|Hsame].
  - unfold updateSnapshot. rewrite decide_True by done. cbn [state set_snapshotReceipts].
    simpl. rewrite Hst'. go_simpl.
    eexists _, (ls_env s'), added. split; [reflexivity|].
    split; [done|]. split; [done|]. split.
    + intros ->. simpl in Hc. lia.
    + intros _. simpl. by rewrite copyReceipts_id.
  - go_simpl. eexists _, (ls_env s'), added. split; [reflexivity|].
    split; [done|]. split; [done|]. split.
    + intros _. simpl. by destruct Hw as [-> | [logs ->]].
    + intros Hne. destruct added; [done|]. simpl in Hc.
      apply dec_stable in Hsame. lia.
Qed.
End MoreProperties.

(** * Properties of the preparation of sealing work *)

Lemma union_insert_front (h : gset N) (a b : gset N) :
  a ∪ (h ∪ b) = (h ∪ a) ∪ b.
Proof. apply set_eq. intros x. rewrite !elem_of_union. tauto. Qed.

Lemma union_family_step (u1 u2 a h f : gset N) :
  u2 ∪ a ∪ (h ∪ (u1 ∪ f)) = (u1 ∪ u2) ∪ (h ∪ a) ∪ f.
Proof. apply set_eq. intros x. rewrite !elem_of_union. tauto. Qed.

Section SealingProperties.
Context {SO : StateOps} {TO : TypesOps} {TS : TxSetOps} {CO : ChainOps}
        {PO : PoolOps} {EN : Engine} {SL : SealOps}.

(** ** The worker across a run of the inclusion loop *)

Lemma worker_frame_refl (w : worker) : worker_frame w w.
Proof. unfold worker_frame. by destruct w. Qed.

Lemma worker_frame_trans (w1 w2 w3 : worker) :
  worker_frame w1 w2 → worker_frame w2 w3 → worker_frame w1 w3.
Proof. unfold worker_frame. intros -> ->. by destruct w1. Qed.

Lemma worker_frame_resubmit (w : worker) (ch : list intervalAdjust) :
  worker_frame w (set_resubmitAdjustCh w ch).
Proof. unfold worker_frame. by destruct w. Qed.

Lemma worker_frame_pendingLogs (w : worker) (feed : list (list Log)) :
  worker_frame w (set_pendingLogsFeed w feed).
Proof. unfold worker_frame. by destruct w. Qed.

Lemma commitTransactions_loop_keeps (fuel : nat) (interrupt : option (nat → Z))
    (s : loop_state) :
  loop_ready s → send_returns interrupt (ls_worker s) →
  (txset_len (ls_txs s) < fuel)%nat →
  ∃ s' r, commitTransactions_loop fuel interrupt s = Done (s', r) ∧
    loop_ready s' ∧ worker_frame (ls_worker s) (ls_worker s').
Proof.
  revert s. induction fuel as [|fuel IH]; intros s Hready Hsend Hlen; [lia|].
  cbn [commitTransactions_loop]. unfold commitTransactions_iteration.
  set (s1 := mkLoopState (ls_worker s) (ls_env s) (ls_txs s)
               (ls_coalescedLogs s) (S (ls_iter s))).
  assert (loop_ready s1) as Hready1 by exact Hready.
  assert (∃ r, commitTransactions_interrupt
                 ((λ f : nat → Z, (f (ls_iter s), f (S (ls_iter s)), f (S (S (ls_iter s)))))
                    <$> interrupt) s1 = Done r ∧
               (r = Continue s1 ∨
                ∃ w' result,
                  r = Return (mkLoopState w' (ls_env s) (ls_txs s) (ls_coalescedLogs s)
                                (S (S (S (ls_iter s))))) result ∧
                  worker_frame (ls_worker s) w')) as (r & -> & Hr).
  { destruct Hready as (_ & _ & [gp Hgp]). unfold commitTransactions_interrupt.
    destruct interrupt as [f|]; [|by eexists; split; [|left]].
    cbn [fmap option_fmap option_map].
    destruct (decide (f (ls_iter s) ≠ commitInterruptNone));
      [|by eexists; split; [|left]].
    destruct (decide (f (S (ls_iter s)) = commitInterruptResubmit)) as [Hre|Hre].
    - subst s1. simpl. rewrite Hgp. go_simpl. unfold resubmitAdjustCh_send.
      destruct Hsend as [Hroom|Hnever]; [|by destruct (Hnever (S (ls_iter s)))].
      rewrite decide_True by done. go_simpl. eexists. split; [reflexivity|].
      right. eexists _, _. split; [reflexivity|]. apply worker_frame_resubmit.
    - go_simpl. eexists. split; [reflexivity|].
      right. eexists _, _. split; [reflexivity|]. apply worker_frame_refl. }
  go_simpl. destruct Hr as [-> | (w' & result & -> & Hw)].
  2:{ eexists _, _. split; [reflexivity|]. split; [|exact Hw].
      destruct Hready as (? & ? & ?). by repeat split. }
  destruct (commitTransactions_attempt_effect s1 Hready1)
    as [-> | (s2 & -> & Hready2 & Hw & _ & Hdec & _)]; go_simpl.
  { eexists _, _. split; [reflexivity|]. split; [done|]. apply worker_frame_refl. }
  simpl in Hdec, Hw.
  destruct (IH s2 Hready2) as (s' & r & -> & Hready' & Hw'); [by rewrite Hw|lia|].
  eexists _, _. split; [reflexivity|]. split; [done|]. by rewrite <- Hw.
Qed.

Lemma commitTransactions_from_keeps (iter : nat) (w : worker) (env : environment)
    (txset : TransactionsByPriceAndNonce) (interrupt : option (nat → Z)) :
  is_Some (state env) → is_Some (signer env) → send_returns interrupt w →
  ∃ s' result addedTxs addedReceipts,
    commitTransactions_from iter w env txset interrupt = Done (s', result) ∧
    txs (ls_env s') = txs env ++ addedTxs ∧
    receipts (ls_env s') = receipts env ++ addedReceipts ∧
    length addedTxs = length addedReceipts ∧
    env_frame env (ls_env s') ∧ is_Some (state (ls_env s')) ∧
    worker_frame w (ls_worker s').
Proof.
  intros Hst Hsg Hsend.
  destruct (commitTransactions_from_effect iter w env txset interrupt Hst Hsg Hsend)
    as (s' & result & added & addedR & Hrun & Ht & Hr & Hl & _ & _ & _ & Hf).
  exists s', result, added, addedR. split; [exact Hrun|].
  split; [exact Ht|]. split; [exact Hr|]. split; [exact Hl|]. split; [exact Hf|].
  revert Hrun. unfold commitTransactions_from.
  set (env1 := match gasPool env with
               | None => set_gasPool env (Some (GasLimit (header env)))
               | Some _ => env
               end).
  assert (loop_ready (mkLoopState w env1 txset [] iter)) as Hready.
  { unfold loop_ready, env1. simpl. destruct (gasPool env) eqn:Hgp; simpl;
      rewrite ?Hgp; eauto. }
  destruct (commitTransactions_loop_keeps (S (txset_len txset)) interrupt _ Hready)
    as (s1 & r & -> & (Hst1 & _) & Hw); [exact Hsend|simpl; lia|].
  simpl in Hw. go_simpl. destruct r as [res|]; intros [= <- <-]; simpl.
  - by split.
  - split; [done|]. destruct (_ && _); [|done].
    eapply worker_frame_trans; [exact Hw|]. apply worker_frame_pendingLogs.
Qed.

Lemma fillTransactions_effect (w : worker) (interrupt : option (nat → Z))
    (env : environment) (block : Block) :
  is_Some (state env) → is_Some (signer env) → never_resubmit interrupt →
  ∃ w' env' addedTxs addedReceipts,
    fillTransactions w interrupt env block = Done (w', env') ∧
    txs env' = txs env ++ addedTxs ∧
    receipts env' = receipts env ++ addedReceipts ∧
    length addedTxs = length addedReceipts ∧
    env_frame env env' ∧ is_Some (state env') ∧ worker_frame w w'.
Proof.
  intros Hst Hsg Hnever. unfold fillTransactions.
  assert (∃ w' env' addedTxs addedReceipts,
            Done (w, env) = Done (w', env') ∧
            txs env' = txs env ++ addedTxs ∧
            receipts env' = receipts env ++ addedReceipts ∧
            length addedTxs = length addedReceipts ∧
            env_frame env env' ∧ is_Some (state env') ∧ worker_frame w w') as Hstay.
  { exists w, env, [], []. rewrite !app_nil_r. split; [done|].
    split; [done|]. split; [done|]. split; [done|].
    split; [apply env_frame_refl|]. split; [done|]. apply worker_frame_refl. }
  destruct (ReadEtxSet _ _) as [etxSet|]; [|exact Hstay].
  destruct (TxPoolPending true etxSet) as [pending|err]; [|exact Hstay].
  destruct (fillTransactions_split Locals pending) as [localTxs remoteTxs].
  assert (∃ w1 env1 iter interrupted added1 addedR1,
            (if decide (0 < size localTxs)%nat then
               r ←! commitTransactions_from 0 w env
                      (NewTransactionsByPriceAndNonce (signer env) localTxs
                         (BaseFee (header env)) false) interrupt;
               Done (ls_worker r.1, ls_env r.1, ls_iter r.1, r.2)
             else Done (w, env, O, false))
            = Done (w1, env1, iter, interrupted) ∧
            txs env1 = txs env ++ added1 ∧ receipts env1 = receipts env ++ addedR1 ∧
            length added1 = length addedR1 ∧ env_frame env env1 ∧
            is_Some (state env1) ∧ worker_frame w w1)
    as (w1 & env1 & iter & interrupted & added1 & addedR1 & -> & Ht1 & Hr1 & Hl1 &
        Hf1 & Hst1 & Hw1).
  { destruct (decide (0 < size localTxs)%nat).
    - destruct (commitTransactions_from_keeps 0 w env
                  (NewTransactionsByPriceAndNonce (signer env) localTxs
                     (BaseFee (header env)) false) interrupt Hst Hsg
                  (or_intror Hnever))
        as (s' & result & added & addedR & -> & Ht & Hr & Hl & Hf & Hs & Hw).
      go_simpl. by eexists _, _, _, _, added, addedR.
    - exists w, env, O, false, [], []. rewrite !app_nil_r. split; [done|].
      split; [done|]. split; [done|]. split; [done|].
      split; [apply env_frame_refl|]. split; [done|]. apply worker_frame_refl. }
  go_simpl.
  assert (is_Some (signer env1)) as Hsg1.
  { destruct Hf1 as (-> & _). done. }
  destruct interrupted.
  { by exists w1, env1, added1, addedR1. }
  destruct (decide (0 < size remoteTxs)%nat).
  2:{ by exists w1, env1, added1, addedR1. }
  destruct (commitTransactions_from_keeps iter w1 env1
              (NewTransactionsByPriceAndNonce (signer env1) remoteTxs
                 (BaseFee (header env1)) false) interrupt Hst1 Hsg1
              (or_intror Hnever))
    as (s' & result & added & addedR & -> & Ht & Hr & Hl & Hf & Hs & Hw).
  go_simpl. exists (ls_worker s'), (ls_env s'), (added1 ++ added), (addedR1 ++ addedR).
  split; [done|]. rewrite Ht, Hr, Ht1, Hr1, <- !app_assoc.
  split; [done|]. split; [done|]. split; [by rewrite !length_app, Hl1, Hl|].
  split; [by eapply env_frame_trans|]. split; [done|].
  by eapply worker_frame_trans.
Qed.

(** ** The environment of a sealing block *)

Lemma commitUncle_frame (env : environment) (uncle : Header) :
  (commitUncle env uncle).1 = env ∨
  (commitUncle env uncle).1
  = set_uncles env (<[HeaderHash uncle := uncle]> (uncles env)).
Proof.
  unfold commitUncle. repeat case_decide; simpl; auto.
Qed.

Lemma commitUncles_frame (env : environment) (blocks : list (Hash * Block)) :
  commitUncles env blocks = set_uncles env (uncles (commitUncles env blocks)) ∧
  ∀ hash uncle, uncles (commitUncles env blocks) !! hash = Some uncle →
    uncles env !! hash = Some uncle ∨
    ∃ key b, (key, b) ∈ blocks ∧ uncle = block_header b.
Proof.
  revert env. induction blocks as [|[key b] rest IH]; intros env.
  { simpl. split; [by destruct env|]. auto. }
  simpl. destruct (decide (size (uncles env) = 2%nat)).
  { split; [by destruct env|]. auto. }
  destruct (IH (commitUncle env (block_header b)).1) as (Hframe & Hfrom).
  destruct (commitUncle_frame env (block_header b)) as [Heq | Heq]; rewrite Heq in *.
  - split; [exact Hframe|]. intros hash uncle Hin.
    destruct (Hfrom hash uncle Hin) as [? | (key' & b' & Hb & ->)]; [by left|].
    right. exists key', b'. split; [|done]. by apply elem_of_cons; right.
  - split; [rewrite Hframe at 1; by destruct env|]. intros hash uncle Hin.
    destruct (Hfrom hash uncle Hin) as [Hold | (key' & b' & Hb & ->)].
    + simpl in Hold. apply lookup_insert_Some in Hold as [[_ <-] | [_ Hold]]; [|by left].
      right. exists key, b. split; [|done]. by apply elem_of_cons; left.
    + right. exists key', b'. split; [|done]. by apply elem_of_cons; right.
Qed.

Lemma set_sets_twice (env : environment) (F1 A1 F2 A2 : gset N) :
  set_ancestors (set_family (set_ancestors (set_family env F1) A1) F2) A2
  = set_ancestors (set_family env F2) A2.
Proof. reflexivity. Qed.

Lemma makeEnv_uncles_fold (env : environment) (uncles : list Header) :
  foldl (λ env uncle, set_family env ({[HeaderHash uncle]} ∪ family env)) env uncles
  = set_family env (list_to_set (HeaderHash <$> uncles) ∪ family env).
Proof.
  revert env. induction uncles as [|u us IH]; intros env.
  - simpl. rewrite (left_id_L ∅ (∪)). by destruct env.
  - cbn [foldl]. rewrite IH. cbn [fmap list_fmap list_to_set].
    rewrite <- union_insert_front. reflexivity.
Qed.

Lemma makeEnv_ancestor_sets (env : environment) (b : Block) :
  makeEnv_ancestor env b
  = set_ancestors
      (set_family env
         ({[HeaderHash (block_header b)]}
          ∪ (list_to_set (HeaderHash <$> body_Uncles (block_body b)) ∪ family env)))
      ({[HeaderHash (block_header b)]} ∪ ancestors env).
Proof. unfold makeEnv_ancestor. rewrite makeEnv_uncles_fold. reflexivity. Qed.

Lemma makeEnv_ancestors_fold (env : environment) (blocks : list Block) :
  foldl makeEnv_ancestor env blocks
  = set_ancestors
      (set_family env
         (list_to_set (HeaderHash <$> (blocks ≫= λ b, body_Uncles (block_body b)))
          ∪ list_to_set ((λ b, HeaderHash (block_header b)) <$> blocks)
          ∪ family env))
      (list_to_set ((λ b, HeaderHash (block_header b)) <$> blocks) ∪ ancestors env).
Proof.
  revert env. induction blocks as [|b rest IH]; intros env.
  { simpl. rewrite !(left_id_L ∅ (∪)). by destruct env. }
  cbn [foldl]. rewrite IH, makeEnv_ancestor_sets, set_sets_twice.
  cbn [mbind list_bind fmap list_fmap list_to_set]. 
  rewrite fmap_app, list_to_set_app_L.
  f_equal; [f_equal|].
  - apply union_family_step.
  - apply union_insert_front.
Qed.

Lemma makeEnv_inv (parent : Block) (header : Header) (coinbase : Address)
    (env : environment) :
  makeEnv parent header coinbase = inl env →
  let blocks := GetBlocksFromHash (HeaderHash (block_header parent)) 7 in
  let hashes : gset N := list_to_set ((λ b, HeaderHash (block_header b)) <$> blocks) in
  let uncleHashes : gset N :=
    list_to_set (HeaderHash <$> (blocks ≫= λ b, body_Uncles (block_body b))) in
  ∃ st,
    env = mkEnvironment (Some (MakeSigner (Number header))) (Some st) hashes
            (uncleHashes ∪ hashes) 0 None coinbase header [] [] [] [] ∅ 0 0.
Proof.
  intros Hmake blocks hashes uncleHashes. unfold makeEnv in Hmake.
  destruct (match StateAt (Root parent) with
            | inl st => inl st
            | inr _ => StateAtBlock parent 1024
            end) as [st|err]; [|discriminate].
  injection Hmake as <-. exists (StateDB_StartPrefetcher st).
  rewrite makeEnv_ancestors_fold. unfold set_tcount, set_ancestors, set_family. simpl.
  fold blocks. fold hashes. fold uncleHashes. by rewrite !(right_id_L ∅ (∪)).
Qed.

Lemma prepareWork_inv (nodeCtx : NodeCtx) (w : worker) (genParams : generateParams)
    (block : Block) (env : environment) :
  prepareWork nodeCtx w genParams block = inl env →
  (nodeCtx ≠ ZONE_CTX ∧ ∃ header, env = headerOnlyEnvironment header) ∨
  (nodeCtx = ZONE_CTX ∧
   ∃ header made,
     makeEnv block header (worker_coinbase w) = inl made ∧
     env = commitUncles (commitUncles made (map_to_list (localUncles w)))
             (map_to_list (remoteUncles w))).
Proof.
  unfold prepareWork. intros Hprep.
  destruct (if decide (gp_timestamp genParams ≤ Time (block_header block)) then _ else _)
    as [timestamp|err]; [|discriminate].
  destruct (if decide (HeaderHash (block_header block) ≠ GenesisHash) then _ else _)
    as [header|err]; [|discriminate].
  destruct (decide (nodeCtx = ZONE_CTX)) as [Hzone|Hzone].
  - right. split; [done|].
    destruct (if isRunning w then _ else _) as [header1|err]; [|discriminate].
    destruct (EnginePrepare header1 (block_header block)) as [header2|err];
      [|discriminate].
    destruct (makeEnv block header2 (worker_coinbase w)) as [made|err] eqn:Hmake;
      [|discriminate].
    injection Hprep as <-. by exists header2, made.
  - left. split; [done|]. injection Hprep as <-. by eexists.
Qed.

Lemma prepareWork_zone_made (w : worker) (genParams : generateParams)
    (block : Block) (env : environment) :
  prepareWork ZONE_CTX w genParams block = inl env →
  uncles_valid env ∧ (size (uncles env) ≤ 2)%nat ∧
  ∃ st header (hashes uncleHashes : gset N) accepted,
    env = mkEnvironment (Some (MakeSigner (Number header))) (Some st) hashes
            (uncleHashes ∪ hashes) 0 None (worker_coinbase w) header [] [] [] []
            accepted 0 0.
Proof.
  intros Hprep.
  destruct (prepareWork_inv _ _ _ _ _ Hprep) as [[Hctx _] | (_ & header & made & Hmake & ->)];
    [done|].
  destruct (makeEnv_inv _ _ _ _ Hmake) as (st & Hmade).
  set (locals := map_to_list (localUncles w)).
  set (remotes := map_to_list (remoteUncles w)).
  assert (uncles_valid made) as Hvalid0.
  { rewrite Hmade. intros hash uncle Hin. simpl in Hin. by rewrite lookup_empty in Hin. }
  assert (size (uncles made) ≤ 2)%nat as Hsize0.
  { rewrite Hmade. simpl. rewrite map_size_empty. lia. }
  split; [by do 2 apply commitUncles_keeps_valid|].
  split; [by do 2 apply commitUncles_size|].
  destruct (commitUncles_frame made locals) as (Hframe1 & _).
  destruct (commitUncles_frame (commitUncles made locals) remotes) as (Hframe2 & _).
  eexists st, header, _, _, _. rewrite Hframe2, Hframe1. rewrite Hmade at 1.
  reflexivity.
Qed.

(** X24.  The environment that [prepareWork] returns in a zone holds at most
    two uncles, each the header of a block of the local or of the remote
    pool, and each obeying the admission rules on the ancestors and the
    family that [makeEnv] collected.  Every ancestor is in the family.  The
    environment has a state and a signer, the worker's coinbase, and nothing
    committed yet: no transaction, no receipt, a nil gas pool and an external
    block length of zero. *)
Theorem prepareWork_zone_environment (w : worker) (genParams : generateParams)
    (block : Block) (env : environment) :
  prepareWork ZONE_CTX w genParams block = inl env →
  uncles_valid env ∧ (size (uncles env) ≤ 2)%nat ∧
  (∀ hash uncle, uncles env !! hash = Some uncle →
     ∃ key b, (localUncles w !! key = Some b ∨ remoteUncles w !! key = Some b) ∧
              uncle = block_header b) ∧
  ancestors env ⊆ family env ∧
  is_Some (state env) ∧ is_Some (signer env) ∧ coinbase env = worker_coinbase w ∧
  txs env = [] ∧ etxs env = [] ∧ receipts env = [] ∧ subManifest env = [] ∧
  tcount env = 0 ∧ gasPool env = None ∧
  externalGasUsed env = 0 ∧ externalBlockLength env = 0.
Proof.
  intros Hprep.
  destruct (prepareWork_zone_made _ _ _ _ Hprep)
    as (Hvalid & Hsize & st & hd & hashes & uncleHashes & accepted & Henv).
  split; [exact Hvalid|]. split; [exact Hsize|]. split.
  { destruct (prepareWork_inv _ _ _ _ _ Hprep)
      as [[Hctx _] | (_ & header & made & Hmake & Heq)]; [done|].
    destruct (makeEnv_inv _ _ _ _ Hmake) as (st0 & Hmade).
    destruct (commitUncles_frame made (map_to_list (localUncles w))) as (_ & Hfrom1).
    destruct (commitUncles_frame (commitUncles made (map_to_list (localUncles w)))
                (map_to_list (remoteUncles w))) as (_ & Hfrom2).
    rewrite Heq. intros hash uncle Hin.
    destruct (Hfrom2 hash uncle Hin) as [Hin1 | (key & b & Hb & ->)].
    - destruct (Hfrom1 hash uncle Hin1) as [Hin0 | (key & b & Hb & ->)].
      + rewrite Hmade in Hin0. simpl in Hin0. by rewrite lookup_empty in Hin0.
      + exists key, b. split; [left|done]. by apply elem_of_map_to_list.
    - exists key, b. split; [right|done]. by apply elem_of_map_to_list. }
  rewrite Henv. simpl. split; [apply union_subseteq_r|]. by repeat split.
Qed.

(** ** The copy of an environment *)

Lemma environment_copy_zone (env : environment) (st : StateDB) :
  state env = Some st →
  environment_copy ZONE_CTX env
  = Done (mkEnvironment (signer env) (Some (StateDB_Copy st)) (ancestors env)
            (family env) (tcount env) (gasPool env) (coinbase env) (header env)
            (txs env) (etxs env) [] (receipts env) (uncles env) 0 0).
Proof.
  intros Hst. unfold environment_copy. rewrite decide_True by done.
  rewrite Hst. go_simpl. by rewrite copyReceipts_id.
Qed.

(** X25.  What [env.copy()] copies.  Outside a zone the copy keeps the header
    and nothing else.  In a zone it panics on an environment without state;
    otherwise it carries a copy of the state and the signer, sets, counters,
    gas pool, coinbase, header, transactions, etxs, receipts and uncles of
    the original, but its sub-manifest is empty and its external gas used
    and external block length are zero: the copy equals the original, state
    apart, exactly when the original had these three at their zero values. *)
Theorem environment_copy_faithful (nodeCtx : NodeCtx) (env : environment) :
  (nodeCtx ≠ ZONE_CTX →
   environment_copy nodeCtx env = Done (headerOnlyEnvironment (header env))) ∧
  (state env = None → environment_copy ZONE_CTX env = Panic nil_deref) ∧
  (∀ st, state env = Some st →
     ∃ cpy, environment_copy ZONE_CTX env = Done cpy ∧
       state cpy = Some (StateDB_Copy st) ∧
       set_state cpy (state env)
       = mkEnvironment (signer env) (state env) (ancestors env) (family env)
           (tcount env) (gasPool env) (coinbase env) (header env) (txs env)
           (etxs env) [] (receipts env) (uncles env) 0 0 ∧
       (cpy = set_state env (Some (StateDB_Copy st)) ↔
        subManifest env = [] ∧ externalGasUsed env = 0 ∧
        externalBlockLength env = 0)).
Proof.
  split; [|split].
  - intros Hctx. unfold environment_copy. by rewrite decide_False.
  - intros Hst. unfold environment_copy. rewrite decide_True by done. by rewrite Hst.
  - intros st Hst. eexists. split; [by apply environment_copy_zone|].
    split; [done|]. split; [done|].
    destruct env as [sg st0 anc fam tc gp cb hd tx etx sub rc unc egu ebl].
    unfold set_state. simpl. split.
    + intros [= <- <- <-]. done.
    + intros (-> & -> & ->). done.
Qed.

(** ** The fees of a block *)

Lemma totalFees_wei_cases (txs : list Transaction) (receipts : list Receipt)
    (baseFee : Z) :
  if decide (length txs ≤ length receipts)%nat
  then ∃ fees, totalFees_wei txs receipts baseFee = Done fees ∧
               totalFees_wei txs (take (length txs) receipts) baseFee = Done fees
  else totalFees_wei txs receipts baseFee = Panic index_out_of_range.
Proof.
  revert receipts. induction txs as [|tx txs IH]; intros receipts.
  { destruct (decide _) as [_|Hgt]; [by exists 0 | simpl in Hgt; lia]. }
  destruct receipts as [|receipt receipts].
  { destruct (decide _) as [Hle|_]; [simpl in Hle; lia | done]. }
  specialize (IH receipts). cbn [totalFees_wei length take].
  destruct (decide (length txs ≤ length receipts)%nat) as [Hle|Hgt].
  - destruct (decide _) as [_|Hgt]; [|lia].
    destruct IH as (fees & -> & ->). go_simpl. by eexists.
  - destruct (decide _) as [Hle|_]; [lia|]. by rewrite IH.
Qed.

(** X26.  [totalFees] returns exactly when the block has no more transactions
    than there are receipts, and panics with an index out of range otherwise;
    receipts beyond the last transaction do not count. *)
Theorem totalFees_returns_iff (block : Block) (receipts : list Receipt) :
  let txs := body_Transactions (block_body block) in
  ((length txs ≤ length receipts)%nat ↔
   ∃ fees, totalFees block receipts = Done fees) ∧
  ((length receipts < length txs)%nat ↔
   totalFees block receipts = Panic index_out_of_range) ∧
  totalFees block (take (length txs) receipts) = totalFees block receipts.
Proof.
  intros txs. unfold totalFees. fold txs.
  pose proof (totalFees_wei_cases txs receipts (BaseFee (block_header block))) as Hc.
  destruct (decide (length txs ≤ length receipts)%nat) as [Hle|Hgt].
  - destruct Hc as (fees & Hrun & Htake). rewrite Hrun, Htake.
    split; [split; [by eexists|done]|]. split; [|done].
    split; [lia|discriminate].
  - rewrite Hc. rewrite take_ge by lia. rewrite Hc.
    split; [split; [lia|by intros [? ?]]|]. split; [|done].
    split; [done|lia].
Qed.

(** ** GeneratePendingHeader *)

Lemma adjustGasLimit_fresh (env : environment) (parent : Block) :
  externalBlockLength env = 0 →
  adjustGasLimit env parent
  = Done (set_header env
            (SetGasLimit (header env)
               (CalcGasLimit (GasLimit (block_header parent))
                  (wrap64 (GasUsed (block_header parent) + externalGasUsed env)
                     `div` 1)))).
Proof.
  intros Hlen. unfold adjustGasLimit. rewrite Hlen.
  change (uint64_of_int (wrap_int (0 + 1))) with 1.
  by rewrite decide_False by done.
Qed.

Lemma uncles_valid_transfer (env env' : environment) :
  uncles env' = uncles env → ancestors env' = ancestors env →
  family env' = family env → ParentHash (header env') = ParentHash (header env) →
  uncles_valid env → uncles_valid env'.
Proof.
  unfold uncles_valid. intros -> -> -> ->. done.
Qed.

Lemma env_frame_ParentHash (env env' : environment) :
  env_frame env env' → ParentHash (header env') = ParentHash (header env).
Proof.
  intros (_ & _ & _ & _ & _ & _ & _ & _ & Hheader).
  by apply (f_equal ParentHash) in Hheader.
Qed.

Lemma FinalizeAssembleAndBroadcast_worker (nodeCtx : NodeCtx) (w : worker)
    (header : Header) (parent : Block) (state : option StateDB)
    (txs : list Transaction) (uncles : list Header) (etxs : list Transaction)
    (subManifest : list Hash) (receipts : list Receipt) :
  match FinalizeAssembleAndBroadcast nodeCtx w header parent state txs uncles etxs
          subManifest receipts with
  | (w', inr _) => w' = w
  | (w', inl block) =>
      w' = AddPendingBlockBody w (block_header block) (Some (block_body block)) ∧
      ∃ assembled,
        FinalizeAndAssemble header state txs uncles etxs subManifest receipts
        = inl assembled ∧ block_body block = block_body assembled
  end.
Proof.
  unfold FinalizeAssembleAndBroadcast.
  destruct (FinalizeAndAssemble _ _ _ _ _ _ _) as [assembled|err]; [|done].
  destruct (if decide (nodeCtx = PRIME_CTX) then _ else _) as [manifest|err]; [|done].
  destruct (if decide (nodeCtx = ZONE_CTX) then _ else _) as [block|err] eqn:Hroll;
    [|done].
  split; [done|]. exists assembled. split; [done|].
  destruct (decide (nodeCtx = ZONE_CTX)).
  - destruct (if IsDomCoincident _ then _ else _) as [rollup|err]; [|done].
    by injection Hroll as <-.
  - by injection Hroll as <-.
Qed.

Lemma GeneratePendingHeader_stages (nodeCtx : NodeCtx) (w : worker) (now : Z)
    (block : Block) (fill : bool) (prepared : environment) :
  worker_coinbase w ≠ ZeroAddr →
  prepareWork nodeCtx (set_newTxs w 0)
    (mkGenerateParams (wrap64 now) false (worker_coinbase w)) block = inl prepared →
  ∃ w1 work cpy,
    worker_frame (set_newTxs w 0) w1 ∧
    environment_copy nodeCtx work = Done cpy ∧
    (nodeCtx = ZONE_CTX →
     uncles_valid work ∧ (size (uncles work) ≤ 2)%nat ∧
     uncles work = uncles prepared ∧
     length (txs work) = length (receipts work) ∧
     ∃ st, state work = Some st ∧
       cpy = mkEnvironment (signer work) (Some (StateDB_Copy st)) (ancestors work)
               (family work) (tcount work) (gasPool work) (coinbase work)
               (header work) (txs work) (etxs work) [] (receipts work)
               (uncles work) 0 0) ∧
    (nodeCtx ≠ ZONE_CTX →
     w1 = set_newTxs w 0 ∧ work = prepared ∧
     cpy = headerOnlyEnvironment (header prepared)) ∧
    GeneratePendingHeader nodeCtx w now block fill
    = (let '(w3, assembled) :=
         FinalizeAssembleAndBroadcast nodeCtx (set_current w1 (Some work)) (header cpy)
           block (state cpy) (txs cpy) (unclelist cpy) (etxs cpy) (subManifest cpy)
           (receipts cpy) in
       match assembled with
       | inr err => Done (w3, inr err)
       | inl blk =>
           _ ←! totalFees blk (receipts cpy);
           w4 ←! updateSnapshot nodeCtx w3 (set_header cpy (block_header blk));
           snapshot ←! deref (snapshotBlock w4);
           Done (w4, inl (block_header snapshot))
       end).
Proof.
  intros Hcoinbase Hprep. unfold GeneratePendingHeader.
  cbn [worker_coinbase set_newTxs]. rewrite decide_False by done.
  change (worker_coinbase w) with (worker_coinbase (set_newTxs w 0)) in Hprep at 1.
  set (w0 := set_newTxs w 0) in *.
  replace (prepareWork nodeCtx w0 _ block) with (@inl _ error prepared).
  destruct (decide (nodeCtx = ZONE_CTX)) as [->|Hctx].
  - destruct (prepareWork_zone_made _ _ _ _ Hprep)
      as (Hvalid & Hsize & st & hd & hashes & uncleHashes & accepted & Henv).
    assert (externalBlockLength prepared = 0) as Hlen by (by rewrite Henv).
    rewrite (adjustGasLimit_fresh _ block Hlen). go_simpl.
    set (adjusted := set_header prepared _).
    assert (is_Some (state adjusted)) as Hst by (unfold adjusted; rewrite Henv; simpl; eauto).
    assert (is_Some (signer adjusted)) as Hsg by (unfold adjusted; rewrite Henv; simpl; eauto).
    assert (∃ w1 work addedTxs addedReceipts,
              (if fill then fillTransactions w0 (Some (λ _, commitInterruptNone))
                              adjusted block
               else Done (w0, adjusted)) = Done (w1, work) ∧
              txs work = txs adjusted ++ addedTxs ∧
              receipts work = receipts adjusted ++ addedReceipts ∧
              length addedTxs = length addedReceipts ∧
              env_frame adjusted work ∧ is_Some (state work) ∧ worker_frame w0 w1)
      as (w1 & work & added & addedR & -> & Ht & Hr & Hl & Hf & [st' Hst'] & Hw).
    { destruct fill.
      - apply fillTransactions_effect; [done|done|]. intros load. done.
      - exists w0, adjusted, [], []. rewrite !app_nil_r.
        split; [done|]. split; [done|]. split; [done|]. split; [done|].
        split; [apply env_frame_refl|]. split; [done|]. apply worker_frame_refl. }
    go_simpl. rewrite (environment_copy_zone work st' Hst'). go_simpl.
    eexists w1, work, _. split; [exact Hw|].
    split; [exact (environment_copy_zone work st' Hst')|].
    pose proof Hf as (_ & Hanc & Hfam & _ & _ & Hunc & _).
    split.
    { intros _. split.
      { apply (uncles_valid_transfer prepared); try done.
        by rewrite (env_frame_ParentHash _ _ Hf). }
      split; [by rewrite Hunc|]. split; [by rewrite Hunc|]. split.
      { rewrite Ht, Hr, !length_app, Hl. unfold adjusted. rewrite Henv. done. }
      by exists st'. }
    split; [done|].
    by destruct (FinalizeAssembleAndBroadcast _ _ _ _ _ _ _ _ _ _) as [w3 [blk|err]].
  - go_simpl.
    destruct (prepareWork_inv _ _ _ _ _ Hprep) as [[_ [hd ->]] | [Hzone _]]; [|done].
    unfold environment_copy. rewrite decide_False by done. go_simpl.
    eexists w0, _, _. split; [apply worker_frame_refl|].
    split; [by rewrite decide_False|].
    split; [done|]. split; [done|].
    by destruct (FinalizeAssembleAndBroadcast _ _ _ _ _ _ _ _ _ _) as [w3 [blk|err]].
Qed.

Lemma updateSnapshot_returns (nodeCtx : NodeCtx) (w : worker) (env : environment) :
  (nodeCtx = ZONE_CTX → is_Some (state env)) →
  ∃ w', updateSnapshot nodeCtx w env = Done w' ∧
    snapshotBlock w'
    = Some (NewBlock (header env) (txs env) (unclelist env) (etxs env)
              (subManifest env) (receipts env)) ∧
    current w' = current w ∧ newTxs w' = newTxs w ∧
    pendingBlockBody w' = pendingBlockBody w ∧
    (nodeCtx = ZONE_CTX →
     snapshotReceipts w' = receipts env ∧
     ∃ st, state env = Some st ∧ snapshotState w' = Some (StateDB_Copy st)) ∧
    (nodeCtx ≠ ZONE_CTX →
     snapshotReceipts w' = snapshotReceipts w ∧ snapshotState w' = snapshotState w).
Proof.
  intros Hst. unfold updateSnapshot.
  destruct (decide (nodeCtx = ZONE_CTX)) as [Hctx|Hctx].
  - destruct (Hst Hctx) as [st Hstate]. rewrite Hstate. go_simpl.
    eexists. split; [reflexivity|]. simpl. rewrite copyReceipts_id.
    split; [done|]. split; [done|]. split; [done|]. split; [done|].
    split; [|done]. intros _. split; [done|]. by exists st.
  - eexists. split; [reflexivity|]. simpl. by repeat split.
Qed.

Lemma worker_frame_fields (w w' : worker) :
  worker_frame w w' →
  current w' = current w ∧ newTxs w' = newTxs w ∧
  snapshotBlock w' = snapshotBlock w ∧ snapshotReceipts w' = snapshotReceipts w ∧
  snapshotState w' = snapshotState w ∧ pendingBlockBody w' = pendingBlockBody w.
Proof. unfold worker_frame. intros ->. by repeat split. Qed.

(** X27.  When [GeneratePendingHeader] returns an error, the snapshot and the
    cache of pending bodies are as they were and the counter of new
    transactions has been reset.  The error is the refusal to work without
    an etherbase, or the error of [prepareWork], and then nothing else of
    the worker has changed; or it is the error of the assembly, and then the
    current environment has already been replaced by the new work. *)
Theorem GeneratePendingHeader_on_error (nodeCtx : NodeCtx) (w w' : worker) (now : Z)
    (block : Block) (fill : bool) (err : error) :
  GeneratePendingHeader nodeCtx w now block fill = Done (w', inr err) →
  let prepared :=
    prepareWork nodeCtx (set_newTxs w 0)
      (mkGenerateParams (wrap64 now) false (worker_coinbase w)) block in
  newTxs w' = 0 ∧
  snapshotBlock w' = snapshotBlock w ∧ snapshotReceipts w' = snapshotReceipts w ∧
  snapshotState w' = snapshotState w ∧ pendingBlockBody w' = pendingBlockBody w ∧
  ((worker_coinbase w = ZeroAddr ∧ err = errors_New "etherbase not found" ∧
    w' = set_newTxs w 0) ∨
   (worker_coinbase w ≠ ZeroAddr ∧ prepared = inr err ∧ w' = set_newTxs w 0) ∨
   (worker_coinbase w ≠ ZeroAddr ∧
    ∃ env work, prepared = inl env ∧ current w' = Some work ∧
                (nodeCtx ≠ ZONE_CTX → work = env))).
Proof.
  intros Hrun prepared.
  destruct (decide (worker_coinbase w = ZeroAddr)) as [Hzero|Hcoinbase].
  { unfold GeneratePendingHeader in Hrun. cbn [worker_coinbase set_newTxs] in Hrun.
    rewrite decide_True in Hrun by done. injection Hrun as <- <-.
    do 5 (split; [done|]). left. done. }
  destruct prepared as [env|e] eqn:Hprep; subst prepared.
  2:{ unfold GeneratePendingHeader in Hrun. cbn [worker_coinbase set_newTxs] in Hrun.
      rewrite decide_False in Hrun by done.
      change (worker_coinbase w) with (worker_coinbase (set_newTxs w 0)) in Hprep at 1.
      replace (prepareWork nodeCtx _ _ block) with (@inr environment _ e) in Hrun.
      injection Hrun as <- <-. do 5 (split; [done|]). right. left. done. }
  destruct (GeneratePendingHeader_stages nodeCtx w now block fill env Hcoinbase Hprep)
    as (w1 & work & cpy & Hw1 & Hcopy & Hzone & Hother & Heq).
  rewrite Heq in Hrun. clear Heq.
  pose proof (FinalizeAssembleAndBroadcast_worker nodeCtx (set_current w1 (Some work))
                (header cpy) block (state cpy) (txs cpy) (unclelist cpy) (etxs cpy)
                (subManifest cpy) (receipts cpy)) as Hfinal.
  destruct (FinalizeAssembleAndBroadcast _ _ _ _ _ _ _ _ _ _) as [w3 [blk|e]].
  { exfalso. destruct Hfinal as (_ & assembled & _ & _).
    destruct (totalFees blk (receipts cpy)); cbn [go_bind] in Hrun; try discriminate.
    destruct (updateSnapshot_returns nodeCtx w3 (set_header cpy (block_header blk)))
      as (w4 & Hsnap & Hblock & _).
    { intros Hctx. destruct (Hzone Hctx) as (_ & _ & _ & _ & st & _ & ->). simpl. eauto. }
    rewrite Hsnap in Hrun. cbn [go_bind] in Hrun. rewrite Hblock in Hrun.
    discriminate. }
  subst w3. injection Hrun as <- <-.
  destruct (worker_frame_fields _ _ Hw1) as (_ & Hn & Hb & Hr & Hs & Hp).
  simpl in Hn, Hb, Hr, Hs, Hp. simpl.
  do 5 (split; [done|]). right. right. split; [done|].
  exists env, work. split; [done|]. split; [done|].
  intros Hctx. by destruct (Hother Hctx) as (_ & -> & _).
Qed.


(** X29.  [GeneratePendingHeader] always comes to an end, and it never
    divides by zero nor dereferences a nil pointer: the environment it
    prepares has a state, a signer and an external block length of zero.
    Its only panic is the index out of range of [totalFees], which takes an
    engine that assembles a block with more transactions than the receipts
    it was handed. *)
Theorem GeneratePendingHeader_panics (nodeCtx : NodeCtx) (w : worker) (now : Z)
    (block : Block) (fill : bool) :
  GeneratePendingHeader nodeCtx w now block fill ≠ Diverge ∧
  ∀ reason, GeneratePendingHeader nodeCtx w now block fill = Panic reason →
    reason = index_out_of_range ∧
    ∃ header state txs uncles etxs receipts assembled,
      FinalizeAndAssemble header state txs uncles etxs [] receipts = inl assembled ∧
      (length receipts < length (body_Transactions (block_body assembled)))%nat.
Proof.
  destruct (decide (worker_coinbase w = ZeroAddr)) as [Hzero|Hcoinbase].
  { unfold GeneratePendingHeader. cbn [worker_coinbase set_newTxs].
    rewrite decide_True by done. split; [done|]. intros reason [=]. }
  destruct (prepareWork nodeCtx (set_newTxs w 0)
              (mkGenerateParams (wrap64 now) false (worker_coinbase w)) block)
    as [env|e] eqn:Hprep.
  2:{ unfold GeneratePendingHeader. cbn [worker_coinbase set_newTxs].
      rewrite decide_False by done.
      change (worker_coinbase w) with (worker_coinbase (set_newTxs w 0)) in Hprep at 1.
      replace (prepareWork nodeCtx _ _ block) with (@inr environment _ e).
      split; [done|]. intros reason [=]. }
  destruct (GeneratePendingHeader_stages nodeCtx w now block fill env Hcoinbase Hprep)
    as (w1 & work & cpy & Hw1 & Hcopy & Hzone & Hother & ->).
  assert (subManifest cpy = []) as Hsub.
  { destruct (decide (nodeCtx = ZONE_CTX)) as [Hctx|Hctx].
    - by destruct (Hzone Hctx) as (_ & _ & _ & _ & st & _ & ->).
    - by destruct (Hother Hctx) as (_ & _ & ->). }
  pose proof (FinalizeAssembleAndBroadcast_worker nodeCtx (set_current w1 (Some work))
                (header cpy) block (state cpy) (txs cpy) (unclelist cpy) (etxs cpy)
                (subManifest cpy) (receipts cpy)) as Hfinal.
  destruct (FinalizeAssembleAndBroadcast _ _ _ _ _ _ _ _ _ _) as [w3 [blk|e]].
  2:{ split; [done|]. intros reason [=]. }
  destruct Hfinal as (-> & assembled & Hasm & Hbody).
  pose proof (totalFees_wei_cases (body_Transactions (block_body blk)) (receipts cpy)
                (BaseFee (block_header blk))) as Hfees.
  unfold totalFees.
  destruct (decide (length (body_Transactions (block_body blk)) ≤ length (receipts cpy))%nat)
    as [Hle|Hgt].
  - destruct Hfees as (fees & -> & _). go_simpl.
    destruct (updateSnapshot_returns nodeCtx
                (AddPendingBlockBody (set_current w1 (Some work)) (block_header blk)
                   (Some (block_body blk)))
                (set_header cpy (block_header blk)))
      as (w4 & -> & Hblock & _).
    { intros Hctx. destruct (Hzone Hctx) as (_ & _ & _ & _ & st & _ & ->). simpl. eauto. }
    go_simpl. rewrite Hblock. go_simpl. split; [done|]. intros reason [=].
  - rewrite Hfees. go_simpl. split; [done|]. intros reason [= <-]. split; [done|].
    rewrite Hsub in Hasm. rewrite Hbody in Hgt.
    eexists _, _, _, _, _, _, assembled. split; [exact Hasm|]. lia.
Qed.
End SealingProperties.

(** * The properties on the sample instance *)

Import Sample.

Lemma commitTransaction_atomic_witness :
  ∃ env' logs err,
    commitTransaction env1 (Some (tx 1 0)) = Done (env', (logs, err)) ∧
    txs env' = [tx 1 0] ∧ length (receipts env') = 1%nat ∧
    GasUsed (header env') = 21000.
Proof.
  destruct (commitTransaction_atomic env1 (tx 1 0) (mkState 0 []) eq_refl)
    as (env' & logs & err & Hrun & Hres).
  exists env', logs, err. split; [exact Hrun|].
  vm_compute in Hres |- *.
  destruct Hres as (_ & _ & _ & Htxs & Hrec & _ & Hgas & _).
  split; [exact Htxs|]. rewrite Hrec. split; [reflexivity|exact Hgas].
Defined.

Lemma commitTransactions_dispatch_witness :
  ∃ s', commitTransactions_iteration None loop0 = Done (Continue s') ∧
        ls_txs s' = [[tx 2 0]; [tx 100 3]] ∧ tcount (ls_env s') = 1.
Proof.
  edestruct (commitTransactions_dispatch None loop0 50000 (tx 1 0) () (mkState 0 []))
    as (s' & Hrun & _ & _ & _ & Hok & _).
  - intros f Hf. discriminate Hf.
  - reflexivity.
  - unfold TxGas. lia.
  - reflexivity.
  - reflexivity.
  - reflexivity.
  - lazy. reflexivity.
  - exists s'. split; [exact Hrun|]. rewrite (Hok eq_refl). split; reflexivity.
Defined.

Lemma commitTransactions_result_witness :
  ∃ s' ratio,
    commitTransactions_from 0 worker0 env1 txset0 (Some (λ _, commitInterruptResubmit))
      = Done (s', false) ∧
    resubmitAdjustCh (ls_worker s') = [mkIntervalAdjust ratio true] ∧
    float64_lt ratio float64_0_1 = false.
Proof.
  destruct (commitTransactions_result 0 worker0 env1 txset0
              (Some (λ _, commitInterruptResubmit))
              (mk_is_Some _ _ eq_refl) (mk_is_Some _ _ eq_refl))
    as [(s' & Hrun & Hch & _)
       | (f & k & Hf & _ & _ & _ &
          [(s' & result & gp & Hrun & _ & Hres & _ & Hre & _) | (_ & _ & Hfull)])].
  - vm_compute in Hrun. injection Hrun as <-. vm_compute in Hch. discriminate Hch.
  - injection Hf as <-. destruct (Hre eq_refl) as (_ & Hch & Hlt & _).
    destruct result.
    + destruct Hres as [Hres _]. discriminate (Hres eq_refl).
    + eexists s', _. split; [exact Hrun|]. split; [exact Hch|exact Hlt].
  - vm_compute in Hfull. lia.
Defined.

(** C2: with a gas limit of zero and an empty gas pool the ratio is NaN, which
    does not compare below 0.1 and is sent as it is; a word that reads
    NewHead at the third load makes the run return [true] after the message
    was sent; and on a full channel the run does not return. *)
Lemma commitTransactions_resubmit_corner_cases :
  (∃ s', commitTransactions_from 0 worker0 envZeroGas txset0
           (Some (λ _, commitInterruptResubmit)) = Done (s', false) ∧
         resubmitAdjustCh (ls_worker s') = [mkIntervalAdjust float64_NaN true] ∧
         float64_le float64_0_1 float64_NaN = false) ∧
  (∃ s', commitTransactions_from 0 worker0 env1 txset0 (Some resubmitThenNewHead)
         = Done (s', true) ∧
         length (resubmitAdjustCh (ls_worker s')) = 1%nat) ∧
  commitTransactions_from 0 workerFullChannel env1 txset0
    (Some (λ _, commitInterruptResubmit)) = Diverge.
Proof.
  split; [|split].
  - eexists. split; [vm_compute; reflexivity|]. split; reflexivity.
  - eexists. split; [vm_compute; reflexivity|]. reflexivity.
  - vm_compute. reflexivity.
Qed.

(** C4: with two uncles in the map, [commitUncle] admits a third. *)
Lemma commitUncle_exceeds_two :
  ¬ ∀ (env : environment) (uncle : Header),
      (size (uncles env) ≤ 2)%nat →
      (size (uncles (commitUncle env uncle).1) ≤ 2)%nat.
Proof.
  intros H. specialize (H envTwoUncles uncle3).
  vm_compute in H. lia.
Qed.

Lemma FinalizeAssembleAndBroadcast_hashes_witness :
  ∃ w' block m,
    FinalizeAssembleAndBroadcast ZONE_CTX worker0 (header env1) (blk 8000%N 9)
      (state env1) [] [] [] [] [] = (w', inl block) ∧
    CollectBlockManifest (block_header (blk 8000%N 9)) = inl m ∧
    ManifestHash (block_header block)
    = DeriveSha (BlockManifest (m ++ [ParentHash (header env1)])).
Proof.
  edestruct (FinalizeAssembleAndBroadcast_hashes ZONE_CTX worker0 (header env1)
               (blk 8000%N 9) (state env1) [] [] [] [] [])
    as (w' & block & Hrun & _ & _ & Hmanifest & _).
  - reflexivity.
  - intros _ _. eexists. reflexivity.
  - intros _ _. eexists. reflexivity.
  - destruct Hmanifest as (m & Hm & Hhash); [discriminate | reflexivity |].
    exists w', block, m. split; [exact Hrun|]. split; [exact Hm | exact Hhash].
Defined.

Lemma StorePendingBlockBody_then_Load_witness :
  lru_wf (pendingBlockBody workerCached) ∧
  lru_Keys (pendingBlockBody (LoadPendingBlockBody (restart (StorePendingBlockBody workerCached))))
  = [0%N; 5%N].
Proof.
  assert (lru_wf (pendingBlockBody workerCached)) as Hwf.
  { split; [|vm_compute; lia].
    apply (bool_decide_unpack _). vm_compute. exact I. }
  split; [exact Hwf|].
  destruct (StorePendingBlockBody_then_Load workerCached Hwf) as (_ & Hkeys & _).
  exact Hkeys.
Defined.

(** C6: the keys index written by the store is still in the store after the
    load, so the store is not left empty. *)
Lemma pendingBody_index_stays :
  workerDb workerCached = emptyDatabase ∧
  db_pbBodyKeys
    (workerDb (LoadPendingBlockBody (restart (StorePendingBlockBody workerCached))))
  = Some [0%N; 5%N] ∧
  workerDb (LoadPendingBlockBody (restart (StorePendingBlockBody workerCached)))
  ≠ emptyDatabase.
Proof.
  split; [reflexivity|]. split; [vm_compute; reflexivity|].
  intros H. apply (f_equal db_pbBodyKeys) in H. vm_compute in H. discriminate H.
Qed.

(** C6: what the index that stays leads to.  After a store, a restart and a
    load, the cache holds the body of key 5 and the store holds the index
    but no blob.  A second restart that no store came before loads the
    index again: key 5 is cached with a nil body, a body that is then added
    under that key is dropped by [ContainsOrAdd], and [GetPendingBlockBody]
    returns nil for it. *)
Lemma pendingBody_stale_index_shadows_body :
  let first := LoadPendingBlockBody (restart (StorePendingBlockBody workerCached)) in
  let second := LoadPendingBlockBody (restart first) in
  let header := mkHeader 9000%N 10 0 0 0 0 1%N 0%N 4%N 0%N 0%N in
  getPendingBlockBodyKey header = 5%N ∧
  lru_Peek (pendingBlockBody first) 5%N = Some (Some body5) ∧
  db_pbBodyKeys (workerDb first) = Some [0%N; 5%N] ∧
  db_pbCacheBody (workerDb first) !! 5%N = None ∧
  lru_Peek (pendingBlockBody second) 5%N = Some None ∧
  (GetPendingBlockBody (AddPendingBlockBody second header (Some body5)) header).2
  = None.
Proof. cbv zeta. repeat split; vm_compute; reflexivity. Qed.

Lemma cleanTicker_sweeps_witness :
  localUncles (mainLoop_cleanTicker workerUncles (blk 9000%N 10)) !! 3000%N = None ∧
  remoteUncles (mainLoop_cleanTicker workerUncles (blk 9000%N 9)) !! 3001%N
  = Some (blk 2000%N 3).
Proof.
  assert (0 ≤ NumberU64 (blk 2000%N 3)) as Hpos by (vm_compute; discriminate).
  assert (NumberU64 (blk 2000%N 3) + staleThreshold < 2 ^ 64) as Hmax
    by (vm_compute; reflexivity).
  split.
  - destruct (cleanTicker_sweeps workerUncles (blk 9000%N 10) 3000%N (blk 2000%N 3)
                Hpos Hmax) as [Hlocal _].
    destruct (Hlocal eq_refl) as [Hgone _]. apply Hgone. vm_compute. discriminate.
  - destruct (cleanTicker_sweeps workerUncles (blk 9000%N 9) 3001%N (blk 2000%N 3)
                Hpos Hmax) as [_ Hremote].
    destruct (Hremote eq_refl) as [_ Hkept]. apply Hkept. vm_compute. reflexivity.
Defined.

(** C7: an uncle exactly 7 blocks behind the chain head is removed. *)
Lemma cleanTicker_removes_at_seven :
  NumberU64 (blk 9000%N 10) - NumberU64 (blk 2000%N 3) = 7 ∧
  localUncles workerUncles !! 3000%N = Some (blk 2000%N 3) ∧
  localUncles (mainLoop_cleanTicker workerUncles (blk 9000%N 10)) !! 3000%N = None.
Proof. vm_compute. repeat split. Qed.

Lemma txsCh_counts_newTxs_witness :
  ∃ w', mainLoop_txsCh ZONE_CTX workerIdle [tx 1 0; tx 2 0] = Done w' ∧ newTxs w' = 2.
Proof.
  destruct (txsCh_counts_newTxs ZONE_CTX workerIdle [tx 1 0; tx 2 0])
    as (w' & Hrun & _ & Hcount).
  - intros cur Hcur. injection Hcur as <-. split; eexists; reflexivity.
  - exists w'. split; [exact Hrun|]. rewrite (Hcount eq_refl). reflexivity.
Defined.

(** C8: an idle worker whose current gas pool is below [TxGas] drops the
    event, and [newTxs] is not incremented. *)
Lemma txsCh_full_block_drops_event :
  mainLoop_txsCh ZONE_CTX workerIdleFull [tx 1 0] = Done workerIdleFull ∧
  newTxs workerIdleFull
  ≠ wrap32 (newTxs workerIdleFull + wrap32 (Z.of_nat (length [tx 1 0]))).
Proof. split; [reflexivity|]. vm_compute. discriminate. Qed.

Lemma adjustGasLimit_sets_limit_witness :
  ∃ env', adjustGasLimit env1 (mkBlock (mkHeader 8000%N 9 0 90000 42000 0 0%N 0%N 0%N 0%N 0%N)
                                 emptyBody) = Done env' ∧
          GasLimit (header env') = 66000.
Proof.
  destruct (adjustGasLimit_sets_limit env1
              (mkBlock (mkHeader 8000%N 9 0 90000 42000 0 0%N 0%N 0%N 0%N 0%N) emptyBody))
    as (env' & Hrun & _ & Hlimit & _).
  - vm_compute. discriminate.
  - exists env'. split; [exact Hrun|]. rewrite Hlimit. vm_compute. reflexivity.
Defined.

Lemma pending_after_updateSnapshot_witness :
  ∃ w', updateSnapshot ZONE_CTX worker0 env1 = Done w' ∧
        snapshotState w' = Some (mkState 0 []).
Proof.
  destruct (pending_after_updateSnapshot worker0 env1) as (_ & Hzone & _).
  destruct (Hzone (mkState 0 []) eq_refl) as (w' & Hrun & Hstate & _).
  exists w'. split; [exact Hrun | exact Hstate].
Defined.

(** C10: outside ZONE, [updateSnapshot] sets a snapshot block and no snapshot
    state, and [pending] still returns (nil, nil). *)
Lemma pending_nil_after_updateSnapshot_in_region :
  ∃ w', updateSnapshot REGION_CTX worker0 (headerOnlyEnvironment (hdr 9000%N 10)) = Done w' ∧
        pendingBlock w' = Some (blk 9000%N 10) ∧
        pending w' = (None, None).
Proof. eexists. split; [reflexivity|]. split; reflexivity. Qed.

(** ** The further properties on the sample instance *)

Lemma commitTransactions_appends_in_step_witness :
  ∃ s' result,
    commitTransactions_from 0 worker0 env1 txset0 None = Done (s', result) ∧
    length (txs (ls_env s')) = length (receipts (ls_env s')).
Proof.
  destruct (commitTransactions_appends_in_step 0 worker0 env1 txset0 None
              (mk_is_Some _ _ eq_refl) (mk_is_Some _ _ eq_refl))
    as [(s' & result & added & addedR & Hrun & _ & _ & _ & _ & Heq) | [_ Hblocked]];
    [|destruct (Hblocked (send_returns_nil worker0))].
  exists s', result. split; [exact Hrun | exact (Heq eq_refl)].
Defined.

Lemma commitTransactions_tcount_counts_witness :
  ∃ s' result,
    commitTransactions_from 0 worker0 env1 txset0 None = Done (s', result) ∧
    tcount (ls_env s') - tcount env1
    = Z.of_nat (length (txs (ls_env s'))) - Z.of_nat (length (txs env1)).
Proof.
  destruct (commitTransactions_tcount_counts 0 worker0 env1 txset0 None
              (mk_is_Some _ _ eq_refl) (mk_is_Some _ _ eq_refl))
    as [(s' & result & Hrun & Hcount & _) | [_ Hblocked]].
  - vm_compute. discriminate.
  - vm_compute. reflexivity.
  - exists s', result. split; [exact Hrun | exact Hcount].
  - destruct (Hblocked (send_returns_nil worker0)).
Defined.

Lemma commitTransactions_frame_witness :
  ∃ s' result,
    commitTransactions_from 0 worker0 envTwoUncles txset0 None = Done (s', result) ∧
    uncles (ls_env s') = uncles envTwoUncles.
Proof.
  destruct (commitTransactions_frame 0 worker0 envTwoUncles txset0 None
              (mk_is_Some _ _ eq_refl) (mk_is_Some _ _ eq_refl))
    as [(s' & result & Hrun & Huncles & _) | [_ Hblocked]];
    [|destruct (Hblocked (send_returns_nil worker0))].
  exists s', result. split; [exact Hrun | exact Huncles].
Defined.

Lemma commitTransactions_pendingLogs_witness :
  ∃ s' addedReceipts,
    commitTransactions_from 0 worker0 env1 txset0 None = Done (s', false) ∧
    receipts (ls_env s') = receipts env1 ++ addedReceipts.
Proof.
  destruct (commitTransactions_pendingLogs 0 worker0 env1 txset0
              (mk_is_Some _ _ eq_refl) (mk_is_Some _ _ eq_refl))
    as (s' & addedR & Hrun & Hreceipts & _).
  exists s', addedR. split; [exact Hrun | exact Hreceipts].
Defined.

Lemma commitTransactions_newHead_at_entry_witness :
  ∃ s', commitTransactions_from 0 worker0 env1 txset0 (Some (λ _, commitInterruptNewHead))
        = Done (s', true) ∧ txs (ls_env s') = [].
Proof.
  destruct (commitTransactions_newHead_at_entry 0 worker0 env1 txset0
              (λ _, commitInterruptNewHead))
    as (s' & Hrun & _ & _ & Htxs & _).
  - discriminate.
  - discriminate.
  - reflexivity.
  - exists s'. split; [exact Hrun | exact Htxs].
Defined.

Lemma commitTransactions_pool_exhausted_witness :
  ∃ s', commitTransactions_from 0 worker0 envFull txset0 None = Done (s', false) ∧
        ls_env s' = envFull ∧ ls_txs s' = txset0.
Proof.
  destruct (commitTransactions_pool_exhausted 0 worker0 envFull txset0 None 20999
              eq_refl eq_refl eq_refl)
    as (s' & Hrun & _ & Henv & Htxs).
  exists s'. split; [exact Hrun|]. split; [exact Henv | exact Htxs].
Defined.

Lemma commitTransactions_empty_iterator_witness :
  ∃ s', commitTransactions_from 0 worker0 env1 txsetEmpty None
        = Done (s', false) ∧ ls_env s' = env1.
Proof.
  destruct (commitTransactions_empty_iterator 0 worker0 env1
              txsetEmpty None eq_refl eq_refl)
    as (s' & Hrun & _ & _ & Henv).
  exists s'. split; [exact Hrun | exact Henv].
Defined.

Lemma uncles_valid_envAncestors : uncles_valid envAncestors.
Proof. intros hash uncle Hin. vm_compute in Hin. discriminate Hin. Defined.

Lemma commitUncles_keeps_invariants_witness :
  uncles_valid (commitUncles envAncestors candidates) ∧
  (size (uncles (commitUncles envAncestors candidates)) ≤ 2)%nat.
Proof.
  destruct (commitUncles_keeps_invariants envAncestors candidates
              uncles_valid_envAncestors) as (Hvalid & Hsize & _).
  - vm_compute. lia.
  - split; [exact Hvalid | exact Hsize].
Defined.

Lemma unclelist_of_valid_witness :
  length (unclelist (commitUncles envAncestors candidates))
  = size (uncles (commitUncles envAncestors candidates)).
Proof.
  destruct (unclelist_of_valid (commitUncles envAncestors candidates)) as [Hlen _].
  - apply commitUncles_keeps_valid. exact uncles_valid_envAncestors.
  - exact Hlen.
Defined.

Lemma lru_wf_workerCached : lru_wf (pendingBlockBody workerCached).
Proof.
  split; [|vm_compute; lia]. apply (bool_decide_unpack _). vm_compute. exact I.
Defined.

Lemma AddPendingBlockBody_keeps_capacity_witness :
  (lru_Len (pendingBlockBody (AddPendingBlockBody workerCached (hdr 9000%N 10)
                                (Some body5))) ≤ 1024)%nat.
Proof.
  destruct (AddPendingBlockBody_keeps_capacity workerCached (hdr 9000%N 10) (Some body5)
              lru_wf_workerCached) as (_ & _ & Hlen).
  exact Hlen.
Defined.

Lemma GetPendingBlockBody_after_Add_witness :
  (GetPendingBlockBody
     (AddPendingBlockBody workerCached
        (mkHeader 9000%N 10 0 0 0 0 1%N 2%N 4%N 0%N 0%N) (Some body5))
     (mkHeader 8000%N 9 0 0 0 0 1%N 2%N 4%N 0%N 0%N)).2
  = Some body5.
Proof.
  rewrite (GetPendingBlockBody_after_Add workerCached
             (mkHeader 9000%N 10 0 0 0 0 1%N 2%N 4%N 0%N 0%N)
             (mkHeader 8000%N 9 0 0 0 0 1%N 2%N 4%N 0%N 0%N) (Some body5)
             lru_wf_workerCached).
  - vm_compute. reflexivity.
  - vm_compute. lia.
  - reflexivity.
  - reflexivity.
  - reflexivity.
Defined.

Lemma LoadPendingBlockBody_into_empty_witness :
  lru_Keys (pendingBlockBody (LoadPendingBlockBody workerStale)) = [5%N; 0%N] ∧
  lru_Peek (pendingBlockBody (LoadPendingBlockBody workerStale)) 5%N = Some None.
Proof.
  destruct (LoadPendingBlockBody_into_empty workerStale [5%N; 0%N] pendingBlockBodyLimit)
    as (Hkeys & _ & Hnil & _).
  - reflexivity.
  - apply (bool_decide_unpack _). vm_compute. exact I.
  - reflexivity.
  - vm_compute. lia.
  - split; [exact Hkeys|]. apply Hnil.
    + apply (bool_decide_unpack _). vm_compute. exact I.
    + vm_compute. discriminate.
    + reflexivity.
Defined.

Lemma FinalizeAssembleAndBroadcast_block_witness :
  ∃ w' block assembled,
    FinalizeAssembleAndBroadcast ZONE_CTX worker0 (header env1) (blk 8000%N 9)
      (state env1) [] [] [] [] [] = (w', inl block) ∧
    FinalizeAndAssemble (header env1) (state env1) [] [] [] [] [] = inl assembled ∧
    block_body block = block_body assembled ∧
    w' = AddPendingBlockBody worker0 (block_header assembled)
           (Some (block_body assembled)).
Proof.
  assert ((if (FinalizeAssembleAndBroadcast ZONE_CTX worker0 (header env1)
                 (blk 8000%N 9) (state env1) [] [] [] [] []).2
           is inl _ then true else false) = true) as Hok by (vm_compute; reflexivity).
  destruct (FinalizeAssembleAndBroadcast ZONE_CTX worker0 (header env1) (blk 8000%N 9)
              (state env1) [] [] [] [] []) as [w' [block|err]] eqn:Hrun;
    [|discriminate Hok].
  destruct (FinalizeAssembleAndBroadcast_block ZONE_CTX worker0 w' (header env1)
              (blk 8000%N 9) (state env1) [] [] [] [] [] block Hrun)
    as (assembled & Hasm & Hbody & _ & _ & Hw).
  exists w', block, assembled. split; [reflexivity|].
  split; [exact Hasm|]. split; [exact Hbody | exact Hw].
Defined.

Lemma fillTransactions_newHead_skips_remotes_witness :
  fillTransactions worker0 (Some (λ _, commitInterruptNewHead)) env1 (blk 8000%N 9)
  = Done (worker0, env1).
Proof.
  apply (fillTransactions_newHead_skips_remotes (PO := poolOps) worker0
           (λ _, commitInterruptNewHead) env1 (blk 8000%N 9) tt
           {[ 0%N := [mkTransaction 1%N 1 0]; 1%N := [mkTransaction 100%N 100 3] ]}).
  - reflexivity.
  - reflexivity.
  - vm_compute. lia.
  - discriminate.
  - discriminate.
  - reflexivity.
Defined.

Lemma txsCh_renews_snapshot_witness :
  ∃ w' cur' addedTxs,
    mainLoop_txsCh ZONE_CTX workerIdle [tx 1 0] = Done w' ∧
    current w' = Some cur' ∧ txs cur' = txs env1 ++ addedTxs.
Proof.
  edestruct (txsCh_renews_snapshot workerIdle [tx 1 0] env1)
    as (w' & cur' & added & Hrun & Hcur & Htxs & _).
  - reflexivity.
  - reflexivity.
  - reflexivity.
  - eexists. reflexivity.
  - reflexivity.
  - eexists. reflexivity.
  - vm_compute. discriminate.
  - vm_compute. reflexivity.
  - exists w', cur', added. split; [exact Hrun|]. split; [exact Hcur | exact Htxs].
Defined.

Lemma FinalizeAssembleAndBroadcast_failures_witness :
  FinalizeAssembleAndBroadcast ZONE_CTX worker0
    (mkHeader 9000%N 10 0 100000 100001 0 0%N 0%N 0%N 0%N 0%N) (blk 8000%N 9)
    (state env1) [] [] [] [] []
  = (worker0, inr (errors_New "gas used above limit")).
Proof.
  destruct (FinalizeAssembleAndBroadcast_failures ZONE_CTX worker0
              (mkHeader 9000%N 10 0 100000 100001 0 0%N 0%N 0%N 0%N 0%N) (blk 8000%N 9)
              (state env1) [] [] [] [] [] (errors_New "gas used above limit"))
    as (Hengine & _).
  apply Hengine. reflexivity.
Defined.

Lemma fillTransactions_nothing_to_fill_witness :
  fillTransactions worker0 None env1 (blk 0%N 0) = Done (worker0, env1).
Proof.
  destruct (fillTransactions_nothing_to_fill worker0 None env1 (blk 0%N 0))
    as (Hset & _).
  apply Hset. reflexivity.
Defined.

Lemma prepareWork_zone_environment_witness :
  ∃ env,
    prepareWork ZONE_CTX workerSealing (mkGenerateParams 5 false 1%N) parent9 = inl env ∧
    (size (uncles env) ≤ 2)%nat ∧ ancestors env ⊆ family env ∧ tcount env = 0.
Proof.
  assert ((if prepareWork ZONE_CTX workerSealing (mkGenerateParams 5 false 1%N) parent9
           is inl _ then true else false) = true) as Hok by (vm_compute; reflexivity).
  destruct (prepareWork ZONE_CTX workerSealing (mkGenerateParams 5 false 1%N) parent9)
    as [env|err] eqn:Hprep; [|discriminate Hok].
  destruct (prepareWork_zone_environment _ _ _ _ Hprep)
    as (_ & Hsize & _ & Hsub & _ & _ & _ & _ & _ & _ & _ & Htcount & _).
  exists env. split; [reflexivity|]. split; [exact Hsize|].
  split; [exact Hsub|exact Htcount].
Defined.

Lemma GeneratePendingHeader_on_error_witness :
  ∃ w' err,
    GeneratePendingHeader ZONE_CTX workerIdle 5 (blk 0%N 0) true = Done (w', inr err) ∧
    newTxs w' = 0 ∧ snapshotBlock w' = None.
Proof.
  assert ((if GeneratePendingHeader ZONE_CTX workerIdle 5 (blk 0%N 0) true
           is Done (_, inr _) then true else false) = true) as Hok
    by (vm_compute; reflexivity).
  destruct (GeneratePendingHeader ZONE_CTX workerIdle 5 (blk 0%N 0) true)
    as [[w' [h|err]]|reason|] eqn:Hrun; try discriminate Hok.
  destruct (GeneratePendingHeader_on_error _ _ _ _ _ _ _ Hrun) as (Hnew & Hblock & _).
  exists w', err. split; [reflexivity|]. split; [exact Hnew|exact Hblock].
Defined.

